(** * User-configuration converters of the Aiven Terraform provider

    A shallow embedding of
    [internal/sdkprovider/userconfig/converters/converters.go]: the engine
    that turns Terraform values into the JSON-shaped DTO sent to the API
    ([Expand]) and the DTO received from the API back into Terraform values
    ([Flatten]).

    Go maps are stdpp [gmap]s.  A Go call either returns a value, returns an
    error, or panics (a failed single-value type assertion, a cty accessor
    used on the wrong kind of value); the three outcomes are the three
    constructors of [Res]. *)

From stdpp Require Import gmap strings list fin_maps.
From Stdlib Require Import ZArith Ascii.
From Stdlib Require QArith_base Floats DecimalString.

#[local] Set Warnings "-register-all".
#[local] Open Scope string_scope.

(** ** Go values *)

Definition float64 : Type := PrimFloat.float.

(** A value of Go type [any].  [VNil] is the nil interface; every other
    constructor is an interface holding a value of a concrete type, and is
    therefore different from nil even when the value held is a nil slice
    or a nil map (which are [VList []] and [VMap ∅] here).
    [VNumber] is a [json.Number], [VSet] a [*schema.Set] given by the
    elements of its [List()]. *)
Inductive GoVal :=
| VNil
| VString (s : string)
| VBool (b : bool)
| VInt (i : Z)
| VFloat (f : float64)
| VNumber (n : string)
| VList (l : list GoVal)
| VMap (m : gmap string GoVal)
| VSet (l : list GoVal).

Abbreviation Obj := (gmap string GoVal).

(** [m[k]] on a Go map: the zero value (nil) when the key is missing. *)
Definition index (m : Obj) (k : string) : GoVal := default VNil (m !! k).

(** ** Errors and outcomes *)

Inductive error :=
| ErrInvalidType (expected : string) (got : GoVal)
| ErrSyntax (fn : string) (input : string)
| ErrField (k : string) (cause : error).

Inductive Res (A : Type) :=
| Ok (a : A)
| Err (e : error)
| Panic.
Arguments Ok {A} a.
Arguments Err {A} e.
Arguments Panic {A}.

Definition bindR {A B} (m : Res A) (f : A → Res B) : Res B :=
  match m with
  | Ok a => f a
  | Err e => Err e
  | Panic => Panic
  end.

Notation "x <~ m ;; k" := (bindR m (λ x, k))
  (at level 100, m at next level, right associativity,
   format "'[v' x  <~  m  ;;  '/' k ']'").

Definition mapR {A B} (f : A → B) (m : Res A) : Res B :=
  x <~ m ;; Ok (f x).

Fixpoint traverse {A B} (f : A → Res B) (l : list A) : Res (list B) :=
  match l with
  | [] => Ok []
  | x :: l' => y <~ f x ;; ys <~ traverse f l' ;; Ok (y :: ys)
  end.

(** ** The schema (terraform-plugin-sdk [schema.Schema]) *)

Inductive ValueType :=
| TypeInvalid | TypeBool | TypeInt | TypeFloat | TypeString
| TypeList | TypeMap | TypeSet.

(** [Fields] is the [map[string]*schema.Schema] of a [schema.Resource],
    listed in the order in which a [range] statement visits it.  Go leaves
    that order unspecified; every statement below holds for each list, hence
    for each order. *)
Inductive Schema :=
| MkSchema (ty : ValueType) (forceNew : bool) (maxItems : Z) (elem : SchemaElem)
with SchemaElem :=
| ElemNone
| ElemSchema (s : Schema)
| ElemResource (res : Fields)
with Fields :=
| FNil
| FCons (k : string) (s : Schema) (rest : Fields).

Definition sType (s : Schema) : ValueType := let 'MkSchema ty _ _ _ := s in ty.
Definition ForceNew (s : Schema) : bool := let 'MkSchema _ f _ _ := s in f.
Definition MaxItems (s : Schema) : Z := let 'MkSchema _ _ n _ := s in n.
Definition Elem (s : Schema) : SchemaElem := let 'MkSchema _ _ _ e := s in e.

Fixpoint field (fs : Fields) (k : string) : option Schema :=
  match fs with
  | FNil => None
  | FCons k' s rest => if decide (k' = k) then Some s else field rest k
  end.

Fixpoint keys (fs : Fields) : list string :=
  match fs with
  | FNil => []
  | FCons k _ rest => k :: keys rest
  end.

(** The keys of a Go map are pairwise distinct. *)
Definition uniq (fs : Fields) : bool := bool_decide (NoDup (keys fs)).

(** ** The raw configuration (go-cty [cty.Value]) *)

Inductive ConfigValue :=
| CNilVal
| CNull
| CString (s : string)
| CNumber (n : QArith_base.Q)
| CBool (b : bool)
| CList (l : list ConfigValue)
| CObject (attrs : gmap string ConfigValue).

(** [cty.NilVal], the zero [cty.Value], answers [IsNull] like a null. *)
Definition IsNull (c : ConfigValue) : bool :=
  match c with CNilVal | CNull => true | _ => false end.

Definition CanIterateElements (c : ConfigValue) : bool :=
  match c with CList _ | CObject _ => true | _ => false end.

(** Only used on values that can be iterated. *)
Definition LengthInt (c : ConfigValue) : nat :=
  match c with
  | CList l => length l
  | CObject attrs => size attrs
  | _ => 0
  end.

(** Panics unless the value is non-null and can be iterated. *)
Definition AsValueSlice (c : ConfigValue) : Res (list ConfigValue) :=
  match c with
  | CList l => Ok l
  | CObject attrs => Ok ((map_to_list attrs).*2)
  | _ => Panic
  end.

(** Panics unless the value is an object that has the attribute. *)
Definition GetAttr (c : ConfigValue) (k : string) : Res ConfigValue :=
  match c with
  | CObject attrs => match attrs !! k with Some v => Ok v | None => Panic end
  | _ => Panic
  end.

(** ** The resource data (terraform-plugin-sdk [schema.ResourceData])

    The SDK is outside the package; a resource is given by what its
    accessors answer.  [GetOk] returns the value at a path together with
    whether it is set to a non-zero value; the SDK defines [Get] as the
    first component of [GetOk]. *)
Record ResourceData := {
  GetOk : string → GoVal * bool;
  HasChange : string → bool;
  IsNewResource : bool;
  GetRawConfig : ConfigValue;
}.

Definition Get (d : ResourceData) (k : string) : GoVal := (GetOk d k).1.

Definition userConfigSuffix : string := "_user_config".

(** [%d] of an index. *)
Definition Itoa (i : nat) : string :=
  DecimalString.NilEmpty.string_of_uint (Nat.to_uint i).

(** [stateCompose] combines the raw configuration and the resource data. *)
Record stateCompose := {
  key : string;
  path : string;
  schema : Schema;
  config : ConfigValue;
  resource : ResourceData;
}.

Definition value (s : stateCompose) : GoVal := Get (resource s) (path s).

(** [hasValue], as the source writes it, holds when the configuration has
    no value: when it is null, or can be iterated and has no element. *)
Definition hasValue (s : stateCompose) : bool :=
  IsNull (config s)
  || CanIterateElements (config s) && (LengthInt (config s) =? 0)%nat.

Definition hasChange (s : stateCompose) : bool :=
  HasChange (resource s) (path s).

(** [listItems]: the states of the declared elements of a list. *)
Definition listItems (s : stateCompose) : Res (list stateCompose) :=
  if IsNull (config s) then Ok []
  else
    items <~ AsValueSlice (config s) ;;
    Ok (imap (λ i v, {| key := key s;
                        path := path s +:+ "." +:+ Itoa i;
                        schema := schema s;
                        config := v;
                        resource := resource s |}) items).

(** [objectProperties]: the states of the properties of an object.  A
    [ForceNew] property is left out unless the resource is new. *)
Fixpoint properties (s : stateCompose) (fs : Fields)
    (props : gmap string stateCompose) : Res (gmap string stateCompose) :=
  match fs with
  | FNil => Ok props
  | FCons k subSchema rest =>
      if ForceNew subSchema && negb (IsNewResource (resource s))
      then properties s rest props
      else
        cfg <~ (if IsNull (config s) then Ok CNilVal
                else GetAttr (config s) k) ;;
        properties s rest
          (<[k := {| key := k;
                     path := path s +:+ "." +:+ k;
                     schema := subSchema;
                     config := cfg;
                     resource := resource s |}]> props)
  end.

Definition objectProperties (s : stateCompose)
    : Res (gmap string stateCompose) :=
  match Elem (schema s) with
  | ElemResource res => properties s res ∅
  | _ => Panic
  end.

Definition expandScalar (state : stateCompose) : Res GoVal :=
  if hasValue state then Ok VNil else Ok (value state).

(** The loop of [expandAttr] over the element states: what expands to nil
    is not appended. *)
Fixpoint appendItems (exp : stateCompose → Res GoVal)
    (states : list stateCompose) (items : list GoVal) : Res (list GoVal) :=
  match states with
  | [] => Ok items
  | st :: states' =>
      e <~ exp st ;;
      appendItems exp states'
        (match e with VNil => items | _ => items ++ [e] end)
  end.

Section Expander.

(** Formatting comes from the Go library: [fmt.Sprintf("%v", v)] and
    the [String] method of [big.Float]. *)
Variable Sprintf_v : GoVal → string.
Variable BigFloat_String : QArith_base.Q → string.

Definition hashOf (item : ConfigValue) : Res string :=
  match item with
  | CString s => Ok s
  | CNumber n => Ok (BigFloat_String n)
  | _ => Panic
  end.

(** [setItems]: the values of a set that the configuration declares. *)
Definition setItems (s : stateCompose) : Res (list GoVal) :=
  if IsNull (config s) then Ok []
  else
    items <~ AsValueSlice (config s) ;;
    hashes <~ traverse hashOf items ;;
    match value s with
    | VSet l => Ok (filter (λ v, Sprintf_v v ∈ hashes) l)
    | _ => Panic
    end.

(** [expandAttr] and the loop of [expandObj], by recursion on the schema.
    The source recurs on the state: an element of a list has the schema of
    the list, a property the schema that its key has in the resource, so
    the schema of a state is the one the recursion is at.  The elements of a
    list of objects go through the body of [expandObj]. *)
Fixpoint expandAttrOf (sch : Schema) (state : stateCompose) {struct sch}
    : Res GoVal :=
  match sch with
  | MkSchema ty _ maxItems elem =>
      match ty with
      | TypeSet | TypeList =>
          if hasValue state && negb (hasChange state) then Ok VNil
          else
            match ty with
            | TypeSet => mapR VList (setItems state)
            | _ =>
                states <~ listItems state ;;
                match elem with
                | ElemResource res =>
                    items <~ appendItems
                               (λ st, props <~ objectProperties st ;;
                                      mapR VMap (expandProps res props ∅))
                               states [] ;;
                    if (maxItems =? 1)%Z then
                      match items with
                      | [item] => Ok item
                      | [] => Ok VNil
                      | _ => Ok (VList items)
                      end
                    else Ok (VList items)
                | _ =>
                    items <~ appendItems expandScalar states [] ;;
                    Ok (VList items)
                end
            end
      | _ => expandScalar state
      end
  end
with expandProps (fs : Fields) (props : gmap string stateCompose)
    (m : Obj) {struct fs} : Res Obj :=
  match fs with
  | FNil => Ok m
  | FCons k subSchema rest =>
      match props !! k with
      | None => expandProps rest props m
      | Some v =>
          match expandAttrOf subSchema v with
          | Ok VNil => expandProps rest props m
          | Ok val => expandProps rest props (<[k := val]> m)
          | Err e => Err (ErrField k e)
          | Panic => Panic
          end
      end
  end.

Definition expandAttr (state : stateCompose) : Res GoVal :=
  expandAttrOf (schema state) state.

Definition expandObj (state : stateCompose) : Res Obj :=
  props <~ objectProperties state ;;
  match Elem (schema state) with
  | ElemResource res => expandProps res props ∅
  | _ => Panic
  end.

End Expander.

(** ** Flattening *)

(** Modelled from the spec: [castType], the generic helper behind the
    [TypeString] and [TypeBool] cases of [flattenAttr], is not in the
    sources.  The spec has it cast the DTO leaf to the declared kind and
    report a mismatch as a conversion error. *)
Definition castType_string (v : GoVal) : Res GoVal :=
  match v with
  | VString _ => Ok v
  | _ => Err (ErrInvalidType "string" v)
  end.

Definition castType_bool (v : GoVal) : Res GoVal :=
  match v with
  | VBool _ => Ok v
  | _ => Err (ErrInvalidType "bool" v)
  end.

(** [strconv.ParseInt(s, 10, 64)], which [json.Number.Int64] calls; the
    [int] that [flattenAttr] converts the result to has 64 bits. *)
Definition digit (c : Ascii.ascii) : option Z :=
  let n := Z.of_N (Ascii.N_of_ascii c) in
  if (48 <=? n)%Z && (n <=? 57)%Z then Some (n - 48)%Z else None.

Fixpoint digits (s : string) (acc : Z) : option Z :=
  match s with
  | EmptyString => Some acc
  | String c s' =>
      match digit c with
      | Some d => digits s' (10 * acc + d)%Z
      | None => None
      end
  end.

Definition ParseInt64 (s : string) : option Z :=
  let '(neg, body) :=
    match s with
    | String "-"%char r => (true, r)
    | String "+"%char r => (false, r)
    | _ => (false, s)
    end in
  match body with
  | EmptyString => None
  | _ =>
      match digits body 0 with
      | Some n =>
          let v := if neg then (- n)%Z else n in
          if (- 2 ^ 63 <=? v)%Z && (v <? 2 ^ 63)%Z then Some v else None
      | None => None
      end
  end.

(** The loop of [flattenList]. *)
Fixpoint flattenItems (flattenObj : Obj → Res (option Obj))
    (lst : list GoVal) (items : list GoVal) : Res (list GoVal) :=
  match lst with
  | [] => Ok items
  | item :: rest =>
      match item with
      | VMap o =>
          v <~ flattenObj o ;;
          flattenItems flattenObj rest
            (match v with Some t => items ++ [VMap t] | None => items end)
      | _ => Panic
      end
  end.

Section Flattener.

(** [strconv.ParseFloat(s, 64)], which [json.Number.Float64] calls. *)
Variable ParseFloat : string → option float64.

(** [flattenAttr] and the loop of [flattenObj], by recursion on the
    schema.  The [[]any] that [flattenList] returns becomes an [any] on
    return from [flattenAttr], so it is never the nil interface.  For a set
    of scalars the source returns [schema.NewSet] of the converted values;
    [schema.NewSet] belongs to the SDK, which keeps one value of each hash
    code and lists the values by hash code.  The [VSet] here is given by
    the converted values in the order of the DTO: it is the [List()] of
    that set up to duplicates and order. *)
Fixpoint flattenAttr (s : Schema) (data : GoVal) {struct s} : Res GoVal :=
  match s with
  | MkSchema ty _ _ elem =>
      match ty with
      | TypeString => castType_string data
      | TypeBool => castType_bool data
      | TypeInt =>
          match data with
          | VNumber n =>
              match ParseInt64 n with
              | Some i => Ok (VInt i)
              | None => Err (ErrSyntax "ParseInt" n)
              end
          | _ => Panic
          end
      | TypeFloat =>
          match data with
          | VNumber n =>
              match ParseFloat n with
              | Some f => Ok (VFloat f)
              | None => Err (ErrSyntax "ParseFloat" n)
              end
          | _ => Panic
          end
      | _ =>
          match elem with
          | ElemSchema scalar =>
              match ty with
              | TypeList =>
                  match data with
                  | VList l => Ok (VList l)
                  | _ => Panic
                  end
              | TypeSet =>
                  match data with
                  | VList l =>
                      values <~ traverse (flattenAttr scalar) l ;;
                      Ok (VSet values)
                  | _ => Panic
                  end
              | _ => Panic
              end
          | ElemResource resource =>
              lst <~ match data with
                      | VMap o =>
                          Ok (if decide (size o = 0) then []
                              else [VMap o])
                      | VList l => Ok l
                      | _ => Panic
                      end ;;
              match lst with
              | [] => Ok (VList [])
              | _ =>
                  items <~ flattenItems
                             (λ o, tfo <~ flattenFields resource o ∅ ;;
                                   Ok (if decide (size tfo = 0) then None
                                       else Some tfo))
                             lst [] ;;
                  Ok (VList items)
              end
          | ElemNone => Panic
          end
      end
  end
with flattenFields (s : Fields) (dto : Obj) (tfo : Obj) {struct s}
    : Res Obj :=
  match s with
  | FNil => Ok tfo
  | FCons k v rest =>
      match dto !! k with
      | None | Some VNil => flattenFields rest dto tfo
      | Some vv =>
          match flattenAttr v vv with
          | Ok VNil => flattenFields rest dto tfo
          | Ok val => flattenFields rest dto (<[k := val]> tfo)
          | Err e => Err (ErrField k e)
          | Panic => Panic
          end
      end
  end.

(** [flattenObj] returns a nil map when no field is populated. *)
Definition flattenObj (s : Fields) (dto : Obj) : Res (option Obj) :=
  tfo <~ flattenFields s dto ∅ ;;
  Ok (if decide (size tfo = 0) then None else Some tfo).

Definition flattenList (s : Fields) (lst : list GoVal)
    : Res (list GoVal) :=
  match lst with
  | [] => Ok []
  | _ => flattenItems (flattenObj s) lst []
  end.

End Flattener.

(** ** Aliases and create-only fields *)

Definition createOnlyFields : list string :=
  ["admin_username"; "admin_password"].

Definition aliasFieldsMap : list (string * string) :=
  [("ip_filter_string", "ip_filter");
   ("ip_filter_object", "ip_filter");
   ("rules.0.mapping.0.namespaces_string", "namespaces");
   ("rules.0.mapping.0.namespaces_object", "namespaces")].

(** A dotted path, cut at its dots. *)
Fixpoint splitPath (s : string) (cur : string) : list string :=
  match s with
  | EmptyString => [cur]
  | String c s' =>
      if decide (c = "."%char) then cur :: splitPath s' ""
      else splitPath s' (cur +:+ String c "")
  end.

Definition parseIndex (s : string) : option nat :=
  match s with
  | EmptyString => None
  | _ => Z.to_nat <$> digits s 0
  end.

(** Modelled from the spec: [drillKey], which [Flatten] uses to reach the
    object at [rules.0.mapping], is not in the sources.  It follows a dotted
    path down the DTO, a name selecting a key of an object and a number an
    element of an array, and reports whether the path exists. *)
Fixpoint drill (ks : list string) (v : GoVal) : option GoVal :=
  match ks with
  | [] => Some v
  | k :: ks' =>
      match v with
      | VMap m => match m !! k with Some x => drill ks' x | None => None end
      | VList l =>
          match parseIndex k with
          | Some i => match l !! i with Some x => drill ks' x | None => None end
          | None => None
          end
      | _ => None
      end
  end.

Definition drillKey (dto : Obj) (path : string) : option GoVal :=
  drill (splitPath path "") (VMap dto).

(** A Go map is a reference: what [assignAlias] does to the object that
    [drillKey] returned is done to the DTO that contains it.  [store] puts
    the updated object back at its path. *)
Fixpoint store (ks : list string) (new : GoVal) (v : GoVal) : GoVal :=
  match ks with
  | [] => new
  | k :: ks' =>
      match v with
      | VMap m =>
          match m !! k with
          | Some x => VMap (<[k := store ks' new x]> m)
          | None => v
          end
      | VList l =>
          match parseIndex k with
          | Some i =>
              match l !! i with
              | Some x => VList (<[i := store ks' new x]> l)
              | None => v
              end
          | None => v
          end
      | _ => v
      end
  end.

Definition storeKeys (dto : Obj) (ks : list string) (new : GoVal) : Obj :=
  match store ks new (VMap dto) with
  | VMap m => m
  | _ => dto
  end.

(** Modelled from the spec: [sortByKey] is not in the sources.  The spec
    has the objects fetched from the API re-ordered to match the order of
    the objects in the state, compared by the ordering key.  Here an object
    takes the position of the first state object with the same key, objects
    the state does not have come last, and ties keep the DTO order. *)
Definition keyOf (sortBy : string) (v : GoVal) : option string :=
  match v with
  | VMap m => match m !! sortBy with Some (VString s) => Some s | _ => None end
  | _ => None
  end.

Fixpoint position (k : string) (ks : list (option string)) : nat :=
  match ks with
  | [] => 0
  | k' :: rest => if decide (k' = Some k) then 0 else S (position k rest)
  end.

Definition rank (sortBy : string) (original : list GoVal) (v : GoVal) : nat :=
  match keyOf sortBy v with
  | Some k => position k (keyOf sortBy <$> original)
  | None => length original
  end.

Fixpoint insertBy (r : GoVal → nat) (x : GoVal) (l : list GoVal)
    : list GoVal :=
  match l with
  | [] => [x]
  | y :: l' => if (r x <=? r y)%nat then x :: l else y :: insertBy r x l'
  end.

Definition sortByKey (sortBy : string) (originalSrc dtoSrc : GoVal) : GoVal :=
  match originalSrc, dtoSrc with
  | VList original, VList dto =>
      VList (foldr (insertBy (rank sortBy original)) [] dto)
  | _, _ => dtoSrc
  end.

(** [assignAlias] renames the key of a multi-typed property:
    [ip_filter] becomes [ip_filter_string] or [ip_filter_object]. *)
Definition assignAlias (d : ResourceData) (path : string) (dto : Obj)
    (key sortBy : string) : Obj :=
  match dto !! key with
  | Some (VList values) =>
      match values with
      | [] => dto
      | first :: _ =>
          let str := "_string" in
          let obj := "_object" in
          let '(suffix, dto) :=
            match first with
            | VMap _ =>
                (obj,
                 let '(inStateObjs, ok) := GetOk d (path +:+ obj) in
                 if ok
                 then <[key := sortByKey sortBy inStateObjs (index dto key)]> dto
                 else dto)
            | _ => ("", dto)
            end in
          let suffix := if (GetOk d (path +:+ str)).2 then str else suffix in
          if decide (suffix ≠ "")
          then delete key (<[key +:+ suffix := index dto key]> dto)
          else dto
      end
  | _ => dto
  end.

(** Modelled from the spec: [renameAliases], the last step of [Expand], is
    not in the sources.  By the spec the conversion to the DTO collapses
    the virtual fields to the logical name; [aliasFieldsMap] gives, for the
    path of each virtual field, the name it takes. *)
Definition renameAlias (dto : Obj) (from to : string) : Obj :=
  let ks := splitPath from "" in
  match drill (removelast ks) (VMap dto), last ks with
  | Some (VMap o), Some k =>
      match o !! k with
      | Some v => storeKeys dto (removelast ks) (VMap (<[to := v]> (delete k o)))
      | None => dto
      end
  | _, _ => dto
  end.

Definition renameAliases (dto : Obj) : Obj :=
  foldl (λ dto '(from, to), renameAlias dto from to) dto aliasFieldsMap.

(** ** The two entry points *)

Section Expand.

Variable Sprintf_v : GoVal → string.
Variable BigFloat_String : QArith_base.Q → string.

(** [Expand] expands the resource data into a DTO. *)
Definition Expand (kind : string) (s : Schema) (d : ResourceData)
    : Res Obj :=
  let key := kind +:+ userConfigSuffix in
  attr <~ GetAttr (GetRawConfig d) key ;;
  configs <~ AsValueSlice attr ;;
  let state := {| key := key;
                  path := key +:+ ".0";
                  schema := s;
                  config := match configs with c :: _ => c | [] => CNilVal end;
                  resource := d |} in
  dto <~ expandObj Sprintf_v BigFloat_String state ;;
  Ok (renameAliases dto).

End Expand.

Section Flatten.

Variable ParseFloat : string → option float64.

(** [Flatten] flattens a DTO into a Terraform object: nil, or a list with
    one element. *)
Definition Flatten (kind : string) (s : Schema) (d : ResourceData)
    (dto : Obj) : Res (list Obj) :=
  let prefix := kind +:+ userConfigSuffix +:+ ".0." in
  let dto :=
    if decide (is_Some (dto !! "ip_filter"))
    then assignAlias d (prefix +:+ "ip_filter") dto "ip_filter" "network"
    else dto in
  dto <~ match drillKey dto "rules.0.mapping" with
         | Some (VMap mapping) =>
             Ok (storeKeys dto (splitPath "rules.0.mapping" "")
                   (VMap (assignAlias d
                            (prefix +:+ "rules.0.mapping.0.namespaces")
                            mapping "namespaces" "name")))
         | Some _ => Panic
         | None => Ok dto
         end ;;
  let dto :=
    foldl (λ dto k, let '(v, ok) := GetOk d (prefix +:+ k) in
                    if ok then <[k := v]> dto else dto)
          dto createOnlyFields in
  match Elem s with
  | ElemResource r =>
      tfo <~ flattenObj ParseFloat r dto ;;
      Ok (match tfo with Some t => [t] | None => [] end)
  | _ => Panic
  end.

End Flatten.

(** * Auxiliary definitions for the statements *)

(** ** The properties of an object *)

Definition propOf (s : stateCompose) (k : string) (sub : Schema)
    (cfg : ConfigValue) : stateCompose :=
  {| key := k; path := path s +:+ "." +:+ k; schema := sub;
     config := cfg; resource := resource s |}.

Definition attrOf (s : stateCompose) (k : string) : Res ConfigValue :=
  if IsNull (config s) then Ok CNilVal else GetAttr (config s) k.

(** ** The steps of [Expand] *)

(** The configuration of the user config block: the first element of the
    list that the raw configuration has under the key, and the zero value
    when the list is empty. *)
Definition rootConfig (kind : string) (d : ResourceData) : Res ConfigValue :=
  attr <~ GetAttr (GetRawConfig d) (kind +:+ userConfigSuffix) ;;
  configs <~ AsValueSlice attr ;;
  Ok (match configs with c :: _ => c | [] => CNilVal end).

(** The state that [Expand] starts from. *)
Definition rootState (kind : string) (s : Schema) (d : ResourceData)
    (cfg : ConfigValue) : stateCompose :=
  {| key := kind +:+ userConfigSuffix;
     path := (kind +:+ userConfigSuffix) +:+ ".0";
     schema := s; config := cfg; resource := d |}.

(** The name that a field of the user config block has in the DTO: by
    [aliasFieldsMap], [ip_filter] for [ip_filter_string] and for
    [ip_filter_object]. *)
Definition dtoName (k : string) : string :=
  if decide (k = "ip_filter_string" ∨ k = "ip_filter_object")
  then "ip_filter" else k.

(** What the renaming of the aliases leaves under a key of the block other
    than [rules]: [ip_filter] takes the value of [ip_filter_object], else
    of [ip_filter_string], and the two aliases are gone. *)
Definition renamed (m : Obj) (k : string) : option GoVal :=
  if decide (k = "ip_filter")
  then m !! "ip_filter_object" ∪ m !! "ip_filter_string" ∪ m !! "ip_filter"
  else if decide (k = "ip_filter_string" ∨ k = "ip_filter_object") then None
  else m !! k.

(** The schema has the field [k] with the schema [sub]. *)
Fixpoint hasField (fs : Fields) (k : string) (sub : Schema) : Prop :=
  match fs with
  | FNil => False
  | FCons k' s rest => k' = k ∧ s = sub ∨ hasField rest k sub
  end.

(** ** The steps of [Flatten] before the recursion *)

Definition prefixOf (kind : string) : string :=
  kind +:+ userConfigSuffix +:+ ".0.".

Definition aliasIpFilter (kind : string) (d : ResourceData) (dto : Obj) : Obj :=
  if decide (is_Some (dto !! "ip_filter"))
  then assignAlias d (prefixOf kind +:+ "ip_filter") dto "ip_filter" "network"
  else dto.

Definition aliasNamespaces (kind : string) (d : ResourceData) (dto : Obj)
    : Res Obj :=
  match drillKey dto "rules.0.mapping" with
  | Some (VMap mapping) =>
      Ok (storeKeys dto (splitPath "rules.0.mapping" "")
            (VMap (assignAlias d
                     (prefixOf kind +:+ "rules.0.mapping.0.namespaces")
                     mapping "namespaces" "name")))
  | Some _ => Panic
  | None => Ok dto
  end.

Definition copyCreateOnly (kind : string) (d : ResourceData) (dto : Obj)
    : Obj :=
  foldl (λ dto k, let '(v, ok) := GetOk d (prefixOf kind +:+ k) in
                  if ok then <[k := v]> dto else dto)
        dto createOnlyFields.

(** How many of the keys have a value. *)
Fixpoint populated (m : Obj) (ks : list string) : nat :=
  match ks with
  | [] => 0
  | k :: ks' => (if m !! k is Some _ then 1 else 0) + populated m ks'
  end.

Definition ipFilterKeys : list string :=
  ["ip_filter"; "ip_filter_string"; "ip_filter_object"].

(** The object list as [assignAlias] leaves it: in the order of the state
    when the state has the [_object] field. *)
Definition reordered (d : ResourceData) (path sortBy : string)
    (values : GoVal) : GoVal :=
  if (GetOk d (path +:+ "_object")).2
  then sortByKey sortBy (GetOk d (path +:+ "_object")).1 values
  else values.

(** The state of the [i]-th declared element of a list, as [listItems]
    builds it. *)
Definition itemOf (s : stateCompose) (i : nat) (v : ConfigValue)
    : stateCompose :=
  {| key := key s; path := path s +:+ "." +:+ Itoa i; schema := schema s;
     config := v; resource := resource s |}.

(** A value that is neither an object nor an array. *)
Definition isLeaf (v : GoVal) : bool :=
  match v with
  | VString _ | VBool _ | VInt _ | VFloat _ => true
  | _ => false
  end.

(** ** Scalar leaves *)

(** A property that every field has. *)
Fixpoint eachField (P : string → Schema → Prop) (fs : Fields) : Prop :=
  match fs with
  | FNil => True
  | FCons k s rest => P k s ∧ eachField P rest
  end.

(** The configuration has a scalar: the user wrote the field. *)
Definition declared (c : ConfigValue) : bool :=
  negb (IsNull c) && negb (CanIterateElements c).

(** A string where the schema declares a string, a bool where it declares
    a bool. *)
Definition leafOf (sub : Schema) (v : GoVal) : bool :=
  match sType sub, v with
  | TypeString, VString _ | TypeBool, VBool _ => true
  | _, _ => false
  end.

(** A value of the kind that a scalar schema declares. *)
Definition scalarOf (sub : Schema) (v : GoVal) : bool :=
  match sType sub, v with
  | TypeString, VString _ | TypeBool, VBool _
  | TypeInt, VInt _ | TypeFloat, VFloat _ => true
  | _, _ => false
  end.

(** A scalar leaf of the user config block that the user declared: a field
    other than [ip_filter] and its aliases, not skipped as [ForceNew], that
    the configuration has and for which the state has a value of the
    declared kind. *)
Definition declaredScalar (kind : string) (s : Schema) (d : ResourceData)
    (cfg : ConfigValue) (k : string) (sub : Schema) : Prop :=
  (k ∉ ipFilterKeys)
  ∧ ForceNew sub && negb (IsNewResource d) = false
  ∧ (∃ c, attrOf (rootState kind s d cfg) k = Ok c ∧ declared c = true)
  ∧ scalarOf sub (Get d (prefixOf kind +:+ k)) = true.

(** A field of the user config block that contributes nothing to the DTO:
    it is skipped as [ForceNew], or the configuration has no value for it
    and, for a list or a set, it has not changed. *)
Definition notSent (kind : string) (s : Schema) (d : ResourceData)
    (cfg : ConfigValue) (k : string) (sub : Schema) : Prop :=
  ForceNew sub && negb (IsNewResource d) = true
  ∨ ∃ c, attrOf (rootState kind s d cfg) k = Ok c
         ∧ hasValue (propOf (rootState kind s d cfg) k sub c) = true
         ∧ (sType sub = TypeList ∨ sType sub = TypeSet →
            HasChange d (prefixOf kind +:+ k) = false).

(** The text of a [json.Number] parses to the int or the float. *)
Definition parsesTo (ParseFloat : string → option float64) (n : string)
    (v : GoVal) : Prop :=
  match v with
  | VInt i => ParseInt64 n = Some i
  | VFloat f => ParseFloat n = Some f
  | _ => False
  end.

(** ** Lists *)

(** A field that an empty expansion clears on the remote side: a set, or a
    list other than a singleton object. *)
Definition clears (sub : Schema) : bool :=
  match sType sub with
  | TypeSet => true
  | TypeList =>
      match Elem sub with
      | ElemResource _ => negb (MaxItems sub =? 1)%Z
      | _ => true
      end
  | _ => false
  end.

(** What [expandScalar] contributes to a list: nothing for an element that
    the configuration does not have or whose value is nil. *)
Definition sent (st : stateCompose) : option GoVal :=
  if hasValue st then None
  else match value st with VNil => None | v => Some v end.

(** * Sample data

    A small user configuration, on which the statements are instantiated.
    The three library functions get stand-ins: the statements hold for every
    choice of them. *)

Module Sample.

Definition Sprintf_v (v : GoVal) : string :=
  match v with VString s => s | _ => "" end.
Definition BigFloat_String (n : QArith_base.Q) : string := "".
Definition ParseFloat (s : string) : option float64 := None.

Definition str : Schema := MkSchema TypeString false 0 ElemNone.
Definition int : Schema := MkSchema TypeInt false 0 ElemNone.
Definition fixed : Schema := MkSchema TypeString true 0 ElemNone.
Definition strings : Schema := MkSchema TypeSet false 0 (ElemSchema str).
Definition networks : Schema :=
  MkSchema TypeList false 0 (ElemResource (FCons "network" str FNil)).
Definition pg : Schema :=
  MkSchema TypeList false 1 (ElemResource (FCons "timeout" str FNil)).

Definition fields : Fields :=
  FCons "admin_password" str
    (FCons "name" str
       (FCons "plan_id" fixed
          (FCons "port" int
             (FCons "ip_filter" strings
                (FCons "ip_filter_string" strings
                   (FCons "ip_filter_object" networks
                      (FCons "pg" pg FNil))))))).

Definition root : Schema := MkSchema TypeList false 1 (ElemResource fields).

(** A root object with the single field [k]. *)
Definition only (k : string) (sub : Schema) : Schema :=
  MkSchema TypeList false 1 (ElemResource (FCons k sub FNil)).

(** A resource: the values that are set, the paths that have changed,
    whether it is new, and the raw configuration of the user config. *)
Definition data (vals : gmap string GoVal) (changed : list string)
    (isNew : bool) (cfg : ConfigValue) : ResourceData :=
  {| GetOk := λ p, match vals !! p with
                   | Some v => (v, true)
                   | None => (VNil, false)
                   end;
     HasChange := λ p, bool_decide (p ∈ changed);
     IsNewResource := isNew;
     GetRawConfig := CObject {["pg_user_config" := CList [cfg]]} |}.

Definition state (d : ResourceData) (cfg : ConfigValue) : stateCompose :=
  {| key := "pg_user_config"; path := "pg_user_config.0"; schema := root;
     config := cfg; resource := d |}.

(** The user wrote [name], [plan_id], an empty [ip_filter] and an empty
    [pg] block. *)
Definition written : ConfigValue :=
  CObject (<["admin_password" := CNull]>
          (<["name" := CString "db"]>
          (<["plan_id" := CString "p1"]>
          (<["port" := CNull]>
          (<["ip_filter" := CList []]>
          (<["ip_filter_string" := CNull]>
          (<["ip_filter_object" := CNull]>
          (<["pg" := CList [CObject {["timeout" := CNull]}]]> ∅)))))))).

(** The same, with [ip_filter] omitted and a [timeout] in the [pg]
    block. *)
Definition omitted : ConfigValue :=
  CObject (<["admin_password" := CNull]>
          (<["name" := CString "db"]>
          (<["plan_id" := CString "p1"]>
          (<["port" := CNull]>
          (<["ip_filter" := CNull]>
          (<["ip_filter_string" := CNull]>
          (<["ip_filter_object" := CNull]>
          (<["pg" := CList [CObject {["timeout" := CString "5"]}]]>
             ∅)))))))).

Definition vals : gmap string GoVal :=
  <["pg_user_config.0.name" := VString "db"]>
  (<["pg_user_config.0.plan_id" := VString "p1"]>
  (<["pg_user_config.0.ip_filter" := VSet []]>
  (<["pg_user_config.0.pg.0.timeout" := VString "5"]> ∅))).

(** The prior state of a service: a password, and two networks under
    [ip_filter_object], B before A. *)
Definition prior : gmap string GoVal :=
  <["pg_user_config.0.admin_password" := VString "secret123"]>
  (<["pg_user_config.0.ip_filter_object" :=
       VList [VMap {["network" := VString "b"]};
              VMap {["network" := VString "a"]}]]> ∅).

(** A user configuration of two scalars, both declared. *)
Definition flag : Schema := MkSchema TypeBool false 0 ElemNone.
Definition leaves : Schema :=
  MkSchema TypeList false 1
    (ElemResource (FCons "name" str (FCons "enabled" flag FNil))).
Definition declaring : ResourceData :=
  data (<["pg_user_config.0.name" := VString "db"]>
        (<["pg_user_config.0.enabled" := VBool true]> ∅))
    [] false
    (CObject {["name" := CString "db"; "enabled" := CBool true]}).

(** The resource after an apply that changed nothing, during an update
    that changed [ip_filter], and at creation. *)
Definition unchanged : ResourceData := data vals [] false written.
Definition changed : ResourceData :=
  data vals ["pg_user_config.0.ip_filter"] false omitted.
Definition created : ResourceData := data vals [] true omitted.

(** The resource that [Flatten] reads the prior state from. *)
Definition service : ResourceData := data prior [] false CNull.

(** The state of the [pg] block. *)
Definition block (cfg : ConfigValue) : stateCompose :=
  propOf (state created omitted) "pg" pg cfg.

Definition netA : Obj := {["network" := VString "a"]}.
Definition netB : Obj := {["network" := VString "b"]}.

(** A list of strings, and the state of a list of three elements whose
    second element the configuration leaves null. *)
Definition tags : Schema := MkSchema TypeList false 0 (ElemSchema str).
Definition tagged : stateCompose :=
  {| key := "tags"; path := "pg_user_config.0.tags"; schema := tags;
     config := CList [CString "x"; CNull; CString "z"];
     resource :=
       data (<["pg_user_config.0.tags.0" := VString "x"]>
             (<["pg_user_config.0.tags.2" := VString "z"]> ∅))
         [] false CNull |}.

(** The state of a list of two networks, the second one an empty block. *)
Definition twoNetworks : stateCompose :=
  {| key := "ip_filter_object"; path := "pg_user_config.0.ip_filter_object";
     schema := networks;
     config := CList [CObject {["network" := CString "a"]};
                      CObject {["network" := CNull]}];
     resource :=
       data {["pg_user_config.0.ip_filter_object.0.network" := VString "a"]}
         [] false CNull |}.

(** The state of a set of which the configuration has two of the three
    values that the state has. *)
Definition filtered : stateCompose :=
  {| key := "ip_filter"; path := "pg_user_config.0.ip_filter";
     schema := strings;
     config := CList [CString "a"; CString "c"];
     resource :=
       data {["pg_user_config.0.ip_filter" :=
                VSet [VString "a"; VString "b"; VString "c"]]}
         [] false CNull |}.

(** A resource without user configuration, of which two lists, the
    singleton object and a scalar have changed. *)
Definition cleared : ResourceData :=
  data ∅ ["pg_user_config.0.ip_filter"; "pg_user_config.0.ip_filter_object";
          "pg_user_config.0.pg"; "pg_user_config.0.name"]
    false CNull.

(** A state that has the strings under [ip_filter_string]. *)
Definition withStrings : ResourceData :=
  data {["pg_user_config.0.ip_filter_string" := VSet [VString "a"]]}
    [] false CNull.

(** The user wrote [name] and nothing else. *)
Definition named : ConfigValue :=
  CObject (<["admin_password" := CNull]>
          (<["name" := CString "db"]>
          (<["plan_id" := CNull]>
          (<["port" := CNull]>
          (<["ip_filter" := CNull]>
          (<["ip_filter_string" := CNull]>
          (<["ip_filter_object" := CNull]>
          (<["pg" := CNull]> ∅)))))))).
Definition naming : ResourceData := data vals [] false named.


(** An update in which the user has removed [ip_filter_string]. *)
Definition clearing : ResourceData :=
  data (<["pg_user_config.0.ip_filter_string" := VSet [VString "a"]]> vals)
    ["pg_user_config.0.ip_filter_string"] false named.

(** The user wrote the int [port]. *)
Definition ported : ResourceData :=
  data {["pg_user_config.0.port" := VInt 5432]} [] false
    (CObject {["port" := CNumber (QArith_base.Qmake 5432 1)]}).

(** Rules with a mapping that has namespaces, and a state that has two
    namespaces under [namespaces_object], B before A. *)
Definition names : Schema :=
  MkSchema TypeList false 0 (ElemResource (FCons "name" str FNil)).
Definition mapping : Schema :=
  MkSchema TypeList false 1
    (ElemResource (FCons "namespaces_string" strings
                     (FCons "namespaces_object" names FNil))).
Definition rules : Schema :=
  MkSchema TypeList false 0 (ElemResource (FCons "mapping" mapping FNil)).
Definition nsA : Obj := {["name" := VString "a"]}.
Definition nsB : Obj := {["name" := VString "b"]}.
Definition ruled : ResourceData :=
  data {["pg_user_config.0.rules.0.mapping.0.namespaces_object" :=
           VList [VMap nsB; VMap nsA]]}
    [] false CNull.

End Sample.

(** * Properties *)

(** ** Outcomes *)

Lemma bindR_Ok {A B} (m : Res A) (f : A → Res B) (b : B) :
  bindR m f = Ok b → ∃ a, m = Ok a ∧ f a = Ok b.
Proof. destruct m as [a| |]; simpl; [eauto|done|done]. Qed.

Ltac inv_bind H :=
  let a := fresh "a" in
  let Ha := fresh "Ha" in
  apply bindR_Ok in H as (a & Ha & H).

Lemma properties_other s fs props0 props k :
  properties s fs props0 = Ok props → k ∉ keys fs →
  props !! k = props0 !! k.
Proof.
  revert props0. induction fs as [|k' sub rest IH]; simpl; intros props0 H Hk.
  - by inversion H.
  - apply not_elem_of_cons in Hk as [Hne Hk].
    destruct (ForceNew sub && negb (IsNewResource (resource s))); [by eauto|].
    inv_bind H. rewrite (IH _ H Hk). by rewrite lookup_insert_ne.
Qed.

Lemma properties_field s fs props0 props k sub :
  properties s fs props0 = Ok props → NoDup (keys fs) →
  field fs k = Some sub →
  if ForceNew sub && negb (IsNewResource (resource s))
  then props !! k = props0 !! k
  else ∃ cfg, attrOf s k = Ok cfg ∧ props !! k = Some (propOf s k sub cfg).
Proof.
  revert props0. induction fs as [|k' sub' rest IH]; simpl;
    intros props0 H Hnd Hf; [done|].
  apply NoDup_cons in Hnd as [Hk' Hnd].
  destruct (decide (k' = k)) as [->|Hne].
  - inversion Hf; subst sub'; clear Hf.
    destruct (ForceNew sub && negb (IsNewResource (resource s))).
    + eapply properties_other; eauto.
    + inv_bind H. exists a. split; [done|].
      rewrite (properties_other _ _ _ _ _ H Hk'). by rewrite lookup_insert_eq.
  - destruct (ForceNew sub' && negb (IsNewResource (resource s))).
    + by apply IH.
    + inv_bind H. specialize (IH _ H Hnd Hf).
      destruct (ForceNew sub && negb (IsNewResource (resource s))).
      * by rewrite IH, lookup_insert_ne.
      * done.
Qed.

Lemma uniq_NoDup fs : uniq fs = true → NoDup (keys fs).
Proof. unfold uniq. intros H. by apply bool_decide_eq_true in H. Qed.

Section ExpandProperties.

Variable Sprintf_v : GoVal → string.
Variable BigFloat_String : QArith_base.Q → string.

#[local] Abbreviation expandAttrOf := (expandAttrOf Sprintf_v BigFloat_String).
#[local] Abbreviation expandProps := (expandProps Sprintf_v BigFloat_String).
#[local] Abbreviation expandAttr := (expandAttr Sprintf_v BigFloat_String).
#[local] Abbreviation expandObj := (expandObj Sprintf_v BigFloat_String).

Lemma expandProps_other fs props m0 m k :
  expandProps fs props m0 = Ok m → k ∉ keys fs → m !! k = m0 !! k.
Proof.
  revert m0. induction fs as [|k' sub rest IH]; simpl; intros m0 H Hk.
  - by inversion H.
  - apply not_elem_of_cons in Hk as [Hne Hk].
    destruct (props !! k') as [p|]; [|by eauto].
    destruct (expandAttrOf sub p) as [[]| |]; try done;
      rewrite (IH _ H Hk); by rewrite ?lookup_insert_ne.
Qed.

Lemma expandProps_field fs props m0 m k sub :
  expandProps fs props m0 = Ok m → NoDup (keys fs) →
  field fs k = Some sub →
  match props !! k with
  | None => m !! k = m0 !! k
  | Some p =>
      ∃ v, expandAttrOf sub p = Ok v
           ∧ m !! k = match v with VNil => m0 !! k | _ => Some v end
  end.
Proof.
  revert m0. induction fs as [|k' sub' rest IH]; simpl;
    intros m0 H Hnd Hf; [done|].
  apply NoDup_cons in Hnd as [Hk' Hnd].
  destruct (decide (k' = k)) as [->|Hne].
  - inversion Hf; subst sub'; clear Hf.
    destruct (props !! k) as [p|]; [|by eapply expandProps_other].
    destruct (expandAttrOf sub p) as [v| |] eqn:Hv; try done.
    exists v. split; [done|].
    destruct v; rewrite (expandProps_other _ _ _ _ _ H Hk');
      by rewrite ?lookup_insert_eq.
  - destruct (props !! k') as [p'|]; [|by apply IH].
    destruct (expandAttrOf sub' p') as [v'| |]; try done.
    assert (∃ m1, expandProps rest props m1 = Ok m ∧ m1 !! k = m0 !! k)
      as (m1 & H1 & Hm1).
    { destruct v'; eexists; (split; [exact H|]);
        by rewrite ?lookup_insert_ne. }
    specialize (IH _ H1 Hnd Hf).
    destruct (props !! k) as [p|]; [|congruence].
    destruct IH as (v & Hv & Hm). exists v. split; [done|].
    destruct v; congruence.
Qed.

(** What [expandObj] puts under the key of a field. *)
Lemma expandObj_field state res m k sub :
  Elem (schema state) = ElemResource res → uniq res = true →
  field res k = Some sub →
  expandObj state = Ok m →
  if ForceNew sub && negb (IsNewResource (resource state))
  then m !! k = None
  else ∃ cfg v, attrOf state k = Ok cfg
                ∧ expandAttr (propOf state k sub cfg) = Ok v
                ∧ m !! k = match v with VNil => None | _ => Some v end.
Proof.
  intros He Hu Hf H. apply uniq_NoDup in Hu.
  unfold expandObj, objectProperties in H. rewrite He in H.
  inv_bind H. rename a into props.
  pose proof (properties_field _ _ _ _ _ _ Ha Hu Hf) as Hp.
  pose proof (expandProps_field _ _ _ _ _ _ H Hu Hf) as Hm.
  destruct (ForceNew sub && negb (IsNewResource (resource state))).
  - rewrite Hp, lookup_empty in Hm. by rewrite Hm.
  - destruct Hp as (cfg & Hc & Hp). rewrite Hp in Hm.
    destruct Hm as (v & Hv & Hm). exists cfg, v.
    split; [done|]. split; [done|]. rewrite Hm. by destruct v.
Qed.

(** A list or a set that the configuration does not have, and that has not
    changed, is not sent; a scalar that the configuration does not have is
    not sent. *)
Lemma expandAttrOf_null sch state :
  IsNull (config state) = true → hasChange state = false →
  expandAttrOf sch state = Ok VNil.
Proof.
  intros Hn Hc. destruct sch as [ty fn mi e].
  unfold expandAttrOf; fold expandAttrOf.
  unfold expandScalar, hasValue. rewrite Hn, Hc. simpl. by destruct ty.
Qed.

Lemma appendItems_ext (f g : stateCompose → Res GoVal) states items :
  (∀ st, st ∈ states → f st = g st) →
  appendItems f states items = appendItems g states items.
Proof.
  revert items. induction states as [|st states IH]; simpl; intros items H;
    [done|].
  rewrite (H st) by left. destruct (g st) as [e| |]; simpl; try done.
  apply IH. intros st' Hin. apply H. by right.
Qed.

Lemma listItems_schema state states st :
  listItems state = Ok states → st ∈ states → schema st = schema state.
Proof.
  unfold listItems. destruct (IsNull (config state)).
  - intros [= <-] Hin. by apply elem_of_nil in Hin.
  - intros H Hin. inv_bind H. inversion H; subst states; clear H.
    apply list_elem_of_lookup in Hin as [i Hi].
    rewrite list_lookup_imap in Hi.
    destruct (a !! i); simpl in Hi; [|done]. by inversion Hi.
Qed.

(** The recursion on the schema is the source's [expandAttr]: the elements
    of a list of objects are expanded by [expandObj]. *)
Lemma expandAttr_list_of_objects state res :
  sType (schema state) = TypeList →
  Elem (schema state) = ElemResource res →
  hasValue state && negb (hasChange state) = false →
  expandAttr state =
    (states <~ listItems state ;;
     items <~ appendItems (λ st, mapR VMap (expandObj st)) states [] ;;
     if (MaxItems (schema state) =? 1)%Z then
       match items with
       | [item] => Ok item
       | [] => Ok VNil
       | _ => Ok (VList items)
       end
     else Ok (VList items)).
Proof.
  intros Hty He Hv. unfold expandAttr.
  destruct (schema state) as [ty fn mi e] eqn:Hs. simpl in Hty, He.
  subst ty e. unfold expandAttrOf; fold expandAttrOf; fold expandProps.
  rewrite Hv. destruct (listItems state) as [states| |] eqn:Hl; simpl;
    [|done|done].
  erewrite appendItems_ext; [reflexivity|].
  intros st Hin. simpl. unfold expandObj.
  rewrite (listItems_schema _ _ _ Hl Hin), Hs. simpl.
  by destruct (objectProperties st).
Qed.

(** An element that the configuration declares is never dropped from a
    list of objects: [expandObj] returns a map, which is not nil. *)
Lemma appendItems_objects (f : stateCompose → Res Obj) states items :
  appendItems (λ st, mapR VMap (f st)) states items
  = mapR (λ ms, (items ++ (VMap <$> ms))%list) (traverse f states).
Proof.
  revert items. induction states as [|st states IH]; simpl; intros items.
  - by rewrite app_nil_r.
  - destruct (f st) as [m| |]; simpl; try done. rewrite IH.
    destruct (traverse f states) as [ms| |]; simpl; try done.
    by rewrite <- app_assoc.
Qed.

(** C8.  A field whose schema is marked [ForceNew] has no key in the
    object that [expandObj] builds once the resource exists; while the
    resource is new the field is expanded like any other, and has a key
    exactly when it expands to a value. *)
Theorem forceNew_omitted_on_update state res k sub m :
  Elem (schema state) = ElemResource res → uniq res = true →
  field res k = Some sub → ForceNew sub = true →
  expandObj state = Ok m →
  (IsNewResource (resource state) = false → m !! k = None)
  ∧ (IsNewResource (resource state) = true →
     ∃ cfg v, attrOf state k = Ok cfg
              ∧ expandAttr (propOf state k sub cfg) = Ok v
              ∧ m !! k = match v with VNil => None | _ => Some v end).
Proof.
  intros He Hu Hf Hfn H.
  pose proof (expandObj_field _ _ _ _ _ He Hu Hf H) as Hk.
  rewrite Hfn in Hk. split; intros Hnew; rewrite Hnew in Hk; exact Hk.
Qed.

(** At whatever depth the object is built: a field that the raw
    configuration does not have (it is null there) and that has not
    changed since the prior apply has no key in the object that
    [expandObj] builds. *)
Lemma expandObj_absent state res k sub m :
  Elem (schema state) = ElemResource res → uniq res = true →
  field res k = Some sub →
  (∃ cfg, attrOf state k = Ok cfg ∧ IsNull cfg = true) →
  HasChange (resource state) (path state +:+ "." +:+ k) = false →
  expandObj state = Ok m →
  m !! k = None.
Proof.
  intros He Hu Hf (cfg & Hc & Hn) Hch H.
  pose proof (expandObj_field _ _ _ _ _ He Hu Hf H) as Hk.
  destruct (ForceNew sub && negb (IsNewResource (resource state))); [done|].
  destruct Hk as (cfg' & v & Hc' & Hv & Hm).
  rewrite Hc in Hc'. inversion Hc'; subst cfg'; clear Hc'.
  unfold expandAttr in Hv. rewrite expandAttrOf_null in Hv by done.
  inversion Hv; subst v. exact Hm.
Qed.

(** For a set field whose configuration is an explicit empty sequence, or
    is omitted: the object that [expandObj] builds has the key, with an
    empty array, when the field has changed since the prior apply, and has
    no key when it has not. *)
Lemma expandObj_empty_set state res k sub cfg l m :
  Elem (schema state) = ElemResource res → uniq res = true →
  field res k = Some sub → sType sub = TypeSet →
  ForceNew sub && negb (IsNewResource (resource state)) = false →
  attrOf state k = Ok cfg →
  IsNull cfg = true ∨ cfg = CList [] →
  Get (resource state) (path state +:+ "." +:+ k) = VSet l →
  expandObj state = Ok m →
  m !! k = if HasChange (resource state) (path state +:+ "." +:+ k)
           then Some (VList []) else None.
Proof.
  intros He Hu Hf Hty Hfn Hc Hcfg Hval H.
  pose proof (expandObj_field _ _ _ _ _ He Hu Hf H) as Hk.
  rewrite Hfn in Hk. destruct Hk as (cfg' & v & Hc' & Hv & Hm).
  rewrite Hc in Hc'. inversion Hc'; subst cfg'; clear Hc'.
  rewrite Hm. clear Hm H.
  unfold expandAttr in Hv. simpl in Hv.
  destruct sub as [ty fn mi e]. simpl in Hty. subst ty.
  unfold expandAttrOf in Hv; fold expandAttrOf in Hv.
  unfold hasValue, hasChange, setItems, value in Hv. simpl in Hv.
  rewrite Hval in Hv.
  destruct (HasChange (resource state) (path state +:+ "." +:+ k));
    destruct Hcfg as [Hn| ->]; simpl in Hv; rewrite ?Hn in Hv;
    simpl in Hv; inversion Hv; try done.
  f_equal. f_equal. clear. induction l as [|x l IH]; [done|].
  rewrite filter_cons. destruct (decide _) as [Hin|]; [|done].
  by apply elem_of_nil in Hin.
Qed.

End ExpandProperties.

(** ** Flattening an object *)

Section FlattenProperties.

Variable ParseFloat : string → option float64.

#[local] Abbreviation flattenAttr := (flattenAttr ParseFloat).
#[local] Abbreviation flattenFields := (flattenFields ParseFloat).
#[local] Abbreviation flattenObj := (flattenObj ParseFloat).
#[local] Abbreviation flattenList := (flattenList ParseFloat).

(** What [flattenAttr] returns is never the nil interface. *)
Lemma flattenAttr_not_nil s data : flattenAttr s data ≠ Ok VNil.
Proof.
  intros H. destruct s as [ty fn mi e].
  unfold flattenAttr in H; fold flattenAttr in H; fold flattenFields in H.
  unfold castType_string, castType_bool, bindR in H.
  repeat case_match; simplify_eq.
Qed.

(** One turn of the loop of [flattenObj]. *)
Lemma flattenFields_cons k sub rest dto tfo0 tfo :
  flattenFields (FCons k sub rest) dto tfo0 = Ok tfo →
  ∃ t1, flattenFields rest dto t1 = Ok tfo
        ∧ match dto !! k with
          | None | Some VNil => t1 = tfo0
          | Some vv => ∃ v, flattenAttr sub vv = Ok v
                            ∧ t1 = <[k := v]> tfo0
          end.
Proof.
  simpl. intros H. destruct (dto !! k) as [vv|]; [|by eauto].
  assert (vv = VNil ∨ vv ≠ VNil) as [->|Hvv] by (destruct vv; auto).
  { by eauto. }
  destruct (flattenAttr sub vv) as [v| |] eqn:Hv;
    [|by destruct vv|by destruct vv].
  assert (v ≠ VNil) by (intros ->; by eapply flattenAttr_not_nil).
  exists (<[k := v]> tfo0).
  destruct vv; try done; (split; [by destruct v|by eauto]).
Qed.

Lemma flattenFields_other fs dto tfo0 tfo k :
  flattenFields fs dto tfo0 = Ok tfo → k ∉ keys fs → tfo !! k = tfo0 !! k.
Proof.
  revert tfo0. induction fs as [|k' sub rest IH]; intros tfo0 H Hk.
  - by inversion H.
  - apply not_elem_of_cons in Hk as [Hne Hk].
    apply flattenFields_cons in H as (t1 & H & Ht1).
    rewrite (IH _ H Hk).
    destruct (dto !! k') as [vv|]; [|by subst].
    destruct vv; try (by subst);
      destruct Ht1 as (v & _ & ->); by rewrite lookup_insert_ne.
Qed.

Lemma flattenFields_field fs dto tfo0 tfo k sub :
  flattenFields fs dto tfo0 = Ok tfo → NoDup (keys fs) →
  field fs k = Some sub →
  match dto !! k with
  | None | Some VNil => tfo !! k = tfo0 !! k
  | Some vv => ∃ v, flattenAttr sub vv = Ok v ∧ tfo !! k = Some v
  end.
Proof.
  revert tfo0. induction fs as [|k' sub' rest IH];
    intros tfo0 H Hnd Hf; [done|].
  simpl in Hnd, Hf. apply NoDup_cons in Hnd as [Hk' Hnd].
  apply flattenFields_cons in H as (t1 & H & Ht1).
  destruct (decide (k' = k)) as [->|Hne].
  - inversion Hf; subst sub'; clear Hf.
    rewrite (flattenFields_other _ _ _ _ _ H Hk').
    destruct (dto !! k) as [vv|]; [|by subst].
    destruct vv; try (by subst);
      destruct Ht1 as (v & Hv & ->); exists v;
      by rewrite lookup_insert_eq.
  - specialize (IH _ H Hnd Hf).
    assert (t1 !! k = tfo0 !! k) as Heq.
    { destruct (dto !! k') as [vv'|]; [|by subst].
      destruct vv'; try (by subst);
        destruct Ht1 as (v & _ & ->); by rewrite lookup_insert_ne. }
    destruct (dto !! k) as [vv|]; [|congruence].
    destruct vv; try congruence; exact IH.
Qed.

(** A key of the flattened object is a key of the DTO. *)
Lemma flattenFields_from_dto fs dto tfo0 tfo k :
  flattenFields fs dto tfo0 = Ok tfo → is_Some (tfo !! k) →
  is_Some (tfo0 !! k) ∨ is_Some (dto !! k).
Proof.
  revert tfo0. induction fs as [|k' sub rest IH]; intros tfo0 H Hk.
  - inversion H; subst. by left.
  - apply flattenFields_cons in H as (t1 & H & Ht1).
    destruct (IH _ H Hk) as [Hs|Hs]; [|by right].
    destruct (dto !! k') as [vv'|] eqn:Hd; [|subst; by left].
    destruct (decide (k' = k)) as [->|Hne]; [right; by rewrite Hd|].
    left. destruct vv'; try (by subst);
      destruct Ht1 as (v & _ & ->); by rewrite lookup_insert_ne in Hs.
Qed.

(** The recursion on the schema is the source's [flattenAttr]: a single
    object or a list of objects goes through [flattenList]. *)
Lemma flattenAttr_objects s res data :
  match sType s with
  | TypeString | TypeBool | TypeInt | TypeFloat => False
  | _ => True
  end →
  Elem s = ElemResource res →
  flattenAttr s data =
    (lst <~ match data with
            | VMap o => Ok (if decide (size o = 0) then [] else [VMap o])
            | VList l => Ok l
            | _ => Panic
            end ;;
     mapR VList (flattenList res lst)).
Proof.
  intros Hty He. destruct s as [ty fn mi e]. simpl in Hty, He. subst e.
  unfold flattenAttr; fold flattenAttr; fold flattenFields.
  destruct ty; try done;
    (destruct data as [| | | | | |l|o|]; try done;
     [by destruct l|by destruct (decide (size o = 0))]).
Qed.

Lemma flattenObj_Some fs dto t :
  flattenObj fs dto = Ok (Some t) ↔ flattenFields fs dto ∅ = Ok t ∧ t ≠ ∅.
Proof.
  unfold flattenObj. split.
  - intros H. inv_bind H. destruct (decide (size a = 0)) as [|Hne]; [done|].
    inversion H; subst t. split; [done|]. intros ->.
    by rewrite map_size_empty in Hne.
  - intros [-> Hne]. simpl. destruct (decide (size t = 0)) as [Hz|]; [|done].
    by apply map_size_empty_inv in Hz.
Qed.

End FlattenProperties.

Lemma populated_mono (m1 m2 : Obj) ks :
  (∀ k, is_Some (m1 !! k) → is_Some (m2 !! k)) →
  (populated m1 ks ≤ populated m2 ks)%nat.
Proof.
  intros H. induction ks as [|k ks IH]; simpl; [done|].
  specialize (H k). destruct (m1 !! k) as [x|]; [|lia].
  destruct (H (mk_is_Some _ _ eq_refl)) as [y ->]. lia.
Qed.

Lemma storeKeys_other dto k0 ks new k :
  k ≠ k0 → storeKeys dto (k0 :: ks) new !! k = dto !! k.
Proof.
  intros Hne. unfold storeKeys. simpl.
  destruct (dto !! k0); [|done]. by rewrite lookup_insert_ne.
Qed.

Lemma aliasNamespaces_other kind d dto dto' k :
  aliasNamespaces kind d dto = Ok dto' → k ≠ "rules" → dto' !! k = dto !! k.
Proof.
  unfold aliasNamespaces. intros H Hne.
  destruct (drillKey dto "rules.0.mapping") as [[]|]; simplify_eq; [|done].
  by apply storeKeys_other.
Qed.

Lemma copyCreateOnly_other kind d dto k :
  k ∉ createOnlyFields → copyCreateOnly kind d dto !! k = dto !! k.
Proof.
  unfold copyCreateOnly, createOnlyFields. intros Hk.
  apply not_elem_of_cons in Hk as [H1 Hk].
  apply not_elem_of_cons in Hk as [H2 _]. simpl.
  destruct (GetOk d (prefixOf kind +:+ "admin_username")) as [v1 [|]];
    destruct (GetOk d (prefixOf kind +:+ "admin_password")) as [v2 [|]];
    by rewrite ?lookup_insert_ne.
Qed.

(** A create-only field that the state has takes the value of the state,
    whatever the DTO has. *)
Lemma copyCreateOnly_set kind d dto k v :
  k ∈ createOnlyFields → GetOk d (prefixOf kind +:+ k) = (v, true) →
  copyCreateOnly kind d dto !! k = Some v.
Proof.
  unfold copyCreateOnly, createOnlyFields. intros Hk Hv.
  apply elem_of_cons in Hk as [->|Hk]; [|apply list_elem_of_singleton in Hk as ->];
    simpl; rewrite Hv.
  - destruct (GetOk d (prefixOf kind +:+ "admin_password")) as [v2 [|]];
      [rewrite lookup_insert_ne by done|]; by rewrite lookup_insert_eq.
  - destruct (GetOk d (prefixOf kind +:+ "admin_username")) as [v1 [|]];
      by rewrite lookup_insert_eq.
Qed.

Lemma copyCreateOnly_unset kind d dto k :
  (GetOk d (prefixOf kind +:+ k)).2 = false →
  copyCreateOnly kind d dto !! k = dto !! k.
Proof.
  unfold copyCreateOnly, createOnlyFields. intros Hv. simpl.
  destruct (GetOk d (prefixOf kind +:+ "admin_username")) as [v1 b1] eqn:H1;
    destruct (GetOk d (prefixOf kind +:+ "admin_password")) as [v2 b2] eqn:H2.
  destruct b1, b2; try done;
    repeat (rewrite lookup_insert_ne;
            [|intros <-; rewrite ?H1, ?H2 in Hv; by simpl in Hv]); done.
Qed.

(** [assignAlias] on a DTO whose array holds objects, when the state has no
    [_string] field: the array moves to the [_object] key. *)
Lemma assignAlias_objects d path dto sortBy o rest :
  dto !! "ip_filter" = Some (VList (VMap o :: rest)) →
  (GetOk d (path +:+ "_string")).2 = false →
  assignAlias d path dto "ip_filter" sortBy
  = delete "ip_filter"
      (<["ip_filter_object" :=
           reordered d path sortBy (VList (VMap o :: rest))]>
         (if (GetOk d (path +:+ "_object")).2
          then <["ip_filter" :=
                   sortByKey sortBy (GetOk d (path +:+ "_object")).1
                     (VList (VMap o :: rest))]> dto
          else dto)).
Proof.
  intros Hd Hs. unfold assignAlias, reordered, index. rewrite Hd, Hs.
  destruct (GetOk d (path +:+ "_object")) as [st [|]]; simpl.
  - by rewrite lookup_insert_eq.
  - by rewrite Hd.
Qed.

Lemma assignAlias_exclusive d path dto sortBy :
  dto !! "ip_filter_string" = None → dto !! "ip_filter_object" = None →
  (populated (assignAlias d path dto "ip_filter" sortBy) ipFilterKeys ≤ 1)%nat.
Proof.
  intros Hs Ho. unfold assignAlias, index.
  assert (populated dto ipFilterKeys ≤ 1)%nat as Hdto.
  { simpl. rewrite Hs, Ho. destruct (dto !! "ip_filter"); simpl; lia. }
  destruct (dto !! "ip_filter") as [[| | | | | |values| |]|] eqn:Hd; try done.
  destruct values as [|first rest]; [done|].
  destruct (GetOk d (path +:+ "_string")) as [vs [|]];
    destruct (GetOk d (path +:+ "_object")) as [vo [|]];
    destruct first; simpl; try done;
    rewrite ?lookup_delete_eq, ?lookup_delete_ne, ?lookup_insert_eq,
      ?lookup_insert_ne, ?Hs, ?Ho by done; simpl; lia.
Qed.

Lemma aliasIpFilter_exclusive kind d dto :
  dto !! "ip_filter_string" = None → dto !! "ip_filter_object" = None →
  (populated (aliasIpFilter kind d dto) ipFilterKeys ≤ 1)%nat.
Proof.
  intros Hs Ho. unfold aliasIpFilter.
  destruct (decide _); [by apply assignAlias_exclusive|].
  simpl. rewrite Hs, Ho. destruct (dto !! "ip_filter"); simpl; lia.
Qed.

Lemma append_assoc (s1 s2 s3 : string) :
  (s1 +:+ s2) +:+ s3 = s1 +:+ s2 +:+ s3.
Proof.
  induction s1 as [|c s1 IH]; [done|].
  change (String c ((s1 +:+ s2) +:+ s3) = String c (s1 +:+ s2 +:+ s3)).
  by f_equal.
Qed.

Lemma reordered_is_list d path sortBy vs :
  ∃ l, reordered d path sortBy (VList vs) = VList l.
Proof.
  unfold reordered, sortByKey.
  destruct (GetOk d (path +:+ "_object")) as [st [|]]; simpl; [|by eauto].
  destruct st; by eauto.
Qed.

Lemma lookup_Some_size (t : Obj) k v : t !! k = Some v → size t ≠ 0.
Proof.
  intros H Hz. apply map_size_empty_inv in Hz. subst t.
  by rewrite lookup_empty in H.
Qed.

(** ** [Flatten] *)

Section FlattenClaims.

Variable ParseFloat : string → option float64.

#[local] Abbreviation flattenAttr := (flattenAttr ParseFloat).
#[local] Abbreviation flattenFields := (flattenFields ParseFloat).
#[local] Abbreviation flattenObj := (flattenObj ParseFloat).
#[local] Abbreviation Flatten := (Flatten ParseFloat).

Lemma Flatten_steps kind s d dto :
  Flatten kind s d dto =
    (dto' <~ aliasNamespaces kind d (aliasIpFilter kind d dto) ;;
     match Elem s with
     | ElemResource r =>
         tfo <~ flattenObj r (copyCreateOnly kind d dto') ;;
         Ok (match tfo with Some t => [t] | None => [] end)
     | _ => Panic
     end).
Proof. reflexivity. Qed.

(** What [Flatten] returns under the key of a field, and which keys it
    can return. *)
Lemma Flatten_field kind s d dto tree r :
  Elem s = ElemResource r → uniq r = true →
  Flatten kind s d dto = Ok tree →
  ∃ dto' t,
    aliasNamespaces kind d (aliasIpFilter kind d dto) = Ok dto'
    ∧ tree = (if decide (size t = 0) then [] else [t])
    ∧ (∀ k, is_Some (t !! k) →
            is_Some (copyCreateOnly kind d dto' !! k))
    ∧ (∀ k sub, field r k = Some sub →
         match copyCreateOnly kind d dto' !! k with
         | None | Some VNil => t !! k = None
         | Some vv => ∃ v, flattenAttr sub vv = Ok v ∧ t !! k = Some v
         end).
Proof.
  intros He Hu H. apply uniq_NoDup in Hu.
  rewrite Flatten_steps, He in H. inv_bind H. rename a into dto'.
  inv_bind H. unfold flattenObj in Ha0. inv_bind Ha0. rename a0 into t.
  exists dto', t. split; [done|]. split; [|split].
  - inversion H; subst tree. inversion Ha0; subst a.
    by destruct (decide (size t = 0)).
  - intros k Hk.
    destruct (flattenFields_from_dto _ _ _ _ _ _ Ha1 Hk) as [Hs|Hs];
      [|done].
    rewrite lookup_empty in Hs. by destruct Hs.
  - intros k sub Hf.
    pose proof (flattenFields_field _ _ _ _ _ _ _ Ha1 Hu Hf) as Hk.
    by rewrite lookup_empty in Hk.
Qed.

(** The value that the state has for a create-only field is the value that
    [Flatten] returns for it. *)
Lemma Flatten_createOnly kind s d dto tree r k sub v :
  Elem s = ElemResource r → uniq r = true →
  field r k = Some sub → sType sub = TypeString →
  k ∈ createOnlyFields →
  GetOk d (prefixOf kind +:+ k) = (VString v, true) →
  Flatten kind s d dto = Ok tree →
  ∃ tfo, tree = [tfo] ∧ tfo !! k = Some (VString v).
Proof.
  intros He Hu Hf Hty Hk Hv H.
  destruct (Flatten_field _ _ _ _ _ _ He Hu H) as (dto' & t & _ & -> & _ & Hr).
  specialize (Hr k sub Hf).
  rewrite (copyCreateOnly_set _ _ _ _ _ Hk Hv) in Hr.
  destruct Hr as (v' & Hv' & Ht).
  destruct sub as [ty fn mi e]. simpl in Hty. subst ty.
  simpl in Hv'. inversion Hv'; subst v'.
  exists t. split; [|done].
  destruct (decide (size t = 0)) as [Hz|]; [|done].
  by apply lookup_Some_size in Ht.
Qed.

(** C6.  When the DTO has no key for a create-only field
    ([admin_username], [admin_password]) and the state has a value for
    it, the object that [Flatten] returns has the field with the value of
    the state. *)
Theorem createOnly_carried_over kind s d dto tree r k sub v :
  Elem s = ElemResource r → uniq r = true →
  field r k = Some sub → sType sub = TypeString →
  k ∈ createOnlyFields →
  dto !! k = None →
  GetOk d (prefixOf kind +:+ k) = (VString v, true) →
  Flatten kind s d dto = Ok tree →
  ∃ tfo, tree = [tfo] ∧ tfo !! k = Some (VString v).
Proof.
  intros He Hu Hf Hty Hk _ Hv H. by eapply Flatten_createOnly.
Qed.

(** C10.  When the state has a value for a create-only field, the object
    that [Flatten] returns has the field with the value of the state, also
    when the DTO has another value under that key. *)
Theorem createOnly_never_overwritten kind s d dto tree r k sub v x :
  Elem s = ElemResource r → uniq r = true →
  field r k = Some sub → sType sub = TypeString →
  k ∈ createOnlyFields →
  dto !! k = Some x →
  GetOk d (prefixOf kind +:+ k) = (VString v, true) →
  Flatten kind s d dto = Ok tree →
  ∃ tfo, tree = [tfo] ∧ tfo !! k = Some (VString v).
Proof.
  intros He Hu Hf Hty Hk _ Hv H. by eapply Flatten_createOnly.
Qed.

Ltac not_createOnly :=
  unfold createOnlyFields;
  repeat (apply not_elem_of_cons; split; [done|]);
  apply not_elem_of_nil.

Lemma prepared_lookup kind d dto1 dto' k :
  aliasNamespaces kind d dto1 = Ok dto' →
  k ≠ "rules" → k ∉ createOnlyFields →
  copyCreateOnly kind d dto' !! k = dto1 !! k.
Proof.
  intros H Hr Hc. rewrite copyCreateOnly_other by done.
  by eapply aliasNamespaces_other.
Qed.

Lemma Flatten_ip_objects kind s d dto tree r sub o rest :
  Elem s = ElemResource r → uniq r = true →
  field r "ip_filter_object" = Some sub →
  dto !! "ip_filter" = Some (VList (VMap o :: rest)) →
  (GetOk d (prefixOf kind +:+ "ip_filter_string")).2 = false →
  Flatten kind s d dto = Ok tree →
  ∃ tfo v,
    tree = [tfo]
    ∧ flattenAttr sub
        (reordered d (prefixOf kind +:+ "ip_filter") "network"
           (VList (VMap o :: rest))) = Ok v
    ∧ tfo !! "ip_filter_object" = Some v
    ∧ tfo !! "ip_filter" = None
    ∧ (dto !! "ip_filter_string" = None → tfo !! "ip_filter_string" = None).
Proof.
  intros He Hu Hf Hd Hs H.
  destruct (Flatten_field _ _ _ _ _ _ He Hu H)
    as (dto' & t & Hns & -> & Hdom & Hr).
  assert (aliasIpFilter kind d dto
          = assignAlias d (prefixOf kind +:+ "ip_filter") dto
              "ip_filter" "network") as Hip.
  { unfold aliasIpFilter. rewrite Hd.
    destruct (decide (is_Some _)) as [|Hn]; [done|].
    destruct Hn. by eexists. }
  rewrite Hip in Hns. clear Hip.
  rewrite (assignAlias_objects _ _ _ _ _ _ Hd) in Hns
    by (by rewrite append_assoc).
  pose proof (λ k, prepared_lookup _ _ _ _ k Hns) as Hl.
  specialize (Hr _ _ Hf).
  rewrite Hl in Hr;
    [|done|not_createOnly].
  rewrite lookup_delete_ne, lookup_insert_eq in Hr by done.
  destruct (reordered_is_list d (prefixOf kind +:+ "ip_filter") "network"
              (VMap o :: rest)) as [l Hl'].
  rewrite Hl' in Hr. destruct Hr as (v & Hv & Ht).
  exists t, v. rewrite Hl'.
  assert (∀ k, copyCreateOnly kind d dto' !! k = None → t !! k = None)
    as Hnone.
  { intros k Hk. destruct (t !! k) eqn:Htk; [|done].
    destruct (Hdom k) as [y Hy]; [by eexists|]. congruence. }
  repeat split; try done.
  - destruct (decide (size t = 0)) as [Hz|]; [|done].
    by apply lookup_Some_size in Ht.
  - apply Hnone. rewrite Hl;
      [|done|not_createOnly].
    by rewrite lookup_delete_eq.
  - intros Hstr. apply Hnone. rewrite Hl;
      [|done|not_createOnly].
    rewrite lookup_delete_ne, lookup_insert_ne by done.
    destruct (GetOk d ((prefixOf kind +:+ "ip_filter") +:+ "_object"))
      as [st [|]]; simpl; by rewrite ?lookup_insert_ne by done.
Qed.

(** C5, as the code has it.  For a DTO that has neither [ip_filter_string]
    nor [ip_filter_object]: when [ip_filter] holds a non-empty array whose
    first element is an object and the state has no [ip_filter_string],
    [Flatten] returns the array under [ip_filter_object] (in the order of
    the state when the state has [ip_filter_object]) and returns neither
    [ip_filter] nor [ip_filter_string]; and in every case at most one of
    the three fields has a value in what [Flatten] returns.  The alias
    follows the shape of the DTO elements and the presence of
    [ip_filter_string] in the state. *)
Theorem alias_follows_dto_shape kind s d dto tree r :
  Elem s = ElemResource r → uniq r = true →
  dto !! "ip_filter_string" = None → dto !! "ip_filter_object" = None →
  Flatten kind s d dto = Ok tree →
  (∀ o rest sub,
     dto !! "ip_filter" = Some (VList (VMap o :: rest)) →
     (GetOk d (prefixOf kind +:+ "ip_filter_string")).2 = false →
     field r "ip_filter_object" = Some sub →
     ∃ tfo v,
       tree = [tfo]
       ∧ flattenAttr sub
           (reordered d (prefixOf kind +:+ "ip_filter") "network"
              (VList (VMap o :: rest))) = Ok v
       ∧ tfo !! "ip_filter_object" = Some v
       ∧ tfo !! "ip_filter" = None
       ∧ tfo !! "ip_filter_string" = None)
  ∧ (∀ tfo, tfo ∈ tree → (populated tfo ipFilterKeys ≤ 1)%nat).
Proof.
  intros He Hu Hs Ho H. split.
  - intros o rest sub Hd Hst Hf.
    destruct (Flatten_ip_objects _ _ _ _ _ _ _ _ _ He Hu Hf Hd Hst H)
      as (tfo & v & -> & Hv & H1 & H2 & H3).
    exists tfo, v. repeat split; auto.
  - intros tfo Hin.
    destruct (Flatten_field _ _ _ _ _ _ He Hu H)
      as (dto' & t & Hns & -> & Hdom & _).
    destruct (decide (size t = 0)); [by apply elem_of_nil in Hin|].
    apply list_elem_of_singleton in Hin as ->.
    etrans; [by apply populated_mono|].
    pose proof (aliasIpFilter_exclusive kind d dto Hs Ho) as Hx.
    unfold ipFilterKeys, populated in *.
    by rewrite !(prepared_lookup _ _ _ _ _ Hns) by (done || not_createOnly).
Qed.

End FlattenClaims.

(** ** Singleton objects and the round trip *)

Lemma path_of_field kind k :
  ((kind +:+ userConfigSuffix) +:+ ".0") +:+ "." +:+ k = prefixOf kind +:+ k.
Proof. unfold prefixOf, userConfigSuffix. by rewrite !append_assoc. Qed.

Lemma renameAliases_flat (dto : Obj) :
  dto !! "ip_filter_string" = None → dto !! "ip_filter_object" = None →
  (∀ v, dto !! "rules" = Some v → isLeaf v = true) →
  renameAliases dto = dto.
Proof.
  intros H1 H2 Hr. unfold renameAliases, aliasFieldsMap. cbn [foldl].
  assert (∀ a, renameAlias dto "ip_filter_string" a = dto) as ->.
  { intros a. unfold renameAlias.
    change (splitPath "ip_filter_string" "") with ["ip_filter_string"].
    cbn [removelast last drill]. by rewrite H1. }
  assert (∀ a, renameAlias dto "ip_filter_object" a = dto) as ->.
  { intros a. unfold renameAlias.
    change (splitPath "ip_filter_object" "") with ["ip_filter_object"].
    cbn [removelast last drill]. by rewrite H2. }
  assert (∀ ks, drill ("rules" :: "0" :: ks) (VMap dto) = None) as Hd.
  { intros ks. cbn [drill]. destruct (dto !! "rules") as [v|] eqn:Hv; [|done].
    specialize (Hr v eq_refl). by destruct v. }
  assert (∀ p a, (∃ ks, removelast (splitPath p "") = "rules" :: "0" :: ks) →
                 renameAlias dto p a = dto) as Hn.
  { intros p a [ks Hp]. unfold renameAlias. by rewrite Hp, Hd. }
  rewrite Hn by (eexists; vm_compute; reflexivity).
  rewrite Hn by (eexists; vm_compute; reflexivity). done.
Qed.

Lemma aliasIpFilter_leaf kind d (dto : Obj) :
  (∀ v, dto !! "ip_filter" = Some v → isLeaf v = true) →
  aliasIpFilter kind d dto = dto.
Proof.
  intros Hl. unfold aliasIpFilter, assignAlias.
  destruct (decide (is_Some _)) as [Hs|]; [|done].
  destruct (dto !! "ip_filter") as [v|] eqn:Hv; [|done].
  specialize (Hl v eq_refl). by destruct v.
Qed.

Lemma aliasNamespaces_leaf kind d (dto : Obj) :
  (∀ v, dto !! "rules" = Some v → isLeaf v = true) →
  aliasNamespaces kind d dto = Ok dto.
Proof.
  intros Hl. unfold aliasNamespaces, drillKey.
  change (splitPath "rules.0.mapping" "") with ["rules"; "0"; "mapping"].
  cbn [drill]. destruct (dto !! "rules") as [v|] eqn:Hv; [|done].
  specialize (Hl v eq_refl). by destruct v.
Qed.

(** ** Fields *)

Lemma field_of_key fs k : k ∈ keys fs → is_Some (field fs k).
Proof.
  induction fs as [|k' s rest IH]; simpl; intros Hin.
  - by apply elem_of_nil in Hin.
  - destruct (decide (k' = k)); [by eexists|].
    apply elem_of_cons in Hin as [->|Hin]; [done|auto].
Qed.

Lemma key_of_field fs k sub : field fs k = Some sub → k ∈ keys fs.
Proof.
  induction fs as [|k' s rest IH]; simpl; intros Hf; [done|].
  destruct (decide (k' = k)) as [->|]; [by left|right; auto].
Qed.

Lemma eachField_intro (P : string → Schema → Prop) fs :
  NoDup (keys fs) → (∀ k sub, field fs k = Some sub → P k sub) →
  eachField P fs.
Proof.
  induction fs as [|k s rest IH]; simpl; intros Hnd H; [done|].
  apply NoDup_cons in Hnd as [Hk Hnd]. split.
  - apply H. by rewrite decide_True.
  - apply IH; [done|]. intros k' sub Hf. apply H.
    rewrite decide_False; [done|]. intros ->.
    by apply key_of_field in Hf.
Qed.

Lemma leafOf_isLeaf sub v : leafOf sub v = true → isLeaf v = true.
Proof. unfold leafOf. by destruct (sType sub), v. Qed.

Section RoundTrip.

Variable Sprintf_v : GoVal → string.
Variable BigFloat_String : QArith_base.Q → string.
Variable ParseFloat : string → option float64.

#[local] Abbreviation expandAttrOf := (expandAttrOf Sprintf_v BigFloat_String).
#[local] Abbreviation expandProps := (expandProps Sprintf_v BigFloat_String).
#[local] Abbreviation expandAttr := (expandAttr Sprintf_v BigFloat_String).
#[local] Abbreviation expandObj := (expandObj Sprintf_v BigFloat_String).
#[local] Abbreviation Expand := (Expand Sprintf_v BigFloat_String).
#[local] Abbreviation flattenAttr := (flattenAttr ParseFloat).
#[local] Abbreviation flattenFields := (flattenFields ParseFloat).
#[local] Abbreviation flattenObj := (flattenObj ParseFloat).
#[local] Abbreviation Flatten := (Flatten ParseFloat).

Lemma listItems_single state c :
  config state = CList [c] → listItems state = Ok [itemOf state 0 c].
Proof. intros Hc. unfold listItems. by rewrite Hc. Qed.

(** A singleton object with one declared element is sent as that
    element's object, whatever the object holds. *)
Lemma expandAttr_single state res c m :
  sType (schema state) = TypeList →
  Elem (schema state) = ElemResource res →
  MaxItems (schema state) = 1%Z →
  config state = CList [c] →
  expandObj (itemOf state 0 c) = Ok m →
  expandAttr state = Ok (VMap m).
Proof.
  intros Hty He Hmax Hc Hm.
  rewrite (expandAttr_list_of_objects _ _ _ _ Hty He)
    by (unfold hasValue; by rewrite Hc).
  rewrite (listItems_single _ _ Hc).
  cbn [bindR appendItems]. rewrite Hm.
  cbn [bindR mapR app]. by rewrite Hmax.
Qed.

Lemma expandAttr_none state res :
  sType (schema state) = TypeList →
  Elem (schema state) = ElemResource res →
  MaxItems (schema state) = 1%Z →
  IsNull (config state) = true ∨ config state = CList [] →
  expandAttr state = Ok VNil.
Proof.
  intros Hty He Hmax Hc. unfold expandAttr.
  destruct (schema state) as [ty fn mi e]. simpl in Hty, He, Hmax.
  subst ty e mi. unfold expandAttrOf; fold expandAttrOf; fold expandProps.
  unfold hasValue, listItems.
  destruct (hasChange state), Hc as [Hn|Hn]; rewrite Hn; by simpl.
Qed.

Lemma flattenFields_empty_dto fs t : flattenFields fs ∅ ∅ = Ok t → t = ∅.
Proof.
  intros H. apply map_eq. intros k. rewrite lookup_empty.
  destruct (t !! k) eqn:Hk; [|done].
  destruct (flattenFields_from_dto _ _ _ _ _ k H) as [Hs|Hs];
    [by eexists|..]; rewrite lookup_empty in Hs; by destruct Hs.
Qed.

Lemma flattenAttr_object s res o t :
  sType s = TypeList → Elem s = ElemResource res →
  flattenObj res o = Ok (Some t) →
  flattenAttr s (VMap o) = Ok (VList [VMap t]).
Proof.
  intros Hty He Ht. destruct s as [ty fn mi e]. simpl in Hty, He.
  subst ty e. unfold flattenAttr; fold flattenAttr; fold flattenFields.
  pose proof Ht as Ht'. apply flattenObj_Some in Ht' as [Hf Hne].
  destruct (decide (size o = 0)) as [Hz|_].
  { apply map_size_empty_inv in Hz. subst o.
    by apply flattenFields_empty_dto in Hf. }
  simpl. unfold flattenObj in Ht. by rewrite Ht.
Qed.

(** C1, as the code has it.  For a list-of-objects field with
    [MaxItems = 1]: when exactly one element is declared and its expansion
    is not empty, [expandAttr] returns that element's object itself, not
    an array; when no element is declared, it returns nil, so that the
    field has no key; and [flattenAttr], given a plain object whose own
    flattening is not empty, returns a list with exactly that one
    element. *)
Theorem singleton_collapse :
  (∀ state res c m,
     sType (schema state) = TypeList →
     Elem (schema state) = ElemResource res →
     MaxItems (schema state) = 1%Z →
     config state = CList [c] →
     expandObj (itemOf state 0 c) = Ok m → m ≠ ∅ →
     expandAttr state = Ok (VMap m))
  ∧ (∀ state res,
       sType (schema state) = TypeList →
       Elem (schema state) = ElemResource res →
       MaxItems (schema state) = 1%Z →
       IsNull (config state) = true ∨ config state = CList [] →
       expandAttr state = Ok VNil)
  ∧ (∀ s res o t,
       sType s = TypeList → Elem s = ElemResource res →
       MaxItems s = 1%Z →
       flattenObj res o = Ok (Some t) →
       flattenAttr s (VMap o) = Ok (VList [VMap t])).
Proof.
  split; [|split].
  - intros state res c m Hty He Hmax Hc Hm _. by eapply expandAttr_single.
  - intros state res. by apply expandAttr_none.
  - intros s res o t Hty He _. by apply flattenAttr_object.
Qed.

Lemma expandAttrOf_leaf sub p :
  declared (config p) = true → leafOf sub (value p) = true →
  expandAttrOf sub p = Ok (value p).
Proof.
  unfold declared, leafOf. intros [Hn Hi]%andb_true_iff Hl.
  apply negb_true_iff in Hn, Hi. destruct sub as [ty fn mi e].
  unfold expandAttrOf; fold expandAttrOf. unfold expandScalar, hasValue.
  rewrite Hn, Hi. simpl in Hl |- *. by destruct ty.
Qed.

Lemma flattenAttr_leaf sub v : leafOf sub v = true → flattenAttr sub v = Ok v.
Proof.
  unfold leafOf. destruct sub as [ty fn mi e]. simpl.
  by destruct ty, v.
Qed.

(** The outcome of a mismatch, by declared type: anything but a string
    where a string is declared, or but a bool where a bool is declared, is
    an error that names the field; a value that is not a number where an
    int or a float is declared, and a value that is not an array where a
    list or a set of scalars is declared, make [flattenObj] panic. *)
Theorem mismatch_outcomes k sub data :
  data ≠ VNil →
  (sType sub = TypeString → (∀ x, data ≠ VString x) →
   flattenObj (FCons k sub FNil) {[k := data]}
   = Err (ErrField k (ErrInvalidType "string" data)))
  ∧ (sType sub = TypeBool → (∀ x, data ≠ VBool x) →
     flattenObj (FCons k sub FNil) {[k := data]}
     = Err (ErrField k (ErrInvalidType "bool" data)))
  ∧ (sType sub = TypeInt ∨ sType sub = TypeFloat →
     (∀ n, data ≠ VNumber n) →
     flattenObj (FCons k sub FNil) {[k := data]} = Panic)
  ∧ (sType sub = TypeList ∨ sType sub = TypeSet →
     (∃ scalar, Elem sub = ElemSchema scalar) →
     (∀ l, data ≠ VList l) →
     flattenObj (FCons k sub FNil) {[k := data]} = Panic).
Proof.
  intros Hnil. destruct sub as [ty fn mi e]. simpl.
  unfold flattenObj. simpl. rewrite lookup_singleton_eq.
  repeat split.
  - intros -> Hd. destruct data; try done. by destruct (Hd s).
  - intros -> Hd. destruct data; try done. by destruct (Hd b).
  - intros [-> | ->] Hd; destruct data; try done; by destruct (Hd n).
  - intros [-> | ->] [scalar ->] Hd; destruct data; try done;
      by destruct (Hd l).
Qed.

End RoundTrip.

(** ** The aliases in [Expand] *)

(** [renameAlias] on a key of the DTO itself. *)
Lemma renameAlias_top (m : Obj) k0 to :
  splitPath k0 "" = [k0] →
  renameAlias m k0 to
  = match m !! k0 with
    | Some v => <[to := v]> (delete k0 m)
    | None => m
    end.
Proof.
  intros Hk. unfold renameAlias. rewrite Hk. cbn [removelast last drill].
  destruct (m !! k0); reflexivity.
Qed.

Lemma renameAlias_under (m : Obj) p to k0 k1 ks :
  splitPath p "" = k0 :: k1 :: ks →
  (∀ k, k ≠ k0 → renameAlias m p to !! k = m !! k)
  ∧ ((∀ v, m !! k0 = Some v → drill (removelast (k1 :: ks)) v = None) →
     renameAlias m p to = m).
Proof.
  intros Hp. unfold renameAlias. rewrite Hp.
  change (removelast (k0 :: k1 :: ks)) with (k0 :: removelast (k1 :: ks)).
  split.
  - intros k Hk.
    destruct (drill _ (VMap m)) as [[| | | | | | |o|]|]; try done.
    destruct (last _); [|done]. destruct (o !! _); [|done].
    by apply storeKeys_other.
  - intros Hd. cbn [drill]. destruct (m !! k0) as [v|]; [|done].
    by rewrite (Hd v eq_refl).
Qed.

Lemma renameAliases_lookup (m : Obj) k :
  (k = "rules" →
   ∀ v ks, m !! "rules" = Some v → drill ("0" :: ks) v = None) →
  renameAliases m !! k = renamed m k.
Proof.
  intros Hr. unfold renameAliases, aliasFieldsMap. cbn [foldl].
  rewrite (renameAlias_top m "ip_filter_string") by (vm_compute; reflexivity).
  rewrite (renameAlias_top _ "ip_filter_object") by (vm_compute; reflexivity).
  set (m1 := match m !! "ip_filter_string" with
             | Some v => <["ip_filter" := v]> (delete "ip_filter_string" m)
             | None => m
             end).
  set (m2 := match m1 !! "ip_filter_object" with
             | Some v => <["ip_filter" := v]> (delete "ip_filter_object" m1)
             | None => m1
             end).
  assert (m2 !! k = renamed m k) as H2.
  { unfold renamed, m2, m1.
    destruct (m !! "ip_filter_string") as [vs|] eqn:Hs;
      destruct (m !! "ip_filter_object") as [vo|] eqn:Ho;
      rewrite ?lookup_insert_ne, ?lookup_delete_ne, ?Ho by done;
      destruct (decide (k = "ip_filter")) as [->|H1]; simpl;
      rewrite ?lookup_insert_eq, ?lookup_insert_ne by done; try done;
      try (by destruct (m !! "ip_filter"));
      destruct (decide (k = "ip_filter_string" ∨ k = "ip_filter_object"))
        as [[-> | ->]|H2];
      rewrite ?lookup_delete_eq, ?lookup_delete_ne, ?lookup_insert_ne,
        ?lookup_delete_eq by done; try done;
      rewrite ?lookup_delete_ne, ?lookup_insert_ne, ?lookup_delete_ne
        by (intros <-; first [by apply H1|apply H2; auto]); done. }
  assert (m2 !! "rules" = m !! "rules") as Hrules.
  { unfold m2, m1.
    destruct (m !! "ip_filter_string") as [vs|] eqn:Hs;
      destruct (m !! "ip_filter_object") as [vo|] eqn:Ho;
      rewrite ?lookup_insert_ne, ?lookup_delete_ne, ?Ho by done; simpl;
      by rewrite ?lookup_insert_ne, ?lookup_delete_ne, ?lookup_insert_ne,
           ?lookup_delete_ne by done. }
  clearbody m2. clear m1.
  destruct (renameAlias_under m2 "rules.0.mapping.0.namespaces_string"
              "namespaces" "rules" "0" ["mapping"; "0"; "namespaces_string"])
    as [Ho3 Hs3]; [vm_compute; reflexivity|].
  set (m3 := renameAlias m2 "rules.0.mapping.0.namespaces_string"
               "namespaces") in *.
  destruct (renameAlias_under m3 "rules.0.mapping.0.namespaces_object"
              "namespaces" "rules" "0" ["mapping"; "0"; "namespaces_object"])
    as [Ho4 Hs4]; [vm_compute; reflexivity|].
  destruct (decide (k = "rules")) as [->|Hk].
  - assert (m3 = m2) as H3.
    { apply Hs3. intros v Hv. rewrite Hrules in Hv.
      by apply Hr. }
    rewrite Hs4; [by rewrite H3|].
    intros v Hv. rewrite H3, Hrules in Hv. by apply Hr.
  - by rewrite Ho4, Ho3.
Qed.

Section ExpandClaims.

Variable Sprintf_v : GoVal → string.
Variable BigFloat_String : QArith_base.Q → string.

#[local] Abbreviation expandAttr := (expandAttr Sprintf_v BigFloat_String).
#[local] Abbreviation expandObj := (expandObj Sprintf_v BigFloat_String).
#[local] Abbreviation Expand := (Expand Sprintf_v BigFloat_String).

Lemma Expand_steps kind s d :
  Expand kind s d =
    (cfg <~ rootConfig kind d ;;
     dto <~ expandObj (rootState kind s d cfg) ;;
     Ok (renameAliases dto)).
Proof.
  unfold Expand, rootConfig.
  destruct (GetAttr (GetRawConfig d) (kind +:+ userConfigSuffix))
    as [attr| |]; simpl; [|done|done].
  by destruct (AsValueSlice attr).
Qed.

Lemma Expand_Ok kind s d dto :
  Expand kind s d = Ok dto →
  ∃ cfg m, rootConfig kind d = Ok cfg
           ∧ expandObj (rootState kind s d cfg) = Ok m
           ∧ dto = renameAliases m.
Proof.
  rewrite Expand_steps. intros H. inv_bind H. inv_bind H.
  inversion H. by eauto.
Qed.

Lemma expandObj_not_field state res m k :
  Elem (schema state) = ElemResource res →
  expandObj state = Ok m → field res k = None → m !! k = None.
Proof.
  intros He H Hf. unfold expandObj in H. rewrite He in H. inv_bind H.
  rewrite (expandProps_other _ _ _ _ _ _ _ H); [apply lookup_empty|].
  intros Hin. apply field_of_key in Hin as [sub Hs]. congruence.
Qed.


(** C3, as the code has it.  For a set field that is not skipped as
    [ForceNew] and whose configuration is an explicit empty sequence, or is
    omitted: the object that [expandObj] builds, at whatever depth, has the
    key, with an empty array, when the field has changed since the prior
    apply, and has no key when it has not.  For such a field of the user
    config block, when the other fields that share its name in the DTO are
    omitted and unchanged, the DTO that [Expand] returns has the same under
    the name that the field has in the DTO.  The two configurations give
    the same DTO. *)
Theorem empty_set_sent_when_changed :
  (∀ state res k sub cfg l m,
     Elem (schema state) = ElemResource res → uniq res = true →
     field res k = Some sub → sType sub = TypeSet →
     ForceNew sub && negb (IsNewResource (resource state)) = false →
     attrOf state k = Ok cfg →
     IsNull cfg = true ∨ cfg = CList [] →
     Get (resource state) (path state +:+ "." +:+ k) = VSet l →
     expandObj state = Ok m →
     m !! k = if HasChange (resource state) (path state +:+ "." +:+ k)
              then Some (VList []) else None)
  ∧ (∀ kind s d res cfg0 k sub cfg l dto,
       Elem s = ElemResource res → uniq res = true →
       field res k = Some sub → sType sub = TypeSet →
       ForceNew sub && negb (IsNewResource d) = false →
       rootConfig kind d = Ok cfg0 →
       attrOf (rootState kind s d cfg0) k = Ok cfg →
       IsNull cfg = true ∨ cfg = CList [] →
       Get d (prefixOf kind +:+ k) = VSet l →
       (∀ k' sub', k' ≠ k → dtoName k' = dtoName k →
          field res k' = Some sub' →
          (∃ c, attrOf (rootState kind s d cfg0) k' = Ok c
                ∧ IsNull c = true)
          ∧ HasChange d (prefixOf kind +:+ k') = false) →
       Expand kind s d = Ok dto →
       dto !! dtoName k = if HasChange d (prefixOf kind +:+ k)
                          then Some (VList []) else None).
Proof.
  split; [exact (expandObj_empty_set Sprintf_v BigFloat_String)|].
  intros kind s d res cfg0 k sub cfg l dto.
  intros He Hu Hf Hty Hfn Hc0 Hc Hcfg Hval Hothers H.
  apply Expand_Ok in H as (cfg' & m & Hc' & Hm & ->).
  rewrite Hc0 in Hc'. inversion Hc'; subst cfg'; clear Hc'.
  assert (m !! k = if HasChange d (prefixOf kind +:+ k)
                   then Some (VList []) else None) as Hk.
  { rewrite <- (path_of_field kind k).
    apply (expandObj_empty_set Sprintf_v BigFloat_String
             (rootState kind s d cfg0) res k sub cfg l m
             He Hu Hf Hty Hfn Hc Hcfg); [|done].
    cbn [resource path rootState]. by rewrite path_of_field. }
  assert (∀ k', k' ≠ k → dtoName k' = dtoName k → m !! k' = None) as Hno.
  { intros k' Hne Hd. destruct (field res k') as [sub'|] eqn:Hf'.
    - destruct (Hothers k' sub' Hne Hd Hf') as [Hn Hch].
      apply (expandObj_absent Sprintf_v BigFloat_String
             (rootState kind s d cfg0) res k' sub' m
               He Hu Hf' Hn); [|done].
      cbn [resource path rootState]. by rewrite path_of_field.
    - exact (expandObj_not_field (rootState kind s d cfg0) res m k'
               He Hm Hf'). }
  rewrite renameAliases_lookup.
  - unfold renamed, dtoName in *.
    destruct (decide (k = "ip_filter_string" ∨ k = "ip_filter_object"))
      as [[-> | ->]|Hk'].
    + rewrite decide_True by done. rewrite Hk.
      rewrite (Hno "ip_filter_object"), (Hno "ip_filter") by done.
      by destruct (HasChange d _).
    + rewrite decide_True by done. rewrite Hk.
      rewrite (Hno "ip_filter_string"), (Hno "ip_filter") by done.
      by destruct (HasChange d _).
    + destruct (decide (k = "ip_filter")) as [->|Hk1].
      * rewrite (Hno "ip_filter_string"), (Hno "ip_filter_object") by done.
        rewrite Hk. by destruct (HasChange d _).
      * by rewrite decide_False.
  - unfold dtoName. intros Hr v ks Hv.
    destruct (decide (k = "ip_filter_string" ∨ k = "ip_filter_object"))
      as [|_]; [done|]. subst k. rewrite Hk in Hv.
    destruct (HasChange d _); [|done]. by inversion Hv.
Qed.

End ExpandClaims.

(** ** The order of the state *)

Lemma append_suffix_ne (s t : string) : t ≠ "" → s +:+ t ≠ s.
Proof.
  intros Ht. induction s as [|c s IH]; [done|].
  intros H. apply IH. by inversion H.
Qed.

(** [assignAlias] on two objects that the state has in the other order. *)
Lemma assignAlias_state_order d path (dto : Obj) key sortBy a b A B SA SB :
  a ≠ b →
  A !! sortBy = Some (VString a) → B !! sortBy = Some (VString b) →
  SA !! sortBy = Some (VString a) → SB !! sortBy = Some (VString b) →
  GetOk d (path +:+ "_object") = (VList [VMap SB; VMap SA], true) →
  (GetOk d (path +:+ "_string")).2 = false →
  dto !! key = Some (VList [VMap A; VMap B]) →
  assignAlias d path dto key sortBy
  = delete key (<[key +:+ "_object" := VList [VMap B; VMap A]]>
                  (<[key := VList [VMap B; VMap A]]> dto)).
Proof.
  intros Hab HA HB HSA HSB Hobj Hstr Hd.
  unfold assignAlias. rewrite Hd, Hobj, Hstr. cbn [snd].
  unfold index. rewrite Hd, lookup_insert_eq. cbn [default].
  unfold sortByKey, rank, keyOf. simpl.
  rewrite HA, HB, HSA, HSB. simpl.
  destruct (decide (Some b = Some a)) as [Heq|_]; [by inversion Heq|].
  rewrite !decide_True by done. simpl.
  destruct (decide ("_object" ≠ "")) as [_|Hn]; [done|by destruct Hn].
Qed.

Lemma aliasIpFilter_other kind d (dto : Obj) k :
  k ∉ ipFilterKeys → aliasIpFilter kind d dto !! k = dto !! k.
Proof.
  unfold ipFilterKeys. intros Hk.
  apply not_elem_of_cons in Hk as [H0 Hk].
  apply not_elem_of_cons in Hk as [H1 Hk].
  apply not_elem_of_cons in Hk as [H2 _].
  unfold aliasIpFilter. destruct (decide _); [|done].
  unfold assignAlias, index.
  destruct (dto !! "ip_filter") as [[| | | | | |values| |]|]; try done.
  destruct values as [|first rest]; [done|].
  destruct (GetOk d _) as [vs [|]];
    destruct (GetOk d _) as [vo [|]];
    destruct first; simpl; try done;
    by rewrite ?lookup_delete_ne, ?lookup_insert_ne by done.
Qed.

Section StateOrder.

Variable ParseFloat : string → option float64.

#[local] Abbreviation flattenAttr := (flattenAttr ParseFloat).
#[local] Abbreviation flattenFields := (flattenFields ParseFloat).
#[local] Abbreviation flattenObj := (flattenObj ParseFloat).
#[local] Abbreviation flattenList := (flattenList ParseFloat).
#[local] Abbreviation Flatten := (Flatten ParseFloat).

(** A field that has a value in the DTO has one in the flattened object. *)
Lemma flattenObj_field fs (dto : Obj) r k sub vv :
  NoDup (keys fs) → field fs k = Some sub →
  dto !! k = Some vv → vv ≠ VNil →
  flattenObj fs dto = Ok r →
  ∃ t v, r = Some t ∧ flattenAttr sub vv = Ok v ∧ t !! k = Some v.
Proof.
  intros Hnd Hf Hd Hvv H. unfold flattenObj in H. inv_bind H.
  rename a into t.
  pose proof (flattenFields_field _ _ _ _ _ _ _ Ha Hnd Hf) as Hk.
  rewrite Hd in Hk.
  assert (∃ v, flattenAttr sub vv = Ok v ∧ t !! k = Some v)
    as (v & Hv & Ht) by (by destruct vv).
  exists t, v. split; [|done].
  destruct (decide (size t = 0)) as [Hz|]; [|by inversion H].
  by apply lookup_Some_size in Ht.
Qed.

Lemma flattenItems_app (f : Obj → Res (option Obj)) lst items out :
  flattenItems f lst items = Ok out → ∃ new, out = (items ++ new)%list.
Proof.
  revert items. induction lst as [|item rest IH]; simpl; intros items H.
  - inversion H; subst. exists []. by rewrite app_nil_r.
  - destruct item as [| | | | | | |o|]; try done.
    inv_bind H. destruct (IH _ H) as (new & ->).
    destruct a as [t|]; [|by eauto].
    exists (VMap t :: new). by rewrite <- app_assoc.
Qed.

(** The first object of an array of objects. *)
Lemma flattenAttr_first s res o rest v :
  match sType s with
  | TypeString | TypeBool | TypeInt | TypeFloat => False
  | _ => True
  end →
  Elem s = ElemResource res →
  flattenAttr s (VList (VMap o :: rest)) = Ok v →
  ∃ r items, flattenObj res o = Ok r
             ∧ v = VList (match r with
                          | Some t => VMap t :: items
                          | None => items
                          end).
Proof.
  intros Hty He H. rewrite (flattenAttr_objects _ _ res) in H by done.
  cbn [bindR] in H. unfold mapR in H. inv_bind H. inversion H; subst v.
  unfold flattenList in Ha. cbn [flattenItems] in Ha. inv_bind Ha.
  rename a0 into r. exists r.
  destruct (flattenItems_app _ _ _ _ Ha) as [new ->].
  exists new. split; [done|]. by destruct r.
Qed.

(** A single object that is not empty. *)
Lemma flattenAttr_one s res (o : Obj) v :
  match sType s with
  | TypeString | TypeBool | TypeInt | TypeFloat => False
  | _ => True
  end →
  Elem s = ElemResource res → o ≠ ∅ →
  flattenAttr s (VMap o) = Ok v →
  ∃ r, flattenObj res o = Ok r
       ∧ v = VList (match r with Some t => [VMap t] | None => [] end).
Proof.
  intros Hty He Ho H. rewrite (flattenAttr_objects _ _ res) in H by done.
  cbn [bindR] in H. destruct (decide (size o = 0)) as [Hz|_].
  { by apply map_size_empty_inv in Hz. }
  unfold mapR in H. inv_bind H. inversion H; subst v.
  unfold flattenList in Ha. cbn [flattenItems] in Ha. inv_bind Ha.
  inversion Ha; subst a. exists a0. split; [done|]. by destruct a0.
Qed.

(** C7.  For every key with aliases and every ordering key: when the state
    has the two objects under the [_object] alias in the order B, A and no
    [_string] alias, and the DTO has them under the key in the order A, B,
    [assignAlias] leaves them under the [_object] alias in the order B, A,
    the order of the state.  [Flatten] does so for its two object lists:
    for [ip_filter], ordered by [network], it returns under
    [ip_filter_object] the flattening of B, A; for the [namespaces] of the
    mapping of the first rule, ordered by [name], it returns under
    [namespaces_object] of that mapping the flattening of B, A. *)
Theorem state_order_restored :
  (∀ d path (dto : Obj) key sortBy a b A B SA SB,
     a ≠ b →
     A !! sortBy = Some (VString a) → B !! sortBy = Some (VString b) →
     SA !! sortBy = Some (VString a) → SB !! sortBy = Some (VString b) →
     GetOk d (path +:+ "_object") = (VList [VMap SB; VMap SA], true) →
     (GetOk d (path +:+ "_string")).2 = false →
     dto !! key = Some (VList [VMap A; VMap B]) →
     assignAlias d path dto key sortBy !! (key +:+ "_object")
     = Some (VList [VMap B; VMap A])
     ∧ assignAlias d path dto key sortBy !! key = None)
  ∧ (∀ kind s d dto tree r sub a b A B SA SB,
       Elem s = ElemResource r → uniq r = true →
       field r "ip_filter_object" = Some sub →
       a ≠ b →
       A !! "network" = Some (VString a) →
       B !! "network" = Some (VString b) →
       SA !! "network" = Some (VString a) →
       SB !! "network" = Some (VString b) →
       GetOk d (prefixOf kind +:+ "ip_filter_object")
         = (VList [VMap SB; VMap SA], true) →
       (GetOk d (prefixOf kind +:+ "ip_filter_string")).2 = false →
       dto !! "ip_filter" = Some (VList [VMap A; VMap B]) →
       Flatten kind s d dto = Ok tree →
       ∃ tfo v,
         tree = [tfo]
         ∧ flattenAttr sub (VList [VMap B; VMap A]) = Ok v
         ∧ tfo !! "ip_filter_object" = Some v)
  ∧ (∀ kind s d dto tree r sub R subM M subN rule rest mapping
       a b A B SA SB,
       Elem s = ElemResource r → uniq r = true →
       field r "rules" = Some sub →
       sType sub = TypeList → Elem sub = ElemResource R → uniq R = true →
       field R "mapping" = Some subM →
       sType subM = TypeList → Elem subM = ElemResource M → uniq M = true →
       field M "namespaces_object" = Some subN →
       a ≠ b →
       A !! "name" = Some (VString a) → B !! "name" = Some (VString b) →
       SA !! "name" = Some (VString a) → SB !! "name" = Some (VString b) →
       GetOk d (prefixOf kind +:+ "rules.0.mapping.0.namespaces_object")
         = (VList [VMap SB; VMap SA], true) →
       (GetOk d (prefixOf kind +:+ "rules.0.mapping.0.namespaces_string")).2
         = false →
       dto !! "rules" = Some (VList (VMap rule :: rest)) →
       rule !! "mapping" = Some (VMap mapping) →
       mapping !! "namespaces" = Some (VList [VMap A; VMap B]) →
       Flatten kind s d dto = Ok tree →
       ∃ tfo trule items tmap v,
         tree = [tfo]
         ∧ tfo !! "rules" = Some (VList (VMap trule :: items))
         ∧ trule !! "mapping" = Some (VList [VMap tmap])
         ∧ flattenAttr subN (VList [VMap B; VMap A]) = Ok v
         ∧ tmap !! "namespaces_object" = Some v).
Proof.
  split; [|split].
  - intros d path dto key sortBy a b A B SA SB Hab HA HB HSA HSB Hobj Hstr Hd.
    rewrite (assignAlias_state_order _ _ _ _ _ _ _ _ _ _ _
               Hab HA HB HSA HSB Hobj Hstr Hd).
    rewrite lookup_delete_eq.
    rewrite lookup_delete_ne by (apply not_eq_sym; by apply append_suffix_ne).
    by rewrite lookup_insert_eq.
  - intros kind s d dto tree r sub a b A B SA SB
      He Hu Hf Hab HA HB HSA HSB Hobj Hstr Hd H.
    destruct (Flatten_ip_objects _ _ _ _ _ _ _ _ _ _ He Hu Hf Hd Hstr H)
      as (tfo & v & -> & Hv & Ht & _).
    exists tfo, v. split; [done|]. split; [|done].
    unfold reordered in Hv. rewrite append_assoc in Hv. simpl in Hobj.
    change ("ip_filter" +:+ "_object") with "ip_filter_object" in Hv.
    rewrite Hobj in Hv. simpl in Hv.
    unfold rank, keyOf in Hv. simpl in Hv.
    rewrite HA, HB, HSA, HSB in Hv. simpl in Hv.
    destruct (decide (Some b = Some a)) as [Heq|_]; [by inversion Heq|].
    rewrite decide_True in Hv by done.
    rewrite decide_True in Hv by done. exact Hv.
  - intros kind s d dto tree r sub R subM M subN rule rest mapping
      a b A B SA SB He Hu Hf Hty HeR HuR HfM HtyM HeM HuM HfN
      Hab HA HB HSA HSB Hobj Hstr Hd Hrule Hmap H.
    destruct (Flatten_field _ _ _ _ _ _ _ He Hu H)
      as (dto' & t & Hns & -> & _ & Hr).
    specialize (Hr _ _ Hf).
    rewrite copyCreateOnly_other in Hr
      by (unfold createOnlyFields;
          repeat (apply not_elem_of_cons; split; [done|]);
          apply not_elem_of_nil).
    set (mapping' := <["namespaces_object" := VList [VMap B; VMap A]]>
                       (<["namespaces" := VList [VMap B; VMap A]]> mapping)).
    assert (dto' !! "rules"
            = Some (VList (VMap (<["mapping" :=
                                     VMap (delete "namespaces" mapping')]>
                                   rule) :: rest))) as Hrules.
    { assert (aliasIpFilter kind d dto !! "rules"
              = Some (VList (VMap rule :: rest))) as Hd1.
      { rewrite aliasIpFilter_other; [done|].
        unfold ipFilterKeys.
        repeat (apply not_elem_of_cons; split; [done|]).
        apply not_elem_of_nil. }
      unfold aliasNamespaces, drillKey in Hns.
      change (splitPath "rules.0.mapping" "") with ["rules"; "0"; "mapping"]
        in Hns.
      cbn [drill] in Hns. rewrite Hd1 in Hns.
      change (parseIndex "0") with (Some 0%nat) in Hns.
      cbn [lookup list_lookup drill] in Hns. rewrite Hrule in Hns.
      inversion Hns; subst dto'; clear Hns.
      unfold storeKeys. cbn [store]. rewrite Hd1.
      change (parseIndex "0") with (Some 0%nat).
      cbn [lookup list_lookup store]. rewrite Hrule.
      rewrite lookup_insert_eq.
      rewrite (assignAlias_state_order d
                 (prefixOf kind +:+ "rules.0.mapping.0.namespaces")
                 mapping "namespaces" "name" a b A B SA SB
                 Hab HA HB HSA HSB) by (by rewrite ?append_assoc).
      reflexivity. }
    rewrite Hrules in Hr. destruct Hr as (v & Hv & Ht).
    apply (flattenAttr_first _ R) in Hv as (r0 & items & Hr0 & ->);
      [|by rewrite Hty|done].
    apply uniq_NoDup in HuR, HuM.
    assert (VMap (delete "namespaces" mapping') ≠ VNil) as HneM by done.
    destruct (flattenObj_field _ _ _ _ _ _ HuR HfM
                (lookup_insert_eq _ _ _) HneM Hr0)
      as (trule & vM & -> & HvM & HtM).
    apply (flattenAttr_one _ M) in HvM as (rM & HrM & ->);
      [|by rewrite HtyM|done|].
    2:{ intros Hempty.
        apply (f_equal (λ m : Obj, m !! "namespaces_object")) in Hempty.
        unfold mapping' in Hempty.
        by rewrite lookup_delete_ne, lookup_insert_eq, lookup_empty
          in Hempty. }
    assert (delete "namespaces" mapping' !! "namespaces_object"
            = Some (VList [VMap B; VMap A])) as HdN.
    { unfold mapping'. by rewrite lookup_delete_ne, lookup_insert_eq. }
    assert (VList [VMap B; VMap A] ≠ VNil) as HneN by done.
    destruct (flattenObj_field _ _ _ _ _ _ HuM HfN HdN HneN HrM)
      as (tmap & v & -> & Hv & HtN).
    exists t, trule, items, tmap, v.
    split; [|done].
    destruct (decide (size t = 0)) as [Hz|]; [|done].
    by apply lookup_Some_size in Ht.
Qed.


End StateOrder.

(** ** The round trip of scalars *)

Lemma scalarOf_plain sub v ks :
  scalarOf sub v = true → v ≠ VNil ∧ drill ("0" :: ks) v = None.
Proof. unfold scalarOf. by destruct (sType sub), v. Qed.

Lemma scalarOf_leafOf sub v :
  sType sub = TypeString ∨ sType sub = TypeBool →
  scalarOf sub v = true → leafOf sub v = true.
Proof. unfold scalarOf, leafOf. intros [-> | ->]; by destruct v. Qed.

Lemma copyCreateOnly_lookup kind d (dto : Obj) k :
  copyCreateOnly kind d dto !! k
  = if decide (k ∈ createOnlyFields)
    then if (GetOk d (prefixOf kind +:+ k)).2
         then Some (Get d (prefixOf kind +:+ k))
         else dto !! k
    else dto !! k.
Proof.
  destruct (decide (k ∈ createOnlyFields)) as [Hin|Hin];
    [|by apply copyCreateOnly_other].
  unfold Get. destruct (GetOk d (prefixOf kind +:+ k)) as [v [|]] eqn:Hv.
  - by apply copyCreateOnly_set.
  - apply copyCreateOnly_unset. by rewrite Hv.
Qed.

Lemma aliasNamespaces_plain kind d (dto : Obj) :
  (∀ v, dto !! "rules" = Some v → ∀ ks, drill ("0" :: ks) v = None) →
  aliasNamespaces kind d dto = Ok dto.
Proof.
  intros Hl. unfold aliasNamespaces, drillKey.
  change (splitPath "rules.0.mapping" "") with ["rules"; "0"; "mapping"].
  cbn [drill]. destruct (dto !! "rules") as [v|] eqn:Hv; [|done].
  change (match drill ["0"; "mapping"] v with
          | Some (VMap mapping) =>
              Ok (storeKeys dto ["rules"; "0"; "mapping"]
                    (VMap (assignAlias d
                             (prefixOf kind +:+ "rules.0.mapping.0.namespaces")
                             mapping "namespaces" "name")))
          | Some _ => Panic
          | None => Ok dto
          end = Ok dto).
  by rewrite (Hl v eq_refl).
Qed.

Section ScalarRoundTrip.

Variable Sprintf_v : GoVal → string.
Variable BigFloat_String : QArith_base.Q → string.
Variable ParseFloat : string → option float64.

#[local] Abbreviation expandAttrOf := (expandAttrOf Sprintf_v BigFloat_String).
#[local] Abbreviation expandProps := (expandProps Sprintf_v BigFloat_String).
#[local] Abbreviation expandAttr := (expandAttr Sprintf_v BigFloat_String).
#[local] Abbreviation expandObj := (expandObj Sprintf_v BigFloat_String).
#[local] Abbreviation Expand := (Expand Sprintf_v BigFloat_String).
#[local] Abbreviation flattenAttr := (flattenAttr ParseFloat).
#[local] Abbreviation flattenFields := (flattenFields ParseFloat).
#[local] Abbreviation flattenObj := (flattenObj ParseFloat).
#[local] Abbreviation Flatten := (Flatten ParseFloat).
#[local] Abbreviation parsesTo := (parsesTo ParseFloat).

(** A declared scalar is sent with the value of the state. *)
Lemma expandObj_declared st fs k sub m :
  Elem (schema st) = ElemResource fs → uniq fs = true →
  field fs k = Some sub →
  ForceNew sub && negb (IsNewResource (resource st)) = false →
  (∃ c, attrOf st k = Ok c ∧ declared c = true) →
  scalarOf sub (Get (resource st) (path st +:+ "." +:+ k)) = true →
  expandObj st = Ok m →
  m !! k = Some (Get (resource st) (path st +:+ "." +:+ k)).
Proof.
  intros He Hu Hf Hfn (c & Hc & Hd) Hs Hm.
  pose proof (expandObj_field _ _ st fs m k sub He Hu Hf Hm) as Hk.
  rewrite Hfn in Hk.
  destruct Hk as (c' & v & Hc' & Hv & ->).
  rewrite Hc in Hc'. inversion Hc'; subst c'; clear Hc'.
  unfold expandAttr in Hv. cbn [schema propOf] in Hv.
  assert (expandAttrOf sub (propOf st k sub c)
          = Ok (Get (resource st) (path st +:+ "." +:+ k))) as Hx.
  { unfold declared in Hd. apply andb_true_iff in Hd as [Hn Hi].
    apply negb_true_iff in Hn, Hi. destruct sub as [ty fn mi e].
    unfold expandAttrOf; fold expandAttrOf.
    unfold expandScalar, hasValue, value. cbn [config propOf path resource].
    rewrite Hn, Hi. unfold scalarOf in Hs. simpl in Hs |- *.
    by destruct ty. }
  rewrite Hx in Hv. inversion Hv; subst v.
  unfold scalarOf in Hs.
  by destruct (sType sub), (Get (resource st) (path st +:+ "." +:+ k)).
Qed.

Lemma flattenAttr_number sub n v :
  sType sub = TypeInt ∨ sType sub = TypeFloat →
  scalarOf sub v = true → parsesTo n v →
  flattenAttr sub (VNumber n) = Ok v.
Proof.
  intros Hty Hs Hn. destruct sub as [ty fn mi e].
  unfold scalarOf in Hs. unfold parsesTo in Hn.
  simpl in Hty, Hs |- *.
  destruct Hty as [-> | ->]; destruct v; try done; by rewrite Hn.
Qed.

Lemma flattenAttr_go_number sub v w :
  sType sub = TypeInt ∨ sType sub = TypeFloat →
  scalarOf sub v = true → flattenAttr sub v ≠ Ok w.
Proof.
  intros Hty Hs. destruct sub as [ty fn mi e]. unfold scalarOf in Hs.
  simpl in Hty, Hs |- *. destruct Hty as [-> | ->]; by destruct v.
Qed.

(** The round trip of a declared scalar through an object, at whatever
    depth the object is. *)
Lemma object_round_trip st fs k sub m :
  Elem (schema st) = ElemResource fs → uniq fs = true →
  field fs k = Some sub →
  ForceNew sub && negb (IsNewResource (resource st)) = false →
  (∃ c, attrOf st k = Ok c ∧ declared c = true) →
  scalarOf sub (Get (resource st) (path st +:+ "." +:+ k)) = true →
  expandObj st = Ok m →
  m !! k = Some (Get (resource st) (path st +:+ "." +:+ k))
  ∧ (sType sub = TypeString ∨ sType sub = TypeBool →
     ∀ r, flattenObj fs m = Ok r →
          ∃ t, r = Some t
               ∧ t !! k = Some (Get (resource st) (path st +:+ "." +:+ k)))
  ∧ (sType sub = TypeInt ∨ sType sub = TypeFloat →
     (∀ r, flattenObj fs m ≠ Ok r)
     ∧ ∀ n (m' : Obj) r,
         parsesTo n (Get (resource st) (path st +:+ "." +:+ k)) →
         m' !! k = Some (VNumber n) →
         flattenObj fs m' = Ok r →
         ∃ t, r = Some t
              ∧ t !! k = Some (Get (resource st) (path st +:+ "." +:+ k))).
Proof.
  intros He Hu Hf Hfn Hc Hs Hm.
  pose proof (expandObj_declared _ _ _ _ _ He Hu Hf Hfn Hc Hs Hm) as Hk.
  pose proof (uniq_NoDup _ Hu) as Hnd.
  pose proof (proj1 (scalarOf_plain _ _ [] Hs)) as Hnil.
  split; [done|]. split.
  - intros Hty r Hr.
    destruct (flattenObj_field ParseFloat _ _ _ _ _ _ Hnd Hf Hk Hnil Hr)
      as (t & v & -> & Hv & Ht).
    rewrite flattenAttr_leaf in Hv by (by apply scalarOf_leafOf).
    inversion Hv; subst v. by exists t.
  - intros Hty. split.
    + intros r Hr.
      destruct (flattenObj_field ParseFloat _ _ _ _ _ _ Hnd Hf Hk Hnil Hr)
        as (t & v & _ & Hv & _).
      by apply flattenAttr_go_number in Hv.
    + intros n m' r Hn Hk' Hr.
      assert (VNumber n ≠ VNil) as Hnn by done.
      destruct (flattenObj_field ParseFloat _ _ _ _ _ _ Hnd Hf Hk' Hnn Hr)
        as (t & v & -> & Hv & Ht).
      rewrite (flattenAttr_number _ _ _ Hty Hs Hn) in Hv.
      inversion Hv; subst v. by exists t.
Qed.

Lemma expandObj_scalar kind s d fs cfg k sub m :
  Elem s = ElemResource fs → uniq fs = true → field fs k = Some sub →
  declaredScalar kind s d cfg k sub →
  expandObj (rootState kind s d cfg) = Ok m →
  m !! k = Some (Get d (prefixOf kind +:+ k)).
Proof.
  intros He Hu Hf (_ & Hfn & Hc & Hs) Hm.
  rewrite <- (path_of_field kind k).
  apply (expandObj_declared (rootState kind s d cfg) fs k sub m
           He Hu Hf Hfn Hc); [|done].
  cbn [resource path rootState]. by rewrite path_of_field.
Qed.

Lemma Expand_scalar kind s d fs cfg k sub dto :
  Elem s = ElemResource fs → uniq fs = true → field fs k = Some sub →
  declaredScalar kind s d cfg k sub →
  rootConfig kind d = Ok cfg →
  Expand kind s d = Ok dto →
  dto !! k = Some (Get d (prefixOf kind +:+ k)).
Proof.
  intros He Hu Hf Hd Hc H.
  apply Expand_Ok in H as (cfg' & m & Hc' & Hm & ->).
  rewrite Hc in Hc'. inversion Hc'; subst cfg'; clear Hc'.
  pose proof (expandObj_scalar _ _ _ _ _ _ _ _ He Hu Hf Hd Hm) as Hk.
  destruct Hd as (Hip & _ & _ & Hs).
  rewrite renameAliases_lookup.
  - unfold renamed, ipFilterKeys in *.
    apply not_elem_of_cons in Hip as [H0 Hip].
    apply not_elem_of_cons in Hip as [H1 Hip].
    apply not_elem_of_cons in Hip as [H2 _].
    rewrite decide_False by done. by rewrite decide_False by tauto.
  - intros -> v ks Hv. rewrite Hk in Hv. inversion Hv; subst v.
    by eapply scalarOf_plain.
Qed.

(** What [Flatten] returns under the key of a field of the top level that
    is neither [ip_filter] nor one of its aliases. *)
Lemma Flatten_lookup kind s d fs (dto : Obj) tree k sub :
  Elem s = ElemResource fs → uniq fs = true → field fs k = Some sub →
  k ∉ ipFilterKeys →
  (k = "rules" →
   ∀ v, dto !! "rules" = Some v → ∀ ks, drill ("0" :: ks) v = None) →
  Flatten kind s d dto = Ok tree →
  ∃ t, tree = (if decide (size t = 0) then [] else [t])
       ∧ match copyCreateOnly kind d dto !! k with
         | None | Some VNil => t !! k = None
         | Some vv => ∃ v, flattenAttr sub vv = Ok v ∧ t !! k = Some v
         end.
Proof.
  intros He Hu Hf Hip Hr H.
  destruct (Flatten_field _ _ _ _ _ _ _ He Hu H)
    as (dto' & t & Hns & -> & _ & Hk).
  exists t. split; [done|]. specialize (Hk k sub Hf).
  assert (copyCreateOnly kind d dto' !! k = copyCreateOnly kind d dto !! k)
    as <-; [|done].
  rewrite !copyCreateOnly_lookup.
  assert (dto' !! k = dto !! k) as ->; [|done].
  destruct (decide (k = "rules")) as [->|Hne].
  - rewrite aliasNamespaces_plain in Hns.
    + inversion Hns. by apply aliasIpFilter_other.
    + intros v Hv. rewrite aliasIpFilter_other in Hv by done. by apply Hr.
  - rewrite (aliasNamespaces_other _ _ _ _ _ Hns Hne).
    by apply aliasIpFilter_other.
Qed.

Lemma expandAttrOf_not_sent sub p :
  hasValue p = true →
  (sType sub = TypeList ∨ sType sub = TypeSet → hasChange p = false) →
  expandAttrOf sub p = Ok VNil.
Proof.
  intros Hv Hc. destruct sub as [ty fn mi e]. simpl in Hc.
  unfold expandAttrOf; fold expandAttrOf. unfold expandScalar.
  rewrite Hv. destruct ty; try done; by rewrite Hc by auto.
Qed.

Lemma properties_returns s fs props0 :
  eachField (λ k sub,
    ForceNew sub && negb (IsNewResource (resource s)) = true
    ∨ ∃ c, attrOf s k = Ok c) fs →
  ∃ props, properties s fs props0 = Ok props.
Proof.
  revert props0. induction fs as [|k sub rest IH]; simpl; intros props0 H.
  - by eexists.
  - destruct H as [[Hfn|[c Hc]] Hrest].
    + rewrite Hfn. by apply IH.
    + destruct (ForceNew sub && negb (IsNewResource (resource s)));
        [by apply IH|].
      unfold attrOf in Hc. rewrite Hc. simpl. by apply IH.
Qed.

Lemma expandProps_returns fs props m0 :
  eachField (λ k sub,
    props !! k = None
    ∨ ∃ p v, props !! k = Some p ∧ expandAttrOf sub p = Ok v) fs →
  ∃ m, expandProps fs props m0 = Ok m.
Proof.
  revert m0. induction fs as [|k sub rest IH]; simpl; intros m0 H.
  - by eexists.
  - destruct H as [[Hp|(p & v & Hp & Hv)] Hrest]; rewrite Hp.
    + by apply IH.
    + rewrite Hv. destruct v; by apply IH.
Qed.

Lemma flattenFields_returns fs (dto : Obj) t0 :
  eachField (λ k sub,
    dto !! k = None
    ∨ ∃ vv v, dto !! k = Some vv ∧ flattenAttr sub vv = Ok v) fs →
  ∃ t, flattenFields fs dto t0 = Ok t.
Proof.
  revert t0. induction fs as [|k sub rest IH]; simpl; intros t0 H.
  - by eexists.
  - destruct H as [[Hd|(vv & v & Hd & Hv)] Hrest]; rewrite Hd.
    + by apply IH.
    + assert (vv = VNil ∨ vv ≠ VNil) as [->|Hne] by (destruct vv; auto).
      { by apply IH. }
      rewrite Hv.
      assert (v ≠ VNil) by (intros ->; by eapply flattenAttr_not_nil).
      destruct vv; try done; destruct v; try done; by apply IH.
Qed.

Lemma copyCreateOnly_id kind d (dto : Obj) :
  (∀ k, k ∈ createOnlyFields →
        (GetOk d (prefixOf kind +:+ k)).2 = true →
        dto !! k = Some (Get d (prefixOf kind +:+ k))) →
  copyCreateOnly kind d dto = dto.
Proof.
  intros H. apply map_eq. intros k. rewrite copyCreateOnly_lookup.
  destruct (decide (k ∈ createOnlyFields)) as [Hin|]; [|done].
  destruct (GetOk d (prefixOf kind +:+ k)).2 eqn:Hok; [|done].
  by rewrite H.
Qed.

(** A DTO whose values are strings and bools under fields that declare
    them flattens to itself. *)
Lemma flattenObj_leaves_only fs (dto : Obj) :
  NoDup (keys fs) →
  (∀ k v, dto !! k = Some v →
          ∃ sub, field fs k = Some sub ∧ leafOf sub v = true) →
  flattenObj fs dto
  = Ok (if decide (size dto = 0) then None else Some dto).
Proof.
  intros Hnd Hall.
  destruct (flattenFields_returns fs dto ∅) as [t Ht].
  { apply eachField_intro; [done|]. intros k sub Hf.
    destruct (dto !! k) as [v|] eqn:Hv; [right|by left].
    destruct (Hall k v Hv) as (sub' & Hf' & Hl).
    rewrite Hf in Hf'. inversion Hf'; subst sub'.
    exists v, v. split; [done|]. by apply flattenAttr_leaf. }
  assert (t = dto) as ->; [|unfold flattenObj; by rewrite Ht].
  apply map_eq. intros k.
  destruct (field fs k) as [sub|] eqn:Hf.
  - pose proof (flattenFields_field _ _ _ _ _ _ _ Ht Hnd Hf) as Hk.
    rewrite lookup_empty in Hk.
    destruct (dto !! k) as [v|] eqn:Hv; [|done].
    destruct (Hall k v Hv) as (sub' & Hf' & Hl).
    rewrite Hf in Hf'. inversion Hf'; subst sub'.
    rewrite (flattenAttr_leaf _ _ _ Hl) in Hk.
    pose proof (leafOf_isLeaf _ _ Hl).
    destruct v; try done; by destruct Hk as (v' & [= <-] & ->).
  - rewrite (flattenFields_other _ _ _ _ _ _ Ht), lookup_empty.
    + destruct (dto !! k) as [v|] eqn:Hv; [|done].
      destruct (Hall k v Hv) as (sub' & Hf' & _). congruence.
    + intros Hin. apply field_of_key in Hin as [sub Hs]. congruence.
Qed.

(** The DTO of a block whose fields are declared strings and bools, or are
    not sent. *)
Lemma expandObj_leaves_only kind s d fs cfg :
  Elem s = ElemResource fs → uniq fs = true →
  (∀ k sub, field fs k = Some sub →
     (sType sub = TypeString ∨ sType sub = TypeBool)
     ∧ declaredScalar kind s d cfg k sub
     ∨ notSent kind s d cfg k sub) →
  ∃ m, expandObj (rootState kind s d cfg) = Ok m
       ∧ (∀ k sub, field fs k = Some sub →
            declaredScalar kind s d cfg k sub →
            m !! k = Some (Get d (prefixOf kind +:+ k)))
       ∧ (∀ k, (∀ sub, field fs k = Some sub →
                       notSent kind s d cfg k sub) →
               m !! k = None).
Proof.
  intros He Hu Hall. pose proof (uniq_NoDup _ Hu) as Hnd.
  set (root := rootState kind s d cfg).
  destruct (properties_returns root fs ∅) as [props Hprops].
  { apply eachField_intro; [done|]. intros k sub Hf.
    destruct (Hall k sub Hf) as [[_ (_ & _ & (c & Hc & _) & _)]|[Hfn|Hn]].
    - right. by exists c.
    - by left.
    - right. destruct Hn as (c & Hc & _). by exists c. }
  assert (∀ k sub, field fs k = Some sub → notSent kind s d cfg k sub →
            props !! k = None
            ∨ ∃ p, props !! k = Some p ∧ expandAttrOf sub p = Ok VNil)
    as Hsilent.
  { intros k sub Hf Hn.
    pose proof (properties_field _ _ _ _ _ _ Hprops Hnd Hf) as Hk.
    cbn [resource root rootState] in Hk.
    destruct (ForceNew sub && negb (IsNewResource d)) eqn:Hfn.
    { left. by rewrite Hk, lookup_empty. }
    destruct Hn as [Hn|(c & Hc & Hv & Hch)]; [congruence|].
    destruct Hk as (c' & Hc' & Hk). fold root in Hc.
    rewrite Hc in Hc'. inversion Hc'; subst c'.
    right. eexists. split; [exact Hk|].
    apply expandAttrOf_not_sent; [done|].
    intros Hty. unfold hasChange. cbn [resource path propOf root rootState].
    rewrite path_of_field. by apply Hch. }
  destruct (expandProps_returns fs props ∅) as [m Hm].
  { apply eachField_intro; [done|]. intros k sub Hf.
    destruct (Hall k sub Hf) as [[Hty Hd]|Hn].
    - pose proof (properties_field _ _ _ _ _ _ Hprops Hnd Hf) as Hk.
      cbn [resource root rootState] in Hk.
      destruct Hd as (_ & Hfn & (c & Hc & Hdc) & Hs).
      rewrite Hfn in Hk. destruct Hk as (c' & Hc' & Hk).
      fold root in Hc. rewrite Hc in Hc'. inversion Hc'; subst c'.
      right. eexists _, _. split; [exact Hk|].
      apply expandAttrOf_leaf; [done|].
      apply scalarOf_leafOf; [done|].
      unfold value. cbn [resource path propOf root rootState].
      by rewrite path_of_field.
    - destruct (Hsilent k sub Hf Hn) as [Hp|(p & Hp & Hv)]; [by left|].
      right. by eauto. }
  assert (expandObj root = Ok m) as Hroot.
  { unfold expandObj, objectProperties.
    cbn [schema root rootState]. rewrite He, Hprops. exact Hm. }
  exists m. split; [done|]. split.
  - intros k sub Hf Hd. by eapply expandObj_scalar.
  - intros k Hn. destruct (field fs k) as [sub|] eqn:Hf.
    + pose proof (expandProps_field _ _ _ _ _ _ _ _ Hm Hnd Hf) as Hk.
      destruct (Hsilent k sub Hf (Hn sub eq_refl)) as [Hp|(p & Hp & Hv)];
        rewrite Hp in Hk.
      * by rewrite Hk, lookup_empty.
      * destruct Hk as (v & Hv' & ->). fold expandAttrOf in Hv'.
        rewrite Hv in Hv'. inversion Hv'; subst v. apply lookup_empty.
    + exact (expandObj_not_field _ _ root fs m k He Hroot Hf).
Qed.

(** C9, as the code has it.  For a scalar leaf that the user declared, in
    an object at whatever depth and whatever the other fields of the schema
    are: [expandObj] puts the value that the state has for it under its
    key.  When the leaf is a string or a bool, [flattenObj] of that object,
    whenever it returns, returns the same value under the same key.  When
    the leaf is an int or a float, [flattenObj] of that object does not
    return; given an object that has the number as a [json.Number] whose
    text parses to it, what [flattenObj] returns has the value of the state
    under the key.  The same holds of [Expand] and [Flatten] for a leaf of
    the user config block other than [ip_filter] and its aliases.  And
    when every field of the block is a declared string or bool or is not
    sent, and the create-only fields that the state has are declared,
    [Expand] returns a DTO that has exactly the declared leaves, and
    [Flatten] of that DTO returns it as the tree. *)
Theorem scalar_round_trip :
  (∀ st fs k sub m,
     Elem (schema st) = ElemResource fs → uniq fs = true →
     field fs k = Some sub →
     ForceNew sub && negb (IsNewResource (resource st)) = false →
     (∃ c, attrOf st k = Ok c ∧ declared c = true) →
     scalarOf sub (Get (resource st) (path st +:+ "." +:+ k)) = true →
     expandObj st = Ok m →
     m !! k = Some (Get (resource st) (path st +:+ "." +:+ k))
     ∧ (sType sub = TypeString ∨ sType sub = TypeBool →
        ∀ r, flattenObj fs m = Ok r →
             ∃ t, r = Some t
                  ∧ t !! k
                    = Some (Get (resource st) (path st +:+ "." +:+ k)))
     ∧ (sType sub = TypeInt ∨ sType sub = TypeFloat →
        (∀ r, flattenObj fs m ≠ Ok r)
        ∧ ∀ n (m' : Obj) r,
            parsesTo n (Get (resource st) (path st +:+ "." +:+ k)) →
            m' !! k = Some (VNumber n) →
            flattenObj fs m' = Ok r →
            ∃ t, r = Some t
                 ∧ t !! k
                   = Some (Get (resource st) (path st +:+ "." +:+ k))))
  ∧ (∀ kind s d fs cfg k sub dto,
       Elem s = ElemResource fs → uniq fs = true → field fs k = Some sub →
       declaredScalar kind s d cfg k sub →
       rootConfig kind d = Ok cfg →
       Expand kind s d = Ok dto →
       dto !! k = Some (Get d (prefixOf kind +:+ k))
       ∧ (sType sub = TypeString ∨ sType sub = TypeBool →
          ∀ tree, Flatten kind s d dto = Ok tree →
                  ∃ t, tree = [t]
                       ∧ t !! k = Some (Get d (prefixOf kind +:+ k)))
       ∧ (sType sub = TypeInt ∨ sType sub = TypeFloat →
          (∀ tree, Flatten kind s d dto ≠ Ok tree)
          ∧ ∀ n (dto' : Obj) tree,
              parsesTo n (Get d (prefixOf kind +:+ k)) →
              dto' !! k = Some (VNumber n) →
              Flatten kind s d dto' = Ok tree →
              ∃ t, tree = [t]
                   ∧ t !! k = Some (Get d (prefixOf kind +:+ k))))
  ∧ (∀ kind s d fs cfg,
       Elem s = ElemResource fs → uniq fs = true →
       rootConfig kind d = Ok cfg →
       (∀ k sub, field fs k = Some sub →
          (sType sub = TypeString ∨ sType sub = TypeBool)
          ∧ declaredScalar kind s d cfg k sub
          ∨ notSent kind s d cfg k sub) →
       (∀ k, k ∈ createOnlyFields →
             (GetOk d (prefixOf kind +:+ k)).2 = true →
             ∃ sub, field fs k = Some sub
                    ∧ declaredScalar kind s d cfg k sub) →
       ∃ dto,
         Expand kind s d = Ok dto
         ∧ (∀ k sub, field fs k = Some sub →
              declaredScalar kind s d cfg k sub →
              dto !! k = Some (Get d (prefixOf kind +:+ k)))
         ∧ (∀ k, (∀ sub, field fs k = Some sub →
                         notSent kind s d cfg k sub) →
                 dto !! k = None)
         ∧ Flatten kind s d dto
           = Ok (if decide (size dto = 0) then [] else [dto])).
Proof.
  split; [exact object_round_trip|]. split.
  - intros kind s d fs cfg k sub dto He Hu Hf Hd Hc H.
    pose proof (Expand_scalar _ _ _ _ _ _ _ _ He Hu Hf Hd Hc H) as Hk.
    split; [done|].
    destruct Hd as (Hip & _ & _ & Hs).
    split.
    + intros Hty tree Ht.
      assert (k = "rules" → ∀ v, dto !! "rules" = Some v →
                ∀ ks, drill ("0" :: ks) v = None) as Hr.
      { intros -> v Hv ks. rewrite Hk in Hv. inversion Hv; subst v.
        by eapply scalarOf_plain. }
      destruct (Flatten_lookup _ _ _ _ _ _ _ _ He Hu Hf Hip Hr Ht)
        as (t & -> & Hv).
      rewrite copyCreateOnly_lookup, Hk in Hv.
      assert (∃ v, flattenAttr sub (Get d (prefixOf kind +:+ k)) = Ok v
                   ∧ t !! k = Some v) as (v & Hfl & Htk).
      { pose proof (proj1 (scalarOf_plain _ _ [] Hs)).
        destruct (decide (k ∈ createOnlyFields));
          [destruct (GetOk d (prefixOf kind +:+ k)).2|];
          by destruct (Get d (prefixOf kind +:+ k)). }
      rewrite flattenAttr_leaf in Hfl by (by apply scalarOf_leafOf).
      inversion Hfl; subst v. exists t. split; [|done].
      destruct (decide (size t = 0)) as [Hz|]; [|done].
      by apply lookup_Some_size in Htk.
    + intros Hty.
      assert (∀ v, flattenAttr sub (Get d (prefixOf kind +:+ k)) ≠ Ok v)
        as Hno.
      { intros v. destruct sub as [ty fn mi e]. unfold scalarOf in Hs.
        simpl in Hty, Hs |- *.
        destruct Hty as [-> | ->];
          by destruct (Get d (prefixOf kind +:+ k)). }
      pose proof (proj1 (scalarOf_plain _ _ [] Hs)) as Hnil.
      split.
      * intros tree Ht.
        assert (k = "rules" → ∀ v, dto !! "rules" = Some v →
                  ∀ ks, drill ("0" :: ks) v = None) as Hr.
        { intros -> v Hv ks. rewrite Hk in Hv. inversion Hv; subst v.
          by eapply scalarOf_plain. }
        destruct (Flatten_lookup _ _ _ _ _ _ _ _ He Hu Hf Hip Hr Ht)
          as (t & -> & Hv).
        rewrite copyCreateOnly_lookup, Hk in Hv.
        assert (∃ v, flattenAttr sub (Get d (prefixOf kind +:+ k)) = Ok v)
          as (v & Hfl); [|by apply Hno in Hfl].
        destruct (decide (k ∈ createOnlyFields));
          [destruct (GetOk d (prefixOf kind +:+ k)).2|];
          destruct (Get d (prefixOf kind +:+ k)); try done;
          destruct Hv as (v & Hfl & _); by eauto.
      * intros n dto' tree Hn Hd' Ht.
        assert (k = "rules" → ∀ v, dto' !! "rules" = Some v →
                  ∀ ks, drill ("0" :: ks) v = None) as Hr.
        { intros -> v Hv ks. rewrite Hd' in Hv. by inversion Hv. }
        destruct (Flatten_lookup _ _ _ _ _ _ _ _ He Hu Hf Hip Hr Ht)
          as (t & -> & Hv).
        rewrite copyCreateOnly_lookup, Hd' in Hv.
        assert (∃ v, flattenAttr sub (VNumber n) = Ok v ∧ t !! k = Some v)
          as (v & Hfl & Htk).
        { destruct (decide (k ∈ createOnlyFields));
          [destruct (GetOk d (prefixOf kind +:+ k)).2|]; try done.
          exfalso.
          destruct (Get d (prefixOf kind +:+ k)); try done;
            destruct Hv as (v & Hfl & _); by apply Hno in Hfl. }
        assert (v = Get d (prefixOf kind +:+ k)) as ->.
        { destruct sub as [ty fn mi e]. unfold scalarOf in Hs.
          simpl in Hty, Hs, Hfl. unfold parsesTo in Hn.
          destruct Hty as [-> | ->];
            destruct (Get d (prefixOf kind +:+ k)); try done;
            rewrite Hn in Hfl; by inversion Hfl. }
        exists t. split; [|done].
        destruct (decide (size t = 0)) as [Hz|]; [|done].
        by apply lookup_Some_size in Htk.
  - intros kind s d fs cfg He Hu Hc Hall Hco.
    destruct (expandObj_leaves_only _ _ _ _ _ He Hu Hall)
      as (m & Hm & Hleaf & Hnone).
    assert (∀ k v, m !! k = Some v →
              ∃ sub, field fs k = Some sub
                     ∧ declaredScalar kind s d cfg k sub
                     ∧ leafOf sub v = true) as Hvals.
    { intros k v Hv. destruct (field fs k) as [sub|] eqn:Hf.
      - destruct (Hall k sub Hf) as [[Hty Hd]|Hn].
        + exists sub. split; [done|]. split; [done|].
          rewrite (Hleaf k sub Hf Hd) in Hv. inversion Hv; subst v.
          destruct Hd as (_ & _ & _ & Hs). by apply scalarOf_leafOf.
        + rewrite Hnone in Hv; [done|].
          intros sub' Heq. by simplify_eq.
      - rewrite Hnone in Hv; [done|]. intros sub' Heq. by simplify_eq. }
    assert (∀ k v, m !! k = Some v → isLeaf v = true ∧ k ∉ ipFilterKeys)
      as Hplain.
    { intros k v Hv. destruct (Hvals k v Hv) as (sub & _ & Hd & Hl).
      split; [by eapply leafOf_isLeaf|]. by destruct Hd. }
    assert (∀ k, k ∈ ipFilterKeys → m !! k = None) as Hip.
    { intros k Hin. destruct (m !! k) as [v|] eqn:Hv; [|done].
      by destruct (Hplain k v Hv). }
    assert (renameAliases m = m) as Hren.
    { apply renameAliases_flat.
      - apply Hip. unfold ipFilterKeys. by repeat constructor.
      - apply Hip. unfold ipFilterKeys. by repeat constructor.
      - intros v Hv. by destruct (Hplain _ _ Hv). }
    exists m. split; [|split; [|split]].
    + rewrite Expand_steps, Hc. cbn [bindR]. fold expandObj.
      rewrite Hm. cbn [bindR]. by rewrite Hren.
    + done.
    + done.
    + rewrite Flatten_steps, He.
      rewrite aliasIpFilter_leaf
        by (intros v Hv; by destruct (Hplain _ _ Hv)).
      rewrite aliasNamespaces_leaf
        by (intros v Hv; by destruct (Hplain _ _ Hv)).
      cbn [bindR]. rewrite copyCreateOnly_id.
      * rewrite flattenObj_leaves_only.
        -- cbn [bindR]. by destruct (decide (size m = 0)).
        -- by apply uniq_NoDup.
        -- intros k v Hv. destruct (Hvals k v Hv) as (sub & Hf & _ & Hl).
           by eauto.
      * intros k Hin Hok. destruct (Hco k Hin Hok) as (sub & Hf & Hd).
        by apply (Hleaf k sub).
Qed.

End ScalarRoundTrip.

(** * The statements on the sample data *)

Lemma forceNew_omitted_on_update_witness :
  ∃ m, expandObj Sample.Sprintf_v Sample.BigFloat_String
         (Sample.state Sample.unchanged Sample.written) = Ok m
       ∧ ForceNew Sample.fixed = true
       ∧ m !! "plan_id" = None.
Proof.
  exists {["name" := VString "db"; "pg" := VMap ∅]}.
  split; [vm_compute; reflexivity|]. split; [reflexivity|].
  refine (proj1 (forceNew_omitted_on_update
                   Sample.Sprintf_v Sample.BigFloat_String
                   (Sample.state Sample.unchanged Sample.written)
                   Sample.fields "plan_id" Sample.fixed _
                   _ _ _ _ _) _);
    vm_compute; reflexivity.
Defined.



Lemma empty_set_sent_when_changed_witness :
  (∃ m, expandObj Sample.Sprintf_v Sample.BigFloat_String
          (Sample.state Sample.changed Sample.omitted) = Ok m
        ∧ GetAttr Sample.omitted "ip_filter" = Ok CNull
        ∧ HasChange Sample.changed "pg_user_config.0.ip_filter" = true
        ∧ m !! "ip_filter" = Some (VList []))
  ∧ ∃ dto, Expand Sample.Sprintf_v Sample.BigFloat_String "pg" Sample.root
             Sample.clearing = Ok dto
           ∧ GetAttr Sample.named "ip_filter_string" = Ok CNull
           ∧ HasChange Sample.clearing "pg_user_config.0.ip_filter_string"
             = true
           ∧ dto !! "ip_filter" = Some (VList []).
Proof.
  destruct (empty_set_sent_when_changed Sample.Sprintf_v
              Sample.BigFloat_String) as [Hdeep Htop].
  split.
  - exists {["ip_filter" := VList []; "name" := VString "db";
             "pg" := VMap {["timeout" := VString "5"]}]}.
    split; [vm_compute; reflexivity|]. split; [vm_compute; reflexivity|].
    split; [vm_compute; reflexivity|].
    refine (Hdeep (Sample.state Sample.changed Sample.omitted)
              Sample.fields "ip_filter" Sample.strings CNull [] _
              _ _ _ _ _ _ (or_introl _) _ _);
      vm_compute; reflexivity.
  - pose (dto := ({["ip_filter" := VList []; "name" := VString "db"]} : Obj)).
    assert (Expand Sample.Sprintf_v Sample.BigFloat_String "pg" Sample.root
              Sample.clearing = Ok dto) as H by (vm_compute; reflexivity).
    assert (rootConfig "pg" Sample.clearing = Ok Sample.named) as Hc
      by (vm_compute; reflexivity).
    assert (attrOf (rootState "pg" Sample.root Sample.clearing Sample.named)
              "ip_filter_string" = Ok CNull) as Ha
      by (vm_compute; reflexivity).
    assert (Get Sample.clearing (prefixOf "pg" +:+ "ip_filter_string")
            = VSet [VString "a"]) as Hv by (vm_compute; reflexivity).
    assert (HasChange Sample.clearing (prefixOf "pg" +:+ "ip_filter_string")
            = true) as Hch by (vm_compute; reflexivity).
    assert (∀ k' sub', k' ≠ "ip_filter_string" →
              dtoName k' = dtoName "ip_filter_string" →
              field Sample.fields k' = Some sub' →
              (∃ c, attrOf (rootState "pg" Sample.root Sample.clearing
                              Sample.named) k' = Ok c ∧ IsNull c = true)
              ∧ HasChange Sample.clearing (prefixOf "pg" +:+ k') = false)
      as Hothers.
    { intros k' sub' Hne Hd _.
      assert (k' = "ip_filter" ∨ k' = "ip_filter_object") as [-> | ->].
      { unfold dtoName in Hd.
        destruct (decide (k' = "ip_filter_string" ∨ k' = "ip_filter_object"))
          as [[?|?]|_]; [done|by right|by left]. }
      - split; [exists CNull; split|]; vm_compute; reflexivity.
      - split; [exists CNull; split|]; vm_compute; reflexivity. }
    exists dto. split; [exact H|]. split; [vm_compute; reflexivity|].
    split; [vm_compute; reflexivity|].
    pose proof (Htop "pg" Sample.root Sample.clearing Sample.fields
                  Sample.named "ip_filter_string" Sample.strings CNull
                  [VString "a"] dto eq_refl eq_refl eq_refl eq_refl eq_refl
                  Hc Ha (or_introl eq_refl) Hv Hothers H) as Hk.
    rewrite Hch in Hk. exact Hk.
Defined.

(** C3 fails as stated: with [ip_filter] declared as an explicit empty
    sequence and nothing changed, the DTO that [Expand] returns has no
    [ip_filter] key; with [ip_filter] omitted and a change, it has the key
    with an empty array. *)
Lemma explicit_empty_set_not_sent :
  GetAttr Sample.written "ip_filter" = Ok (CList [])
  ∧ Expand Sample.Sprintf_v Sample.BigFloat_String "pg" Sample.root
      Sample.unchanged
    = Ok {["name" := VString "db"; "pg" := VMap ∅]}
  ∧ GetAttr Sample.omitted "ip_filter" = Ok CNull
  ∧ Expand Sample.Sprintf_v Sample.BigFloat_String "pg" Sample.root
      Sample.changed
    = Ok {["ip_filter" := VList []; "name" := VString "db";
           "pg" := VMap {["timeout" := VString "5"]}]}.
Proof. repeat split; vm_compute; reflexivity. Qed.

Lemma singleton_collapse_witness :
  expandAttr Sample.Sprintf_v Sample.BigFloat_String
    (Sample.block (CList [CObject {["timeout" := CString "5"]}]))
  = Ok (VMap {["timeout" := VString "5"]})
  ∧ expandAttr Sample.Sprintf_v Sample.BigFloat_String
      (Sample.block (CList [])) = Ok VNil
  ∧ flattenAttr Sample.ParseFloat Sample.pg
      (VMap {["timeout" := VString "5"]})
    = Ok (VList [VMap {["timeout" := VString "5"]}]).
Proof.
  destruct (singleton_collapse Sample.Sprintf_v Sample.BigFloat_String
              Sample.ParseFloat) as (H1 & H2 & H3).
  split; [|split].
  - refine (H1 (Sample.block (CList [CObject {["timeout" := CString "5"]}]))
              (FCons "timeout" Sample.str FNil)
              (CObject {["timeout" := CString "5"]})
              {["timeout" := VString "5"]} _ _ _ _ _ _);
      try (vm_compute; reflexivity).
    intros H. apply (f_equal (λ m : Obj, m !! "timeout")) in H.
    vm_compute in H. discriminate H.
  - refine (H2 (Sample.block (CList [])) (FCons "timeout" Sample.str FNil)
              _ _ _ (or_intror _)); vm_compute; reflexivity.
  - refine (H3 Sample.pg (FCons "timeout" Sample.str FNil)
              {["timeout" := VString "5"]} {["timeout" := VString "5"]}
              _ _ _ _); vm_compute; reflexivity.
Defined.

(** C1 fails as stated: given the plain object [{}], [Flatten] produces a
    singleton list with no element. *)
Lemma empty_object_flattens_to_no_element :
  Flatten Sample.ParseFloat "pg" (Sample.only "pg" Sample.pg) Sample.service
    {["pg" := VMap ∅]}
  = Ok [{["pg" := VList []]}].
Proof. vm_compute. reflexivity. Qed.

(** A declared element of a singleton object that expands to nothing is
    sent all the same, as [{}]: the test [exp != nil] in [expandAttr] holds
    for every map that [expandObj] returns. *)
Lemma empty_element_is_sent :
  expandAttr Sample.Sprintf_v Sample.BigFloat_String
    (Sample.block (CList [CObject {["timeout" := CNull]}]))
  = Ok (VMap ∅).
Proof. vm_compute. reflexivity. Qed.

(** C2.  Where an int is declared and the DTO has a string, [Flatten] does
    not return an error: the type assertion [data.(json.Number)] panics,
    for every resource. *)
Theorem int_mismatch_panics (ParseFloat : string → option float64)
    (kind : string) (d : ResourceData) (x : string) :
  Flatten ParseFloat kind (Sample.only "port" Sample.int) d
    {["port" := VString x]}
  = Panic.
Proof.
  rewrite Flatten_steps.
  assert (aliasIpFilter kind d {["port" := VString x]}
          = ({["port" := VString x]} : Obj)) as ->.
  { unfold aliasIpFilter. destruct (decide (is_Some _)) as [Hs|]; [|done].
    rewrite lookup_singleton_ne in Hs by done. by destruct Hs. }
  assert (aliasNamespaces kind d {["port" := VString x]}
          = Ok ({["port" := VString x]} : Obj)) as ->.
  { unfold aliasNamespaces, drillKey.
    change (splitPath "rules.0.mapping" "") with ["rules"; "0"; "mapping"].
    cbn [drill]. by rewrite lookup_singleton_ne. }
  cbn [bindR Elem Sample.only]. unfold flattenObj.
  cbn [flattenFields Sample.int].
  rewrite copyCreateOnly_other, lookup_singleton_eq; [done|].
  unfold createOnlyFields.
  repeat (apply not_elem_of_cons; split; [done|]). apply not_elem_of_nil.
Qed.

Lemma mismatch_outcomes_at_a_string :
  flattenObj Sample.ParseFloat (FCons "name" Sample.str FNil)
    {["name" := VNumber "3"]}
  = Err (ErrField "name" (ErrInvalidType "string" (VNumber "3"))).
Proof.
  refine (proj1 (mismatch_outcomes Sample.ParseFloat "name" Sample.str
                   (VNumber "3") _) _ _); [done|reflexivity|done].
Defined.

Lemma alias_follows_dto_shape_witness :
  ∃ tfo,
    Flatten Sample.ParseFloat "pg" Sample.root Sample.service
      {["ip_filter" := VList [VMap Sample.netA; VMap Sample.netB]]}
    = Ok [tfo]
    ∧ tfo !! "ip_filter_object"
      = Some (VList [VMap Sample.netB; VMap Sample.netA])
    ∧ tfo !! "ip_filter" = None
    ∧ tfo !! "ip_filter_string" = None
    ∧ (populated tfo ipFilterKeys ≤ 1)%nat.
Proof.
  pose (dto := ({["ip_filter" := VList [VMap Sample.netA; VMap Sample.netB]]}
                : Obj)).
  pose (tfo := ({["admin_password" := VString "secret123";
                  "ip_filter_object" :=
                    VList [VMap Sample.netB; VMap Sample.netA]]} : Obj)).
  assert (Flatten Sample.ParseFloat "pg" Sample.root Sample.service dto
          = Ok [tfo]) as H by (vm_compute; reflexivity).
  destruct (alias_follows_dto_shape Sample.ParseFloat "pg" Sample.root
              Sample.service dto [tfo] Sample.fields
              eq_refl eq_refl eq_refl eq_refl H) as [H1 H2].
  exists tfo. split; [exact H|].
  split; [vm_compute; reflexivity|].
  destruct (H1 Sample.netA [VMap Sample.netB] Sample.networks
              eq_refl eq_refl eq_refl)
    as (tfo' & v & Htree & _ & _ & Hip & Hstr).
  inversion Htree; subst tfo'.
  split; [exact Hip|]. split; [exact Hstr|].
  apply H2. apply list_elem_of_singleton. reflexivity.
Defined.

(** C5 fails as stated: with the strings [a], [b] under [ip_filter] in the
    DTO and the state under [ip_filter_object], [Flatten] returns the
    strings under [ip_filter] and nothing under [ip_filter_object]. *)
Lemma strings_stay_under_ip_filter :
  Sample.service.(GetOk) "pg_user_config.0.ip_filter_object"
  = (VList [VMap Sample.netB; VMap Sample.netA], true)
  ∧ Flatten Sample.ParseFloat "pg" Sample.root Sample.service
      {["ip_filter" := VList [VString "a"; VString "b"]]}
    = Ok [{["admin_password" := VString "secret123";
            "ip_filter" := VSet [VString "a"; VString "b"]]}].
Proof. split; vm_compute; reflexivity. Qed.

Lemma createOnly_carried_over_witness :
  ∃ tfo,
    Flatten Sample.ParseFloat "pg" Sample.root Sample.service
      {["name" := VString "db"]} = Ok [tfo]
    ∧ tfo !! "admin_password" = Some (VString "secret123").
Proof.
  pose (t := ({["admin_password" := VString "secret123";
                "name" := VString "db"]} : Obj)).
  assert (Flatten Sample.ParseFloat "pg" Sample.root Sample.service
            {["name" := VString "db"]} = Ok [t]) as H
    by (vm_compute; reflexivity).
  assert ("admin_password" ∈ createOnlyFields) as Hin
    by (unfold createOnlyFields; repeat constructor).
  assert (({["name" := VString "db"]} : Obj) !! "admin_password" = None)
    as Hdto by (vm_compute; reflexivity).
  destruct (createOnly_carried_over Sample.ParseFloat "pg" Sample.root
              Sample.service {["name" := VString "db"]} [t]
              Sample.fields "admin_password" Sample.str "secret123"
              eq_refl eq_refl eq_refl eq_refl Hin Hdto eq_refl H)
    as (tfo & Htree & Hk).
  inversion Htree; subst tfo. exists t. split; [exact H|exact Hk].
Defined.

Lemma createOnly_never_overwritten_witness :
  ∃ tfo,
    Flatten Sample.ParseFloat "pg" Sample.root Sample.service
      {["admin_password" := VString "from-the-api"]} = Ok [tfo]
    ∧ tfo !! "admin_password" = Some (VString "secret123").
Proof.
  pose (t := ({["admin_password" := VString "secret123"]} : Obj)).
  assert (Flatten Sample.ParseFloat "pg" Sample.root Sample.service
            {["admin_password" := VString "from-the-api"]} = Ok [t]) as H
    by (vm_compute; reflexivity).
  assert ("admin_password" ∈ createOnlyFields) as Hin
    by (unfold createOnlyFields; repeat constructor).
  assert (({["admin_password" := VString "from-the-api"]} : Obj)
            !! "admin_password" = Some (VString "from-the-api"))
    as Hdto by (vm_compute; reflexivity).
  destruct (createOnly_never_overwritten Sample.ParseFloat "pg" Sample.root
              Sample.service {["admin_password" := VString "from-the-api"]}
              [t] Sample.fields "admin_password" Sample.str "secret123"
              (VString "from-the-api")
              eq_refl eq_refl eq_refl eq_refl Hin Hdto eq_refl H)
    as (tfo & Htree & Hk).
  inversion Htree; subst tfo. exists t. split; [exact H|exact Hk].
Defined.

Lemma state_order_restored_witness :
  (assignAlias Sample.service "pg_user_config.0.ip_filter"
     {["ip_filter" := VList [VMap Sample.netA; VMap Sample.netB]]}
     "ip_filter" "network" !! "ip_filter_object"
   = Some (VList [VMap Sample.netB; VMap Sample.netA]))
  ∧ (∃ tfo,
       Flatten Sample.ParseFloat "pg" Sample.root Sample.service
         {["ip_filter" := VList [VMap Sample.netA; VMap Sample.netB]]}
       = Ok [tfo]
       ∧ tfo !! "ip_filter_object"
         = Some (VList [VMap Sample.netB; VMap Sample.netA]))
  ∧ ∃ tfo trule items tmap,
      Flatten Sample.ParseFloat "pg" (Sample.only "rules" Sample.rules)
        Sample.ruled
        {["rules" :=
            VList [VMap {["mapping" :=
                            VMap {["namespaces" :=
                                     VList [VMap Sample.nsA;
                                            VMap Sample.nsB]]}]}]]}
      = Ok [tfo]
      ∧ tfo !! "rules" = Some (VList (VMap trule :: items))
      ∧ trule !! "mapping" = Some (VList [VMap tmap])
      ∧ tmap !! "namespaces_object"
        = Some (VList [VMap Sample.nsB; VMap Sample.nsA]).
Proof.
  destruct (state_order_restored Sample.ParseFloat) as (Halias & Hip & Hns).
  assert ("a" ≠ "b") as Hab by discriminate.
  split; [|split].
  - refine (proj1 (Halias Sample.service "pg_user_config.0.ip_filter"
                     {["ip_filter" :=
                         VList [VMap Sample.netA; VMap Sample.netB]]}
                     "ip_filter" "network" "a" "b"
                     Sample.netA Sample.netB Sample.netA Sample.netB
                     Hab _ _ _ _ _ _ _));
      vm_compute; reflexivity.
  - pose (dto := ({["ip_filter" :=
                      VList [VMap Sample.netA; VMap Sample.netB]]} : Obj)).
    pose (t := ({["admin_password" := VString "secret123";
                  "ip_filter_object" :=
                    VList [VMap Sample.netB; VMap Sample.netA]]} : Obj)).
    assert (Flatten Sample.ParseFloat "pg" Sample.root Sample.service dto
            = Ok [t]) as H by (vm_compute; reflexivity).
    destruct (Hip "pg" Sample.root Sample.service dto [t] Sample.fields
                Sample.networks
                "a" "b" Sample.netA Sample.netB Sample.netA Sample.netB
                eq_refl eq_refl eq_refl Hab eq_refl eq_refl eq_refl eq_refl
                eq_refl eq_refl eq_refl H)
      as (tfo & v & Htree & Hv & Hk).
    inversion Htree; subst tfo. exists t. split; [exact H|].
    rewrite Hk. f_equal. vm_compute in Hv. by inversion Hv.
  - pose (inner := ({["namespaces" :=
                        VList [VMap Sample.nsA; VMap Sample.nsB]]} : Obj)).
    pose (rule := ({["mapping" := VMap inner]} : Obj)).
    pose (dto := ({["rules" := VList [VMap rule]]} : Obj)).
    pose (tree := [({["rules" :=
                        VList [VMap {["mapping" :=
                                        VList [VMap {["namespaces_object" :=
                                                        VList [VMap Sample.nsB;
                                                               VMap Sample.nsA]]}]]}]]}
                    : Obj)]).
    assert (Flatten Sample.ParseFloat "pg" (Sample.only "rules" Sample.rules)
              Sample.ruled dto = Ok tree) as H by (vm_compute; reflexivity).
    assert (dto !! "rules" = Some (VList [VMap rule])) as Hd
      by (vm_compute; reflexivity).
    assert (rule !! "mapping" = Some (VMap inner)) as Hr
      by (vm_compute; reflexivity).
    assert (inner !! "namespaces"
            = Some (VList [VMap Sample.nsA; VMap Sample.nsB])) as Hm
      by (vm_compute; reflexivity).
    assert (GetOk Sample.ruled
              (prefixOf "pg" +:+ "rules.0.mapping.0.namespaces_object")
            = (VList [VMap Sample.nsB; VMap Sample.nsA], true)) as Ho
      by (vm_compute; reflexivity).
    assert ((GetOk Sample.ruled
               (prefixOf "pg" +:+ "rules.0.mapping.0.namespaces_string")).2
            = false) as Hs by (vm_compute; reflexivity).
    destruct (Hns "pg" (Sample.only "rules" Sample.rules) Sample.ruled dto
                tree (FCons "rules" Sample.rules FNil) Sample.rules
                (FCons "mapping" Sample.mapping FNil) Sample.mapping
                (FCons "namespaces_string" Sample.strings
                   (FCons "namespaces_object" Sample.names FNil))
                Sample.names rule [] inner
                "a" "b" Sample.nsA Sample.nsB Sample.nsA Sample.nsB
                eq_refl eq_refl eq_refl eq_refl eq_refl eq_refl eq_refl
                eq_refl eq_refl eq_refl eq_refl Hab
                eq_refl eq_refl eq_refl eq_refl Ho Hs Hd Hr Hm H)
      as (tfo & trule & items & tmap & v & Htree & Hrules & Hmap & Hv & Hk).
    exists tfo, trule, items, tmap. rewrite <- Htree.
    split; [exact H|]. split; [exact Hrules|]. split; [exact Hmap|].
    rewrite Hk. f_equal. vm_compute in Hv. by inversion Hv.
Defined.

Ltac not_an_alias :=
  unfold ipFilterKeys;
  repeat (apply not_elem_of_cons; split; [done|]);
  apply not_elem_of_nil.

Ltac is_declared :=
  split; [not_an_alias|];
  split; [vm_compute; reflexivity|];
  split; [eexists; split; vm_compute; reflexivity|vm_compute; reflexivity].

Ltac is_not_sent :=
  first
    [ left; vm_compute; reflexivity
    | right; eexists; split; [vm_compute; reflexivity|];
      split; [vm_compute; reflexivity|];
      intros _; vm_compute; reflexivity ].

Ltac next_field Hf :=
  match type of Hf with
  | context [decide (?a = ?k)] =>
      destruct (decide (a = k)) as [<-|_]; [inversion Hf; subst; clear Hf|]
  end.

Lemma scalar_round_trip_witness :
  (∃ m t,
     expandObj Sample.Sprintf_v Sample.BigFloat_String
       (itemOf (Sample.block (CList [CObject {["timeout" := CString "5"]}]))
          0 (CObject {["timeout" := CString "5"]})) = Ok m
     ∧ m !! "timeout" = Some (VString "5")
     ∧ flattenObj Sample.ParseFloat (FCons "timeout" Sample.str FNil) m
       = Ok (Some t)
     ∧ t !! "timeout" = Some (VString "5"))
  ∧ (∃ dto,
       Expand Sample.Sprintf_v Sample.BigFloat_String "pg" Sample.root
         Sample.unchanged = Ok dto
       ∧ dto !! "name" = Some (VString "db")
       ∧ ∃ t, Flatten Sample.ParseFloat "pg" Sample.root Sample.unchanged dto
              = Ok [t]
              ∧ t !! "name" = Some (VString "db"))
  ∧ (∃ dto,
       Expand Sample.Sprintf_v Sample.BigFloat_String "pg"
         (Sample.only "port" Sample.int) Sample.ported = Ok dto
       ∧ dto !! "port" = Some (VInt 5432)
       ∧ ∃ t, Flatten Sample.ParseFloat "pg" (Sample.only "port" Sample.int)
                Sample.ported {["port" := VNumber "5432"]} = Ok [t]
              ∧ t !! "port" = Some (VInt 5432))
  ∧ Expand Sample.Sprintf_v Sample.BigFloat_String "pg" Sample.root
      Sample.naming = Ok {["name" := VString "db"]}
  ∧ Flatten Sample.ParseFloat "pg" Sample.root Sample.naming
      {["name" := VString "db"]} = Ok [{["name" := VString "db"]}].
Proof.
  destruct (scalar_round_trip Sample.Sprintf_v Sample.BigFloat_String
              Sample.ParseFloat) as (Hdeep & Htop & Hblock).
  split; [|split; [|split]].
  - pose (st := itemOf
                  (Sample.block (CList [CObject {["timeout" := CString "5"]}]))
                  0 (CObject {["timeout" := CString "5"]})).
    pose (m := ({["timeout" := VString "5"]} : Obj)).
    assert (expandObj Sample.Sprintf_v Sample.BigFloat_String st = Ok m)
      as H by (vm_compute; reflexivity).
    assert (flattenObj Sample.ParseFloat (FCons "timeout" Sample.str FNil) m
            = Ok (Some m)) as Ht by (vm_compute; reflexivity).
    assert (attrOf st "timeout" = Ok (CString "5")) as Ha
      by (vm_compute; reflexivity).
    assert (scalarOf Sample.str
              (Get (resource st) (path st +:+ "." +:+ "timeout")) = true)
      as Hs by (vm_compute; reflexivity).
    destruct (Hdeep st (FCons "timeout" Sample.str FNil) "timeout" Sample.str
                m eq_refl eq_refl eq_refl eq_refl
                (ex_intro _ (CString "5") (conj Ha eq_refl)) Hs H)
      as (Hk & Hback & _).
    destruct (Hback (or_introl eq_refl) (Some m) Ht) as (t & Hr & Htk).
    inversion Hr; subst t.
    exists m, m. split; [exact H|]. split; [|split; [exact Ht|]].
    + rewrite Hk. vm_compute. reflexivity.
    + rewrite Htk. vm_compute. reflexivity.
  - pose (dto := ({["name" := VString "db"; "pg" := VMap ∅]} : Obj)).
    pose (t := ({["name" := VString "db"; "pg" := VList []]} : Obj)).
    assert (Expand Sample.Sprintf_v Sample.BigFloat_String "pg" Sample.root
              Sample.unchanged = Ok dto) as H by (vm_compute; reflexivity).
    assert (Flatten Sample.ParseFloat "pg" Sample.root Sample.unchanged dto
            = Ok [t]) as Ht by (vm_compute; reflexivity).
    assert (rootConfig "pg" Sample.unchanged = Ok Sample.written) as Hc
      by (vm_compute; reflexivity).
    assert (declaredScalar "pg" Sample.root Sample.unchanged Sample.written
              "name" Sample.str) as Hd by is_declared.
    destruct (Htop "pg" Sample.root Sample.unchanged Sample.fields
                Sample.written "name" Sample.str dto
                eq_refl eq_refl eq_refl Hd Hc H)
      as (Hk & Hback & _).
    exists dto. split; [exact H|]. split; [exact Hk|].
    destruct (Hback (or_introl eq_refl) [t] Ht) as (t' & Htree & Htk).
    inversion Htree; subst t'. exists t. split; [exact Ht|exact Htk].
  - pose (dto := ({["port" := VInt 5432]} : Obj)).
    pose (t := ({["port" := VInt 5432]} : Obj)).
    assert (Expand Sample.Sprintf_v Sample.BigFloat_String "pg"
              (Sample.only "port" Sample.int) Sample.ported = Ok dto) as H
      by (vm_compute; reflexivity).
    assert (Flatten Sample.ParseFloat "pg" (Sample.only "port" Sample.int)
              Sample.ported {["port" := VNumber "5432"]} = Ok [t]) as Ht
      by (vm_compute; reflexivity).
    assert (rootConfig "pg" Sample.ported
            = Ok (CObject {["port" := CNumber (QArith_base.Qmake 5432 1)]}))
      as Hc by (vm_compute; reflexivity).
    assert (declaredScalar "pg" (Sample.only "port" Sample.int) Sample.ported
              (CObject {["port" := CNumber (QArith_base.Qmake 5432 1)]})
              "port" Sample.int) as Hd by is_declared.
    destruct (Htop "pg" (Sample.only "port" Sample.int) Sample.ported
                (FCons "port" Sample.int FNil)
                (CObject {["port" := CNumber (QArith_base.Qmake 5432 1)]})
                "port" Sample.int dto
                eq_refl eq_refl eq_refl Hd Hc H)
      as (Hk & _ & Hnumber).
    destruct (Hnumber (or_introl eq_refl)) as [_ Hjson].
    exists dto. split; [exact H|]. split; [exact Hk|].
    assert (parsesTo Sample.ParseFloat "5432"
              (Get Sample.ported (prefixOf "pg" +:+ "port"))) as Hn
      by (vm_compute; reflexivity).
    assert (({["port" := VNumber "5432"]} : Obj) !! "port"
            = Some (VNumber "5432")) as Hp by (vm_compute; reflexivity).
    destruct (Hjson "5432" {["port" := VNumber "5432"]} [t] Hn Hp Ht)
      as (t' & Htree & Htk).
    inversion Htree; subst t'. exists t. split; [exact Ht|exact Htk].
  - assert (rootConfig "pg" Sample.naming = Ok Sample.named) as Hc
      by (vm_compute; reflexivity).
    destruct (Hblock "pg" Sample.root Sample.naming Sample.fields
                Sample.named eq_refl eq_refl Hc)
      as (dto & H & _ & _ & Ht).
    + intros k sub Hf. simpl in Hf.
      repeat (next_field Hf;
              [first [left; split; [by left|is_declared]
                     |right; is_not_sent]|]).
      discriminate Hf.
    + intros k Hin Hok. exfalso.
      apply elem_of_cons in Hin as [->|Hin];
        [|apply list_elem_of_singleton in Hin as ->];
        vm_compute in Hok; discriminate Hok.
    + assert (Expand Sample.Sprintf_v Sample.BigFloat_String "pg" Sample.root
                Sample.naming = Ok {["name" := VString "db"]}) as H'
        by (vm_compute; reflexivity).
      rewrite H' in H. inversion H; subst dto. split; [exact H'|].
      rewrite Ht. vm_compute. reflexivity.
Defined.

(** C9 fails as stated: [Expand] sends the int of the state as a Go [int],
    and [Flatten], which takes numbers as [json.Number], panics on it. *)
Lemma int_does_not_round_trip :
  Expand Sample.Sprintf_v Sample.BigFloat_String "pg"
    (Sample.only "port" Sample.int)
    (Sample.data {["pg_user_config.0.port" := VInt 5432]} [] false
       (CObject {["port" := CNumber (QArith_base.Qmake 5432 1)]}))
  = Ok {["port" := VInt 5432]}
  ∧ Flatten Sample.ParseFloat "pg" (Sample.only "port" Sample.int)
      (Sample.data {["pg_user_config.0.port" := VInt 5432]} [] false
         (CObject {["port" := CNumber (QArith_base.Qmake 5432 1)]}))
      {["port" := VInt 5432]}
    = Panic.
Proof. split; vm_compute; reflexivity. Qed.

(** * Further properties of the converters *)

Scheme Schema_ind' := Induction for Schema Sort Prop
  with SchemaElem_ind' := Induction for SchemaElem Sort Prop
  with Fields_ind' := Induction for Fields Sort Prop.

Lemma properties_no_error s fs props e : properties s fs props ≠ Err e.
Proof.
  revert props. induction fs as [|k sub rest IH]; simpl; intros props; [done|].
  destruct (ForceNew sub && negb (IsNewResource (resource s))); [apply IH|].
  destruct (IsNull (config s)); simpl; [apply IH|].
  destruct (config s) as [| | | | | |attrs]; simpl; try done.
  destruct (attrs !! k); simpl; [apply IH|done].
Qed.

Lemma traverse_no_error {A B} (f : A → Res B) l e :
  (∀ x e', f x ≠ Err e') → traverse f l ≠ Err e.
Proof.
  intros Hf. induction l as [|x l IH]; simpl; [done|].
  destruct (f x) as [y| |] eqn:Hy; simpl; [|by apply Hf in Hy|done].
  destruct (traverse f l) as [ys| |]; simpl; [done|exact IH|done].
Qed.

Lemma appendItems_no_error (f : stateCompose → Res GoVal) states items e :
  (∀ st e', f st ≠ Err e') → appendItems f states items ≠ Err e.
Proof.
  intros Hf. revert items.
  induction states as [|st states IH]; simpl; intros items; [done|].
  destruct (f st) as [v| |] eqn:Hv; simpl; [by apply IH|by apply Hf in Hv|done].
Qed.

Section ExpandNeverFails.

Variable Sprintf_v : GoVal → string.
Variable BigFloat_String : QArith_base.Q → string.

#[local] Abbreviation expandAttrOf := (expandAttrOf Sprintf_v BigFloat_String).
#[local] Abbreviation expandProps := (expandProps Sprintf_v BigFloat_String).
#[local] Abbreviation expandAttr := (expandAttr Sprintf_v BigFloat_String).
#[local] Abbreviation expandObj := (expandObj Sprintf_v BigFloat_String).
#[local] Abbreviation setItems := (setItems Sprintf_v BigFloat_String).
#[local] Abbreviation Expand := (Expand Sprintf_v BigFloat_String).

Lemma setItems_no_error state e : setItems state ≠ Err e.
Proof.
  unfold setItems. destruct (IsNull (config state)); [done|].
  destruct (AsValueSlice (config state)) as [items| |] eqn:Hi; simpl;
    [|by destruct (config state)|done].
  destruct (traverse _ items) as [hs| |] eqn:Ht; simpl;
    [by destruct (value state)| |done].
  apply traverse_no_error in Ht; [done|]. intros c e'. by destruct c.
Qed.

Lemma listItems_no_error state e : listItems state ≠ Err e.
Proof.
  unfold listItems. destruct (IsNull (config state)); [done|].
  by destruct (config state).
Qed.

Lemma expand_no_error_rec :
  ∀ sch, ∀ state e, expandAttrOf sch state ≠ Err e.
Proof.
  apply (Schema_ind'
           (λ sch, ∀ state e, expandAttrOf sch state ≠ Err e)
           (λ el, ∀ res, el = ElemResource res →
                         ∀ props m e, expandProps res props m ≠ Err e)
           (λ fs, ∀ props m e, expandProps fs props m ≠ Err e)).
  - intros ty fn mi el IH state e.
    unfold expandAttrOf; fold expandAttrOf; fold expandProps.
    assert (expandScalar state ≠ Err e) as Hs
      by (unfold expandScalar; by destruct (hasValue state)).
    destruct ty; try done;
      (destruct (hasValue state && negb (hasChange state)); [done|]).
    + destruct (listItems state) as [states| |] eqn:Hl; simpl;
        [|by apply listItems_no_error in Hl|done].
      assert (∀ f, (∀ st e', f st ≠ Err e') →
                ∀ (k : list GoVal → Res GoVal), (∀ items, k items ≠ Err e) →
                bindR (appendItems f states []) k ≠ Err e) as Hloop.
      { intros f Hf k Hk.
        destruct (appendItems f states []) as [items| |] eqn:Ha; simpl;
          [apply Hk|by apply appendItems_no_error in Ha|done]. }
      destruct el as [|scalar|res].
      * apply Hloop; [|done]. intros st e'. unfold expandScalar.
        by destruct (hasValue st).
      * apply Hloop; [|done]. intros st e'. unfold expandScalar.
        by destruct (hasValue st).
      * apply Hloop.
        -- intros st e'. unfold objectProperties.
           destruct (Elem (schema st)); simpl; try done.
           destruct (properties st res0 ∅) as [props| |] eqn:Hp; simpl;
             [|by apply properties_no_error in Hp|done].
           destruct (expandProps res props ∅) as [m| |] eqn:Hm; simpl;
             [done|by apply (IH res eq_refl) in Hm|done].
        -- intros items. destruct (mi =? 1)%Z; [|done].
           by destruct items as [|? [|? ?]].
    + destruct (setItems state) as [l| |] eqn:Hl; simpl;
        [done|by apply setItems_no_error in Hl|done].
  - done.
  - done.
  - intros res IH res' [= <-]. exact IH.
  - done.
  - intros k sub IHs rest IHr props m e. simpl.
    destruct (props !! k) as [p|]; [|apply IHr].
    destruct (expandAttrOf sub p) as [v| |] eqn:Hv;
      [|by apply IHs in Hv|done].
    destruct v; apply IHr.
Qed.

Lemma expandObj_no_error state e : expandObj state ≠ Err e.
Proof.
  unfold expandObj, objectProperties.
  destruct (Elem (schema state)) as [| |res] eqn:He; simpl; try done.
  destruct (properties state res ∅) as [props| |] eqn:Hp; simpl;
    [|by apply properties_no_error in Hp|done].
  clear He Hp. revert props. generalize (∅ : Obj).
  induction res as [|k sub rest IH]; simpl; intros m props; [done|].
  destruct (props !! k) as [p|]; [|apply IH].
  destruct (expandAttrOf sub p) as [v| |] eqn:Hv;
    [|by apply expand_no_error_rec in Hv|done].
  destruct v; apply IH.
Qed.

(** X1.  [Expand] never returns an error: whatever the schema, the
    configuration and the state, it returns a DTO or panics.  The same holds
    for [expandAttr] and [expandObj]; their error results are never
    produced. *)
Theorem Expand_no_error kind s d state e :
  Expand kind s d ≠ Err e
  ∧ expandObj state ≠ Err e
  ∧ expandAttr state ≠ Err e.
Proof.
  split; [|split].
  - unfold Expand.
    destruct (GetAttr (GetRawConfig d) (kind +:+ userConfigSuffix))
      as [attr| |] eqn:Ha; simpl;
      [|destruct (GetRawConfig d) as [| | | | | |attrs]; simpl in Ha;
        try done; by destruct (attrs !! _)|done].
    destruct (AsValueSlice attr) as [configs| |] eqn:Hc; simpl;
      [|by destruct attr|done].
    match goal with
    | |- bindR ?x _ ≠ _ => destruct x as [dto| |] eqn:Hx
    end; simpl; [done|by apply expandObj_no_error in Hx|done].
  - apply expandObj_no_error.
  - apply expand_no_error_rec.
Qed.

End ExpandNeverFails.

Section FlattenFurther.

Variable ParseFloat : string → option float64.

#[local] Abbreviation flattenAttr := (flattenAttr ParseFloat).
#[local] Abbreviation flattenFields := (flattenFields ParseFloat).
#[local] Abbreviation flattenObj := (flattenObj ParseFloat).
#[local] Abbreviation flattenList := (flattenList ParseFloat).
#[local] Abbreviation Flatten := (Flatten ParseFloat).

Lemma flattenFields_error fs dto t0 e :
  flattenFields fs dto t0 = Err e →
  ∃ k sub vv e',
    e = ErrField k e' ∧ hasField fs k sub
    ∧ dto !! k = Some vv ∧ vv ≠ VNil ∧ flattenAttr sub vv = Err e'.
Proof.
  revert t0. induction fs as [|k sub rest IH]; simpl; intros t0 H; [done|].
  assert (∀ t1, flattenFields rest dto t1 = Err e →
            ∃ k0 sub0 vv e',
              e = ErrField k0 e'
              ∧ (k = k0 ∧ sub = sub0 ∨ hasField rest k0 sub0)
              ∧ dto !! k0 = Some vv ∧ vv ≠ VNil
              ∧ flattenAttr sub0 vv = Err e') as Hrest.
  { intros t1 H1. destruct (IH _ H1) as (k0 & sub0 & vv & e' & -> & Hin & Hvv).
    exists k0, sub0, vv, e'. split; [done|]. split; [by right|done]. }
  destruct (dto !! k) as [vv|] eqn:Hd; [|by eauto].
  assert (vv = VNil ∨ vv ≠ VNil) as [->|Hvv] by (destruct vv; auto).
  { by eauto. }
  destruct (flattenAttr sub vv) as [v|e1|] eqn:Hv.
  - destruct vv; try done; destruct v; by eauto.
  - exists k, sub, vv, e1. split; [by destruct vv; inversion H|].
    split; [by left|done].
  - by destruct vv.
Qed.

Lemma hasField_field fs k sub :
  NoDup (keys fs) → hasField fs k sub → field fs k = Some sub.
Proof.
  induction fs as [|k' s rest IH]; simpl; intros Hnd H; [done|].
  apply NoDup_cons in Hnd as [Hk Hnd].
  destruct H as [[-> ->]|H]; [by rewrite decide_True|].
  rewrite decide_False; [by apply IH|].
  intros ->. apply Hk. clear -H.
  induction rest as [|k' s rest IH]; simpl in *; [done|].
  destruct H as [[-> _]|H]; [by left|right; auto].
Qed.

Lemma aliasNamespaces_no_error kind d dto e :
  aliasNamespaces kind d dto ≠ Err e.
Proof.
  unfold aliasNamespaces. by destruct (drillKey dto _) as [[]|].
Qed.

(** X2.  An error that [Flatten] returns is the conversion error of a
    field: the schema has a field, the DTO as [Flatten] prepared it (aliases
    assigned, create-only values copied) has a value other than null under
    its key, [flattenAttr] of the schema of the field fails on that value,
    and the error returned is that failure wrapped with the key.  For a key
    that is neither [ip_filter] or one of its aliases, nor [rules], nor
    create-only, the value is the one that the DTO given to [Flatten]
    has. *)
Theorem Flatten_error_names_field kind s d dto e :
  Flatten kind s d dto = Err e →
  ∃ r dto' k sub vv e',
    Elem s = ElemResource r
    ∧ aliasNamespaces kind d (aliasIpFilter kind d dto) = Ok dto'
    ∧ hasField r k sub
    ∧ (uniq r = true → field r k = Some sub)
    ∧ copyCreateOnly kind d dto' !! k = Some vv
    ∧ vv ≠ VNil
    ∧ flattenAttr sub vv = Err e'
    ∧ e = ErrField k e'
    ∧ (k ∉ ipFilterKeys → k ≠ "rules" → k ∉ createOnlyFields →
       dto !! k = Some vv).
Proof.
  rewrite Flatten_steps. intros H.
  destruct (aliasNamespaces kind d (aliasIpFilter kind d dto))
    as [dto'| |] eqn:Hns; simpl in H;
    [|by apply aliasNamespaces_no_error in Hns|done].
  destruct (Elem s) as [| |r]; try done.
  unfold flattenObj in H.
  destruct (flattenFields r (copyCreateOnly kind d dto') ∅) as [t|e0|] eqn:Hf;
    simpl in H; [done| |done].
  inversion H; subst e0.
  destruct (flattenFields_error _ _ _ _ Hf)
    as (k & sub & vv & e' & -> & Hin & Hvv & Hne & He').
  exists r, dto', k, sub, vv, e'. repeat split; try done.
  - intros Hu. apply hasField_field; [by apply uniq_NoDup|done].
  - intros Hip Hr Hc. rewrite copyCreateOnly_other in Hvv by done.
    rewrite (aliasNamespaces_other _ _ _ _ _ Hns Hr) in Hvv.
    by rewrite aliasIpFilter_other in Hvv.
Qed.

Lemma flattenFields_dom fs dto t0 t k :
  flattenFields fs dto t0 = Ok t →
  is_Some (t !! k)
  ↔ is_Some (t0 !! k)
    ∨ (k ∈ keys fs ∧ ∃ vv, dto !! k = Some vv ∧ vv ≠ VNil).
Proof.
  revert t0. induction fs as [|k' sub rest IH]; intros t0 H.
  - inversion H; subst. simpl. split; [by left|].
    intros [?|[Hin _]]; [done|]. by apply elem_of_nil in Hin.
  - apply flattenFields_cons in H as (t1 & H & Ht1).
    rewrite (IH _ H). simpl. rewrite elem_of_cons.
    destruct (dto !! k') as [vv'|] eqn:Hd.
    + assert (vv' = VNil ∨ vv' ≠ VNil) as [->|Hvv] by (destruct vv'; auto).
      * subst t1. split; [tauto|].
        intros [?|[[->|?] Hx]]; [by left| |by right].
        destruct Hx as (vv & Hvv & Hne). congruence.
      * assert (∃ v, t1 = <[k' := v]> t0) as [v ->]
          by (destruct vv'; try done; destruct Ht1 as (v & _ & ->); eauto).
        destruct (decide (k' = k)) as [->|Hne].
        -- rewrite lookup_insert_eq. split; [|by left; eexists].
           intros _. right. split; [by left|]. by exists vv'.
        -- rewrite lookup_insert_ne by done. split; [tauto|].
           intros [?|[[->|?] ?]]; [tauto|done|tauto].
    + subst t1. split; [tauto|].
      intros [?|[[->|?] Hx]]; [by left| |by right].
      destruct Hx as (vv & Hvv & Hne). congruence.
Qed.

(** X3.  The object that [flattenObj] returns has exactly the keys of the
    schema for which the DTO has a value other than null, and is never an
    empty map; [flattenObj] returns nil exactly when the DTO has no such
    value.  Keys of the DTO that the schema does not have are dropped. *)
Theorem flattenObj_keys fs dto r :
  flattenObj fs dto = Ok r →
  match r with
  | Some t =>
      t ≠ ∅
      ∧ ∀ k, is_Some (t !! k)
             ↔ k ∈ keys fs ∧ ∃ vv, dto !! k = Some vv ∧ vv ≠ VNil
  | None =>
      ∀ k, k ∈ keys fs → dto !! k = None ∨ dto !! k = Some VNil
  end.
Proof.
  unfold flattenObj. intros H. inv_bind H. rename a into t.
  assert (∀ k, is_Some (t !! k)
               ↔ k ∈ keys fs ∧ ∃ vv, dto !! k = Some vv ∧ vv ≠ VNil) as Hdom.
  { intros k. rewrite (flattenFields_dom _ _ _ _ k Ha), lookup_empty.
    split; [|by right]. intros [[x Hx]|Hk]; [done|exact Hk]. }
  destruct (decide (size t = 0)) as [Hz|Hnz]; inversion H; subst r.
  - apply map_size_empty_inv in Hz. subst t. intros k Hin.
    destruct (dto !! k) as [vv|] eqn:Hd; [|by left]. right. f_equal.
    assert (vv = VNil ∨ vv ≠ VNil) as [|Hne] by (destruct vv; auto); [done|].
    destruct (proj2 (Hdom k)) as [x Hx]; [by eauto|].
    by rewrite lookup_empty in Hx.
  - split; [|exact Hdom]. intros ->. by rewrite map_size_empty in Hnz.
Qed.

(** X4.  What [Flatten] returns is nil or a list with exactly one object;
    that object is not empty and all its keys are fields of the schema. *)
Theorem Flatten_one_object kind s d dto tree :
  Flatten kind s d dto = Ok tree →
  ∃ r, Elem s = ElemResource r
       ∧ (tree = []
          ∨ ∃ t, tree = [t] ∧ t ≠ ∅ ∧ ∀ k, is_Some (t !! k) → k ∈ keys r).
Proof.
  rewrite Flatten_steps. intros H. inv_bind H. rename a into dto'.
  destruct (Elem s) as [| |r]; try done. exists r. split; [done|].
  inv_bind H. inversion H; subst tree.
  pose proof (flattenObj_keys _ _ _ Ha0) as Hk.
  destruct a as [t|]; [right|by left].
  destruct Hk as [Hne Hdom]. exists t. split; [done|]. split; [done|].
  intros k Hs. by apply Hdom in Hs as [Hin _].
Qed.

Lemma flattenItems_objects (f : Obj → Res (option Obj)) lst items out :
  (∀ o t, f o = Ok (Some t) → t ≠ ∅) →
  flattenItems f lst items = Ok out →
  ∃ new, out = (items ++ new)%list
         ∧ (length new ≤ length lst)%nat
         ∧ Forall (λ v, ∃ t, v = VMap t ∧ t ≠ ∅) new
         ∧ Forall (λ v, ∃ o, v = VMap o) lst.
Proof.
  intros Hf. revert items.
  induction lst as [|item rest IH]; simpl; intros items H.
  - inversion H; subst. exists []. by rewrite app_nil_r.
  - destruct item as [| | | | | | |o|]; try done.
    inv_bind H. destruct (IH _ H) as (new & -> & Hlen & Hnew & Hrest).
    destruct a as [t|].
    + exists (VMap t :: new). rewrite <- app_assoc. split; [done|].
      split; [simpl; lia|]. split.
      * constructor; [|done]. exists t. split; [done|]. by eapply Hf.
      * constructor; [by eexists|done].
    + exists new. split; [done|]. split; [simpl; lia|]. split; [done|].
      constructor; [by eexists|done].
Qed.

(** X5.  Where the schema declares objects, what [flattenAttr] returns for
    an array is a list of objects, none of them empty, at most as many as
    the array has elements; it returns only when every element of the array
    is an object.  For a single object it returns a list with at most one
    element. *)
Theorem flattenAttr_list_of_objects s res data v :
  match sType s with
  | TypeString | TypeBool | TypeInt | TypeFloat => False
  | _ => True
  end →
  Elem s = ElemResource res →
  flattenAttr s data = Ok v →
  ∃ items,
    v = VList items
    ∧ Forall (λ x, ∃ t, x = VMap t ∧ t ≠ ∅) items
    ∧ match data with
      | VList l =>
          (length items ≤ length l)%nat ∧ Forall (λ x, ∃ o, x = VMap o) l
      | VMap _ => (length items ≤ 1)%nat
      | _ => False
      end.
Proof.
  intros Hty He H. rewrite (flattenAttr_objects _ _ _ _ Hty He) in H.
  inv_bind H. rename a into lst. unfold mapR in H. inv_bind H.
  inversion H; subst v. exists a. split; [done|].
  assert (∃ new, a = new ∧ (length new ≤ length lst)%nat
                 ∧ Forall (λ x, ∃ t, x = VMap t ∧ t ≠ ∅) new
                 ∧ Forall (λ x, ∃ o, x = VMap o) lst)
    as (new & -> & Hlen & Hnew & Hlst).
  { unfold flattenList in Ha0. destruct lst as [|x lst].
    - inversion Ha0; subst. exists []. by repeat split.
    - apply flattenItems_objects in Ha0 as (new & -> & ?); [by eauto|].
      intros o t Ht. by apply flattenObj_Some in Ht as [_ Hne]. }
  split; [done|].
  destruct data as [| | | | | |l|o|]; try done.
  - by inversion Ha; subst.
  - destruct (decide (size o = 0)); inversion Ha; subst lst; simpl in Hlen; lia.
Qed.

(** X6.  A create-only field that the state does not have keeps the value
    of the DTO: only a value that the state has replaces it. *)
Theorem createOnly_unset_keeps_dto kind s d dto tree r k sub x :
  Elem s = ElemResource r → uniq r = true →
  field r k = Some sub → sType sub = TypeString →
  k ∈ createOnlyFields →
  (GetOk d (prefixOf kind +:+ k)).2 = false →
  dto !! k = Some (VString x) →
  Flatten kind s d dto = Ok tree →
  ∃ tfo, tree = [tfo] ∧ tfo !! k = Some (VString x).
Proof.
  intros He Hu Hf Hty Hk Hv Hd H.
  destruct (Flatten_field _ _ _ _ _ _ _ He Hu H)
    as (dto' & t & Hns & -> & _ & Hr).
  specialize (Hr k sub Hf).
  assert (k ≠ "ip_filter" ∧ k ≠ "rules"
          ∧ k ≠ "ip_filter_string" ∧ k ≠ "ip_filter_object")
    as (H1 & H2 & H3 & H4).
  { unfold createOnlyFields in Hk.
    apply elem_of_cons in Hk as [->|Hk];
      [|apply list_elem_of_singleton in Hk as ->]; done. }
  assert (aliasIpFilter kind d dto !! k = Some (VString x)) as Hip.
  { unfold aliasIpFilter, assignAlias, index.
    destruct (decide (is_Some _)); [|done].
    destruct (dto !! "ip_filter") as [[| | | | | |values| |]|]; try done.
    destruct values as [|first rest]; [done|].
    assert (k ≠ "ip_filter" +:+ "_string" ∧ k ≠ "ip_filter" +:+ "_object")
      as [H3' H4'] by done.
    destruct (GetOk d ((prefixOf kind +:+ "ip_filter") +:+ "_string"))
      as [vs [|]];
      destruct (GetOk d ((prefixOf kind +:+ "ip_filter") +:+ "_object"))
        as [vo [|]];
      destruct first; simpl; try done;
      by rewrite ?lookup_delete_ne, ?lookup_insert_ne by done. }
  rewrite copyCreateOnly_unset in Hr by done.
  rewrite (aliasNamespaces_other _ _ _ _ _ Hns H2), Hip in Hr.
  destruct Hr as (v & Hv' & Ht).
  destruct sub as [ty fn mi e]. simpl in Hty. subst ty.
  simpl in Hv'. inversion Hv'; subst v.
  exists t. split; [|done].
  destruct (decide (size t = 0)) as [Hz|]; [|done].
  by apply lookup_Some_size in Ht.
Qed.

End FlattenFurther.

Lemma traverse_Forall2 {A B} (f : A → Res B) l ys :
  traverse f l = Ok ys ↔ Forall2 (λ x y, f x = Ok y) l ys.
Proof.
  revert ys. induction l as [|x l IH]; simpl; intros ys.
  - split; [intros [= <-]; constructor|by inversion 1].
  - split.
    + intros H. inv_bind H. inv_bind H. inversion H; subst ys.
      constructor; [done|by apply IH].
    + inversion 1 as [|? y ? ys' Hy Hys]; subst. rewrite Hy. simpl.
      apply IH in Hys. by rewrite Hys.
Qed.

Lemma properties_null s fs props0 :
  IsNull (config s) = true →
  ∃ props, properties s fs props0 = Ok props
           ∧ ∀ k p, props !! k = Some p →
                    props0 !! k = Some p ∨ IsNull (config p) = true.
Proof.
  intros Hn. revert props0.
  induction fs as [|k sub rest IH]; simpl; intros props0.
  - exists props0. by eauto.
  - destruct (ForceNew sub && negb (IsNewResource (resource s))); [apply IH|].
    rewrite Hn. simpl.
    destruct (IH (<[k := {| key := k; path := path s +:+ "." +:+ k;
                            schema := sub; config := CNilVal;
                            resource := resource s |}]> props0))
      as (props & Hp & Hall).
    exists props. split; [done|]. intros k' p Hk'.
    destruct (Hall k' p Hk') as [Hin|]; [|by right].
    destruct (decide (k = k')) as [->|Hne].
    + rewrite lookup_insert_eq in Hin. inversion Hin; subst p. by right.
    + rewrite lookup_insert_ne in Hin by done. by left.
Qed.

Section ExpandFurther.

Variable Sprintf_v : GoVal → string.
Variable BigFloat_String : QArith_base.Q → string.

#[local] Abbreviation expandAttrOf := (expandAttrOf Sprintf_v BigFloat_String).
#[local] Abbreviation expandProps := (expandProps Sprintf_v BigFloat_String).
#[local] Abbreviation expandAttr := (expandAttr Sprintf_v BigFloat_String).
#[local] Abbreviation expandObj := (expandObj Sprintf_v BigFloat_String).
#[local] Abbreviation setItems := (setItems Sprintf_v BigFloat_String).

Lemma expandAttrOf_null_config sch state :
  IsNull (config state) = true →
  expandAttrOf sch state
  = Ok (if clears sch && hasChange state then VList [] else VNil).
Proof.
  intros Hn. destruct sch as [ty fn mi e].
  unfold expandAttrOf; fold expandAttrOf; fold expandProps.
  unfold expandScalar, hasValue, setItems, listItems, mapR, clears.
  rewrite Hn. simpl.
  destruct ty; simpl; try done; destruct (hasChange state); simpl; try done;
    destruct e; simpl; try done; by destruct (mi =? 1)%Z.
Qed.

Lemma expandProps_null fs props m0 :
  (∀ k p, props !! k = Some p → IsNull (config p) = true) →
  ∃ m, expandProps fs props m0 = Ok m.
Proof.
  intros Hn. revert m0. induction fs as [|k sub rest IH]; simpl; intros m0.
  - by eexists.
  - destruct (props !! k) as [p|] eqn:Hp; [|apply IH].
    rewrite (expandAttrOf_null_config _ _ (Hn _ _ Hp)).
    destruct (clears sub && hasChange p); apply IH.
Qed.

(** X7.  When the configuration of an object is null (the user configuration
    block is absent), [expandObj] returns a DTO, and the DTO has exactly the
    sets and the lists, other than singleton objects, that have changed,
    each with an empty array; no scalar and no singleton object is sent. *)
Theorem null_config_clears_changed_lists state res :
  IsNull (config state) = true →
  Elem (schema state) = ElemResource res → uniq res = true →
  ∃ m, expandObj state = Ok m
       ∧ (∀ k sub, field res k = Some sub →
            m !! k
            = if negb (ForceNew sub && negb (IsNewResource (resource state)))
                 && clears sub
                 && HasChange (resource state) (path state +:+ "." +:+ k)
              then Some (VList []) else None)
       ∧ (∀ k, k ∉ keys res → m !! k = None).
Proof.
  intros Hn He Hu.
  destruct (properties_null state res ∅ Hn) as (props & Hp & Hall).
  destruct (expandProps_null res props ∅) as [m Hm].
  { intros k p Hk. destruct (Hall k p Hk) as [Hin|]; [|done].
    by rewrite lookup_empty in Hin. }
  assert (expandObj state = Ok m) as Hobj.
  { unfold expandObj, objectProperties. by rewrite He, Hp. }
  exists m. split; [done|]. split.
  - intros k sub Hf.
    pose proof (expandObj_field _ _ _ _ _ _ _ He Hu Hf Hobj) as Hk.
    destruct (ForceNew sub && negb (IsNewResource (resource state)));
      [done|].
    destruct Hk as (cfg & v & Hc & Hv & ->).
    unfold attrOf in Hc. rewrite Hn in Hc. inversion Hc; subst cfg.
    unfold expandAttr in Hv. rewrite expandAttrOf_null_config in Hv by done.
    inversion Hv; subst v. simpl. unfold hasChange. simpl.
    by destruct (clears sub && HasChange _ _).
  - intros k Hk. rewrite (expandProps_other _ _ _ _ _ _ _ Hm Hk).
    apply lookup_empty.
Qed.

Lemma expandProps_values fs props m0 m k v :
  expandProps fs props m0 = Ok m → m !! k = Some v →
  m0 !! k = Some v ∨ (k ∈ keys fs ∧ v ≠ VNil ∧ is_Some (props !! k)).
Proof.
  revert m0. induction fs as [|k' sub rest IH]; simpl; intros m0 H Hk.
  - inversion H; subst. by left.
  - assert (∀ m1, expandProps rest props m1 = Ok m →
              (m1 !! k = Some v →
               m0 !! k = Some v
               ∨ (k ∈ k' :: keys rest ∧ v ≠ VNil ∧ is_Some (props !! k))) →
              m0 !! k = Some v
              ∨ (k ∈ k' :: keys rest ∧ v ≠ VNil ∧ is_Some (props !! k)))
      as Hstep.
    { intros m1 H1 Hm1. destruct (IH _ H1 Hk) as [Hin|(Hin & Hv & Hp)];
        [by apply Hm1|]. right. split; [by right|done]. }
    destruct (props !! k') as [p|] eqn:Hp; [|by apply (Hstep m0); auto].
    destruct (expandAttrOf sub p) as [x| |]; try done.
    assert (x = VNil ∨ x ≠ VNil) as [->|Hx] by (destruct x; auto).
    { by apply (Hstep m0); auto. }
    apply (Hstep (<[k' := x]> m0)); [by destruct x|].
    destruct (decide (k' = k)) as [->|Hne].
    + rewrite lookup_insert_eq. intros [= <-]. right.
      split; [by left|]. split; [done|]. by rewrite Hp.
    + rewrite lookup_insert_ne by done. by left.
Qed.

(** X8.  Every key of the DTO that [expandObj] returns is a field of the
    schema, and no value under a key is nil: [expandObj] sends no null. *)
Theorem expandObj_keys state res m k v :
  Elem (schema state) = ElemResource res →
  expandObj state = Ok m → m !! k = Some v →
  k ∈ keys res ∧ v ≠ VNil.
Proof.
  intros He H Hk. unfold expandObj in H. rewrite He in H. inv_bind H.
  destruct (expandProps_values _ _ _ _ _ _ H Hk) as [Hin|(Hin & Hv & _)];
    [by rewrite lookup_empty in Hin|done].
Qed.

(** X9.  For a list of objects with at least one declared element, what
    [expandAttr] returns has one object for each declared element, in the
    order of the configuration, each the [expandObj] of its element: no
    element is dropped.  The array is replaced by its only object when
    [MaxItems] is 1 and one element is declared. *)
Theorem expandAttr_one_object_per_element state res cs v :
  sType (schema state) = TypeList →
  Elem (schema state) = ElemResource res →
  config state = CList cs → cs ≠ [] →
  expandAttr state = Ok v →
  ∃ ms, Forall2 (λ st m, expandObj st = Ok m) (imap (itemOf state) cs) ms
        ∧ v = if (MaxItems (schema state) =? 1)%Z
              then match ms with
                   | [m] => VMap m
                   | _ => VList (VMap <$> ms)
                   end
              else VList (VMap <$> ms).
Proof.
  intros Hty He Hc Hne H.
  rewrite (expandAttr_list_of_objects _ _ _ _ Hty He) in H
    by (unfold hasValue; rewrite Hc; by destruct cs).
  unfold listItems in H. rewrite Hc in H. cbn [IsNull AsValueSlice bindR] in H.
  change (imap _ cs) with (imap (itemOf state) cs) in H.
  rewrite appendItems_objects in H. unfold mapR in H.
  inv_bind H. inv_bind Ha. inversion Ha; subst a. rename a0 into ms.
  apply traverse_Forall2 in Ha0. exists ms. split; [done|].
  assert (ms ≠ []) as Hms.
  { apply Forall2_length in Ha0. rewrite length_imap in Ha0.
    destruct ms; [|done]. by destruct cs. }
  simpl in H. destruct (MaxItems (schema state) =? 1)%Z.
  - destruct ms as [|m [|m' ms]]; [done|..]; by inversion H.
  - by inversion H.
Qed.

Lemma appendItems_scalars states items :
  appendItems expandScalar states items
  = Ok (items ++ omap sent states)%list.
Proof.
  revert items. induction states as [|st states IH]; simpl; intros items.
  - by rewrite app_nil_r.
  - unfold expandScalar at 1. unfold sent at 1.
    destruct (hasValue st); simpl; [by rewrite IH|].
    destruct (value st); rewrite IH; try done; by rewrite <- app_assoc.
Qed.

(** X10.  For a list of scalars with at least one declared element,
    [expandAttr] returns, in the order of the configuration, the value that
    the state has at the path of each element that the configuration has;
    the elements that are null in the configuration are left out. *)
Theorem expandAttr_list_of_scalars state cs :
  sType (schema state) = TypeList →
  (∀ res, Elem (schema state) ≠ ElemResource res) →
  config state = CList cs → cs ≠ [] →
  expandAttr state = Ok (VList (omap sent (imap (itemOf state) cs))).
Proof.
  intros Hty He Hc Hne. unfold expandAttr.
  destruct (schema state) as [ty fn mi e] eqn:Hs. simpl in Hty, He. subst ty.
  unfold expandAttrOf; fold expandAttrOf; fold expandProps.
  assert (hasValue state = false) as ->
    by (unfold hasValue; rewrite Hc; by destruct cs).
  unfold listItems. rewrite Hc. cbn [IsNull AsValueSlice bindR andb].
  change (imap _ cs) with (imap (itemOf state) cs).
  destruct e as [|scalar|res]; [| |by destruct (He res)];
    by rewrite appendItems_scalars.
Qed.

(** X11.  A scalar field that the configuration has is sent with the value
    of the state, changed or not, and whatever the value: the zero value of
    its kind is sent like any other. *)
Theorem declared_scalar_sent state res k sub cfg m :
  Elem (schema state) = ElemResource res → uniq res = true →
  field res k = Some sub →
  sType sub ≠ TypeList → sType sub ≠ TypeSet →
  ForceNew sub && negb (IsNewResource (resource state)) = false →
  attrOf state k = Ok cfg →
  hasValue (propOf state k sub cfg) = false →
  expandObj state = Ok m →
  m !! k = match Get (resource state) (path state +:+ "." +:+ k) with
           | VNil => None
           | v => Some v
           end.
Proof.
  intros He Hu Hf Hl Hs Hfn Hc Hv H.
  pose proof (expandObj_field _ _ _ _ _ _ _ He Hu Hf H) as Hk.
  rewrite Hfn in Hk. destruct Hk as (cfg' & v & Hc' & Hx & ->).
  rewrite Hc in Hc'. inversion Hc'; subst cfg'.
  unfold expandAttr in Hx. cbn [schema propOf] in Hx.
  destruct sub as [ty fn mi e]. simpl in Hl, Hs.
  unfold expandAttrOf in Hx; fold expandAttrOf in Hx.
  unfold expandScalar in Hx. rewrite Hv in Hx.
  destruct ty; try done; inversion Hx; unfold value; simpl;
    by destruct (Get (resource state) (path state +:+ "." +:+ k)).
Qed.

(** X12.  When the configuration of a set is not null, [setItems] returns
    values of the set that the state has, in the order of the state: exactly
    those whose text is the text of an element of the configuration. *)
Theorem setItems_in_state_and_config state l :
  IsNull (config state) = false →
  setItems state = Ok l →
  ∃ items sl,
    AsValueSlice (config state) = Ok items
    ∧ value state = VSet sl
    ∧ sublist l sl
    ∧ ∀ v, v ∈ l
           ↔ v ∈ sl ∧ ∃ item, item ∈ items
                              ∧ hashOf BigFloat_String item = Ok (Sprintf_v v).
Proof.
  intros Hn H. unfold setItems in H. rewrite Hn in H.
  inv_bind H. rename a into items. inv_bind H. rename a into hashes.
  destruct (value state) as [| | | | | | | |sl] eqn:Hv; try done.
  inversion H; subst l. exists items, sl. split; [done|]. split; [done|].
  split; [apply sublist_filter|].
  apply traverse_Forall2 in Ha0. intros v. rewrite list_elem_of_filter.
  split.
  - intros [Hh Hin]. split; [done|].
    apply list_elem_of_lookup in Hh as [i Hi].
    destruct (Forall2_lookup_r _ _ _ _ _ Ha0 Hi) as (item & Hitem & Hhash).
    exists item. split; [|done]. by eapply list_elem_of_lookup_2.
  - intros [Hin (item & Hitem & Hhash)]. split; [|done].
    apply list_elem_of_lookup in Hitem as [i Hi].
    destruct (Forall2_lookup_l _ _ _ _ _ Ha0 Hi) as (h & Hh & Hhash').
    rewrite Hhash in Hhash'. inversion Hhash'; subst h.
    by eapply list_elem_of_lookup_2.
Qed.

End ExpandFurther.

(** X13.  [assignAlias] touches three keys only: every key of the DTO other
    than the name and its two aliases keeps its value. *)
Theorem assignAlias_other_keys d path (dto : Obj) key sortBy k :
  k ≠ key → k ≠ key +:+ "_string" → k ≠ key +:+ "_object" →
  assignAlias d path dto key sortBy !! k = dto !! k.
Proof.
  intros H0 H1 H2. unfold assignAlias, index.
  destruct (dto !! key) as [[| | | | | |values| |]|]; try done.
  destruct values as [|first rest]; [done|].
  destruct (GetOk d (path +:+ "_string")) as [vs [|]];
    destruct (GetOk d (path +:+ "_object")) as [vo [|]];
    destruct first; simpl; try done;
    by rewrite ?lookup_delete_ne, ?lookup_insert_ne by done.
Qed.

Lemma assignAlias_string d path (dto : Obj) sortBy first rest :
  dto !! "ip_filter" = Some (VList (first :: rest)) →
  (GetOk d (path +:+ "_string")).2 = true →
  assignAlias d path dto "ip_filter" sortBy !! "ip_filter" = None
  ∧ ∃ w, assignAlias d path dto "ip_filter" sortBy !! "ip_filter_string"
         = Some w
         ∧ ((∀ o, first ≠ VMap o) → w = VList (first :: rest))
         ∧ ∃ l, w = VList l.
Proof.
  intros Hd Hs. unfold assignAlias, index. rewrite Hd, Hs.
  assert (∀ w (dto1 : Obj),
            delete "ip_filter" (<["ip_filter_string" := w]> dto1)
                    !! "ip_filter" = None
                    ∧ delete "ip_filter" (<["ip_filter_string" := w]> dto1)
                      !! "ip_filter_string" = Some w) as Hk.
  { intros w dto1. rewrite lookup_delete_eq, lookup_delete_ne by done.
    by rewrite lookup_insert_eq. }
  destruct first as [| | | | | | |o|];
    try (simpl; rewrite Hd; split; [apply Hk|];
         eexists; split; [apply Hk|]; split; [done|by eexists]).
  destruct (GetOk d (path +:+ "_object")) as [vo [|]]; simpl.
  - rewrite lookup_insert_eq. split; [apply Hk|].
    eexists. split; [apply Hk|]. split; [intros Ho; by destruct (Ho o)|].
    unfold sortByKey. destruct vo; by eexists.
  - rewrite Hd. split; [apply Hk|].
    eexists. split; [apply Hk|]. split; [done|by eexists].
Qed.

Section AliasFurther.

Variable ParseFloat : string → option float64.

#[local] Abbreviation flattenAttr := (flattenAttr ParseFloat).
#[local] Abbreviation Flatten := (Flatten ParseFloat).

Ltac not_createOnly' :=
  unfold createOnlyFields;
  repeat (apply not_elem_of_cons; split; [done|]);
  apply not_elem_of_nil.

(** X14.  When the state has [ip_filter_string], [Flatten] returns a
    non-empty [ip_filter] array of the DTO under [ip_filter_string] and not
    under [ip_filter], whatever its elements are; an array of scalars is
    passed on as it is. *)
Theorem string_alias_of_state_wins kind s d dto tree r sub first rest :
  Elem s = ElemResource r → uniq r = true →
  field r "ip_filter_string" = Some sub →
  dto !! "ip_filter" = Some (VList (first :: rest)) →
  (GetOk d (prefixOf kind +:+ "ip_filter_string")).2 = true →
  Flatten kind s d dto = Ok tree →
  ∃ tfo w v,
    tree = [tfo]
    ∧ flattenAttr sub w = Ok v
    ∧ tfo !! "ip_filter_string" = Some v
    ∧ tfo !! "ip_filter" = None
    ∧ ((∀ o, first ≠ VMap o) → w = VList (first :: rest)).
Proof.
  intros He Hu Hf Hd Hs H.
  destruct (Flatten_field _ _ _ _ _ _ _ He Hu H)
    as (dto' & t & Hns & -> & Hdom & Hr).
  assert (aliasIpFilter kind d dto
          = assignAlias d (prefixOf kind +:+ "ip_filter") dto
              "ip_filter" "network") as Hip.
  { unfold aliasIpFilter. rewrite Hd.
    destruct (decide (is_Some _)) as [|Hn]; [done|].
    destruct Hn. by eexists. }
  rewrite Hip in Hns.
  destruct (assignAlias_string d (prefixOf kind +:+ "ip_filter") dto
              "network" first rest Hd)
    as (Hkey & w & Hstr & Hw & [l Hl]); [by rewrite append_assoc|].
  pose proof (λ k, prepared_lookup _ _ _ _ k Hns) as Hlook.
  specialize (Hr _ _ Hf).
  rewrite Hlook, Hstr, Hl in Hr; [|done|not_createOnly'].
  destruct Hr as (v & Hv & Ht). exists t, w, v. rewrite Hl.
  split.
  { destruct (decide (size t = 0)) as [Hz|]; [|done].
    by apply lookup_Some_size in Ht. }
  split; [done|]. split; [done|]. split; [|by rewrite <- Hl].
  destruct (t !! "ip_filter") eqn:Htk; [|done].
  destruct (Hdom "ip_filter") as [y Hy]; [by eexists|].
  rewrite Hlook, Hkey in Hy; [done|done|not_createOnly'].
Qed.

(** X15.  An empty [ip_filter] array of the DTO is not renamed: whatever
    aliases the state has, [Flatten] returns it under [ip_filter]. *)
Theorem empty_array_is_not_renamed kind s d dto tree r sub :
  Elem s = ElemResource r → uniq r = true →
  field r "ip_filter" = Some sub →
  dto !! "ip_filter" = Some (VList []) →
  Flatten kind s d dto = Ok tree →
  ∃ tfo v,
    tree = [tfo]
    ∧ flattenAttr sub (VList []) = Ok v
    ∧ tfo !! "ip_filter" = Some v
    ∧ (dto !! "ip_filter_string" = None → tfo !! "ip_filter_string" = None)
    ∧ (dto !! "ip_filter_object" = None → tfo !! "ip_filter_object" = None).
Proof.
  intros He Hu Hf Hd H.
  destruct (Flatten_field _ _ _ _ _ _ _ He Hu H)
    as (dto' & t & Hns & -> & Hdom & Hr).
  assert (aliasIpFilter kind d dto = dto) as Hip.
  { unfold aliasIpFilter, assignAlias. rewrite Hd.
    by destruct (decide (is_Some _)). }
  rewrite Hip in Hns.
  pose proof (λ k, prepared_lookup _ _ _ _ k Hns) as Hlook.
  specialize (Hr _ _ Hf).
  rewrite Hlook, Hd in Hr; [|done|not_createOnly'].
  destruct Hr as (v & Hv & Ht). exists t, v.
  assert (∀ k, k ≠ "rules" → k ∉ createOnlyFields →
               dto !! k = None → t !! k = None) as Hnone.
  { intros k H1 H2 Hk. destruct (t !! k) eqn:Htk; [|done].
    destruct (Hdom k) as [y Hy]; [by eexists|].
    rewrite Hlook, Hk in Hy; done. }
  split.
  { destruct (decide (size t = 0)) as [Hz|]; [|done].
    by apply lookup_Some_size in Ht. }
  split; [done|]. split; [done|].
  split; intros Hk; (apply Hnone; [done|not_createOnly'|done]).
Qed.

End AliasFurther.

(** * The further properties on the sample data *)

Lemma Flatten_error_names_field_witness :
  ∃ e k sub vv e',
    Flatten Sample.ParseFloat "pg" Sample.root Sample.service
      {["name" := VNumber "3"]} = Err e
    ∧ e = ErrField k e'
    ∧ field Sample.fields k = Some sub
    ∧ ({["name" := VNumber "3"]} : Obj) !! k = Some vv
    ∧ flattenAttr Sample.ParseFloat sub vv = Err e'.
Proof.
  assert (Flatten Sample.ParseFloat "pg" Sample.root Sample.service
            {["name" := VNumber "3"]}
          = Err (ErrField "name" (ErrInvalidType "string" (VNumber "3"))))
    as H by (vm_compute; reflexivity).
  destruct (Flatten_error_names_field Sample.ParseFloat "pg" Sample.root
              Sample.service {["name" := VNumber "3"]} _ H)
    as (r & dto' & k & sub & vv & e' & Hr & _ & _ & Hf & _ & _ & Hv & He
        & Hd).
  inversion Hr; subst r. inversion He; subst k e'.
  exists (ErrField "name" (ErrInvalidType "string" (VNumber "3"))),
    "name", sub, vv, (ErrInvalidType "string" (VNumber "3")).
  split; [exact H|]. split; [reflexivity|]. split; [exact (Hf eq_refl)|].
  split; [|exact Hv]. apply Hd; [| |].
  - unfold ipFilterKeys.
    repeat (apply not_elem_of_cons; split; [done|]). apply not_elem_of_nil.
  - done.
  - unfold createOnlyFields.
    repeat (apply not_elem_of_cons; split; [done|]). apply not_elem_of_nil.
Defined.

Lemma flattenObj_keys_witness :
  ∃ t, flattenObj Sample.ParseFloat Sample.fields
         {["name" := VString "db"; "unknown" := VString "x"; "port" := VNil]}
       = Ok (Some t)
       ∧ t ≠ ∅
       ∧ ∀ k, is_Some (t !! k)
              ↔ k ∈ keys Sample.fields
                ∧ ∃ vv, ({["name" := VString "db"; "unknown" := VString "x";
                           "port" := VNil]} : Obj) !! k = Some vv
                        ∧ vv ≠ VNil.
Proof.
  exists {["name" := VString "db"]}. split; [vm_compute; reflexivity|].
  apply (flattenObj_keys Sample.ParseFloat Sample.fields
           {["name" := VString "db"; "unknown" := VString "x"; "port" := VNil]}
           (Some {["name" := VString "db"]})).
  vm_compute; reflexivity.
Defined.

Lemma Flatten_one_object_witness :
  ∃ tree, Flatten Sample.ParseFloat "pg" Sample.root Sample.service
            {["name" := VString "db"; "unknown" := VString "x"]} = Ok tree
          ∧ ∃ r, Elem Sample.root = ElemResource r
                 ∧ (tree = []
                    ∨ ∃ t, tree = [t] ∧ t ≠ ∅
                           ∧ ∀ k, is_Some (t !! k) → k ∈ keys r).
Proof.
  exists [{["admin_password" := VString "secret123"; "name" := VString "db"]}].
  split; [vm_compute; reflexivity|].
  apply (Flatten_one_object Sample.ParseFloat "pg" Sample.root Sample.service
           {["name" := VString "db"; "unknown" := VString "x"]}).
  vm_compute; reflexivity.
Defined.

Lemma flattenAttr_list_of_objects_witness :
  ∃ v, flattenAttr Sample.ParseFloat Sample.networks
         (VList [VMap Sample.netA; VMap {["other" := VString "q"]}]) = Ok v
       ∧ ∃ items, v = VList items
                  ∧ Forall (λ x, ∃ t, x = VMap t ∧ t ≠ ∅) items
                  ∧ (length items ≤ 2)%nat.
Proof.
  exists (VList [VMap Sample.netA]). split; [vm_compute; reflexivity|].
  destruct (flattenAttr_list_of_objects Sample.ParseFloat Sample.networks
              (FCons "network" Sample.str FNil)
              (VList [VMap Sample.netA; VMap {["other" := VString "q"]}])
              (VList [VMap Sample.netA]) I eq_refl)
    as (items & Hv & Hall & Hlen & _); [vm_compute; reflexivity|].
  exists items. by repeat split.
Defined.

Lemma createOnly_unset_keeps_dto_witness :
  ∃ tfo, Flatten Sample.ParseFloat "pg" Sample.root Sample.unchanged
           {["admin_password" := VString "from-the-api"]} = Ok [tfo]
         ∧ tfo !! "admin_password" = Some (VString "from-the-api").
Proof.
  pose (t := ({["admin_password" := VString "from-the-api"]} : Obj)).
  assert (Flatten Sample.ParseFloat "pg" Sample.root Sample.unchanged
            {["admin_password" := VString "from-the-api"]} = Ok [t]) as H
    by (vm_compute; reflexivity).
  assert ("admin_password" ∈ createOnlyFields) as Hin
    by (unfold createOnlyFields; repeat constructor).
  assert (({["admin_password" := VString "from-the-api"]} : Obj)
            !! "admin_password" = Some (VString "from-the-api"))
    as Hdto by (vm_compute; reflexivity).
  destruct (createOnly_unset_keeps_dto Sample.ParseFloat "pg" Sample.root
              Sample.unchanged {["admin_password" := VString "from-the-api"]}
              [t] Sample.fields "admin_password" Sample.str "from-the-api"
              eq_refl eq_refl eq_refl eq_refl Hin eq_refl Hdto H)
    as (tfo & Htree & Hk).
  inversion Htree; subst tfo. exists t. split; [exact H|exact Hk].
Defined.

Lemma null_config_clears_changed_lists_witness :
  ∃ m, expandObj Sample.Sprintf_v Sample.BigFloat_String
         (Sample.state Sample.cleared CNull) = Ok m
       ∧ m !! "ip_filter" = Some (VList [])
       ∧ m !! "ip_filter_object" = Some (VList [])
       ∧ m !! "pg" = None
       ∧ m !! "name" = None.
Proof.
  destruct (null_config_clears_changed_lists
              Sample.Sprintf_v Sample.BigFloat_String
              (Sample.state Sample.cleared CNull) Sample.fields
              eq_refl eq_refl eq_refl) as (m & Hm & Hf & _).
  exists m. split; [exact Hm|].
  rewrite (Hf "ip_filter" Sample.strings eq_refl).
  rewrite (Hf "ip_filter_object" Sample.networks eq_refl).
  rewrite (Hf "pg" Sample.pg eq_refl).
  rewrite (Hf "name" Sample.str eq_refl).
  vm_compute. by repeat split.
Defined.

Lemma expandObj_keys_witness :
  ∃ m, expandObj Sample.Sprintf_v Sample.BigFloat_String
         (Sample.state Sample.unchanged Sample.written) = Ok m
       ∧ m !! "name" = Some (VString "db")
       ∧ "name" ∈ keys Sample.fields ∧ VString "db" ≠ VNil.
Proof.
  exists {["name" := VString "db"; "pg" := VMap ∅]}.
  split; [vm_compute; reflexivity|]. split; [vm_compute; reflexivity|].
  refine (expandObj_keys Sample.Sprintf_v Sample.BigFloat_String
            (Sample.state Sample.unchanged Sample.written) Sample.fields
            _ "name" (VString "db") _ _ _); vm_compute; reflexivity.
Defined.

Lemma expandAttr_one_object_per_element_witness :
  expandAttr Sample.Sprintf_v Sample.BigFloat_String Sample.twoNetworks
  = Ok (VList [VMap Sample.netA; VMap ∅])
  ∧ ∃ ms, Forall2 (λ st m, expandObj Sample.Sprintf_v Sample.BigFloat_String
                             st = Ok m)
            (imap (itemOf Sample.twoNetworks)
               [CObject {["network" := CString "a"]};
                CObject {["network" := CNull]}]) ms
          ∧ VList [VMap Sample.netA; VMap ∅] = VList (VMap <$> ms).
Proof.
  assert (expandAttr Sample.Sprintf_v Sample.BigFloat_String
            Sample.twoNetworks = Ok (VList [VMap Sample.netA; VMap ∅])) as H
    by (vm_compute; reflexivity).
  split; [exact H|].
  assert ([CObject {["network" := CString "a"]};
           CObject {["network" := CNull]}] ≠ []) as Hne by discriminate.
  exact (expandAttr_one_object_per_element
           Sample.Sprintf_v Sample.BigFloat_String Sample.twoNetworks
           (FCons "network" Sample.str FNil) _ _ eq_refl eq_refl eq_refl
           Hne H).
Defined.

Lemma expandAttr_list_of_scalars_witness :
  expandAttr Sample.Sprintf_v Sample.BigFloat_String Sample.tagged
  = Ok (VList [VString "x"; VString "z"]).
Proof.
  assert ([CString "x"; CNull; CString "z"] ≠ []) as Hne by discriminate.
  rewrite (expandAttr_list_of_scalars
             Sample.Sprintf_v Sample.BigFloat_String Sample.tagged
             [CString "x"; CNull; CString "z"] eq_refl
             (λ res H, ltac:(discriminate H)) eq_refl Hne).
  vm_compute. reflexivity.
Defined.

Lemma declared_scalar_sent_witness :
  ∃ m, expandObj Sample.Sprintf_v Sample.BigFloat_String
         (Sample.state Sample.unchanged Sample.written) = Ok m
       ∧ HasChange Sample.unchanged "pg_user_config.0.name" = false
       ∧ m !! "name" = Some (VString "db").
Proof.
  pose (m := ({["name" := VString "db"; "pg" := VMap ∅]} : Obj)).
  assert (expandObj Sample.Sprintf_v Sample.BigFloat_String
            (Sample.state Sample.unchanged Sample.written) = Ok m) as H
    by (vm_compute; reflexivity).
  assert (attrOf (Sample.state Sample.unchanged Sample.written) "name"
          = Ok (CString "db")) as Hc by (vm_compute; reflexivity).
  exists m. split; [exact H|]. split; [vm_compute; reflexivity|].
  rewrite (declared_scalar_sent Sample.Sprintf_v Sample.BigFloat_String
             (Sample.state Sample.unchanged Sample.written) Sample.fields
             "name" Sample.str (CString "db") m
             eq_refl eq_refl eq_refl
             ltac:(discriminate) ltac:(discriminate) eq_refl
             Hc eq_refl H).
  vm_compute. reflexivity.
Defined.

Lemma setItems_in_state_and_config_witness :
  setItems Sample.Sprintf_v Sample.BigFloat_String Sample.filtered
  = Ok [VString "a"; VString "c"]
  ∧ sublist [VString "a"; VString "c"]
      [VString "a"; VString "b"; VString "c"].
Proof.
  assert (setItems Sample.Sprintf_v Sample.BigFloat_String Sample.filtered
          = Ok [VString "a"; VString "c"]) as H by (vm_compute; reflexivity).
  split; [exact H|].
  destruct (setItems_in_state_and_config
              Sample.Sprintf_v Sample.BigFloat_String Sample.filtered
              [VString "a"; VString "c"] eq_refl H)
    as (items & sl & _ & Hv & Hsub & _).
  vm_compute in Hv. inversion Hv; subst sl. exact Hsub.
Defined.

Lemma assignAlias_other_keys_witness :
  assignAlias Sample.service "pg_user_config.0.ip_filter"
    {["ip_filter" := VList [VMap Sample.netA]; "name" := VString "db"]}
    "ip_filter" "network" !! "name"
  = Some (VString "db").
Proof.
  rewrite (assignAlias_other_keys Sample.service "pg_user_config.0.ip_filter"
             {["ip_filter" := VList [VMap Sample.netA];
               "name" := VString "db"]}
             "ip_filter" "network" "name"
             ltac:(discriminate) ltac:(discriminate) ltac:(discriminate)).
  vm_compute. reflexivity.
Defined.

Lemma string_alias_of_state_wins_witness :
  ∃ tfo, Flatten Sample.ParseFloat "pg" Sample.root Sample.withStrings
           {["ip_filter" := VList [VString "a"; VString "b"]]} = Ok [tfo]
         ∧ tfo !! "ip_filter_string" = Some (VSet [VString "a"; VString "b"])
         ∧ tfo !! "ip_filter" = None.
Proof.
  pose (t := ({["ip_filter_string" := VSet [VString "a"; VString "b"]]}
              : Obj)).
  assert (Flatten Sample.ParseFloat "pg" Sample.root Sample.withStrings
            {["ip_filter" := VList [VString "a"; VString "b"]]} = Ok [t]) as H
    by (vm_compute; reflexivity).
  assert (({["ip_filter" := VList [VString "a"; VString "b"]]} : Obj)
            !! "ip_filter" = Some (VList [VString "a"; VString "b"])) as Hd
    by (vm_compute; reflexivity).
  assert ((GetOk Sample.withStrings (prefixOf "pg" +:+ "ip_filter_string")).2
          = true) as Hs by (vm_compute; reflexivity).
  destruct (string_alias_of_state_wins Sample.ParseFloat "pg" Sample.root
              Sample.withStrings
              {["ip_filter" := VList [VString "a"; VString "b"]]} [t]
              Sample.fields Sample.strings (VString "a") [VString "b"]
              eq_refl eq_refl eq_refl Hd Hs H)
    as (tfo & w & v & Htree & Hv & Hstr & Hip & Hw).
  inversion Htree; subst tfo. exists t. split; [exact H|].
  split; [vm_compute; reflexivity|exact Hip].
Defined.

Lemma empty_array_is_not_renamed_witness :
  ∃ tfo, Flatten Sample.ParseFloat "pg" Sample.root Sample.withStrings
           {["ip_filter" := VList []]} = Ok [tfo]
         ∧ tfo !! "ip_filter" = Some (VSet [])
         ∧ tfo !! "ip_filter_string" = None.
Proof.
  pose (t := ({["ip_filter" := VSet []]} : Obj)).
  assert (Flatten Sample.ParseFloat "pg" Sample.root Sample.withStrings
            {["ip_filter" := VList []]} = Ok [t]) as H
    by (vm_compute; reflexivity).
  assert (({["ip_filter" := VList []]} : Obj) !! "ip_filter"
          = Some (VList [])) as Hd by (vm_compute; reflexivity).
  destruct (empty_array_is_not_renamed Sample.ParseFloat "pg" Sample.root
              Sample.withStrings {["ip_filter" := VList []]} [t]
              Sample.fields Sample.strings
              eq_refl eq_refl eq_refl Hd H)
    as (tfo & v & Htree & Hv & Hip & Hstr & _).
  inversion Htree; subst tfo. exists t. split; [exact H|].
  split; [vm_compute; reflexivity|]. apply Hstr. vm_compute; reflexivity.
Defined.
